(** * negotiAItor: the turn-scheduling and negotiation state machine

    A shallow embedding of [src/server/negotiation-agent.ts] (class
    [NegotiationAgent]) and [src/server/stall-manager.ts] (class
    [StallManager]), with the timers of the JavaScript event loop made
    explicit, and the properties the specification states about them.

    Conventions of the embedding.
    - Time is an integer number of milliseconds ([Date.now()]).
    - [setTimeout] allocates a fresh handle and arms an entry in a heap of
      timers; [clearTimeout] removes the entry.  A field that stored the
      handle keeps it after the timer fired, exactly as the JavaScript
      fields do.  A timer fires when the clock reaches its due time, and the
      clock does not pass an armed timer.
    - An [async] function runs synchronously up to its next [await]; what
      remains is parked as a task until the awaited call completes.  A run
      of awaited action-surface calls with no access to the agent in
      between ([sendChatMessage]: snapshot, click, type, pressKey) is one
      suspension.  The continuation of the approval promise runs in the
      same step as the call of its resolver (a microtask, before any other
      event).
    - Results of the collaborators (LLM, browser, [Math.random],
      [randomUUID]) are inputs carried by the events. *)

From Stdlib Require Import ZArith String Ascii List Lia Bool.
From stdpp Require Import base decidable option list gmap strings.

Set Warnings "-clear-no-such-hyp".

Open Scope string_scope.
Open Scope Z_scope.
Open Scope list_scope.

(** * Strings *)

Definition nl : string := String "010"%char EmptyString.
Definition dq : string := String "034"%char EmptyString.

(** [String.prototype.toLowerCase], on the ASCII letters. *)
Definition lower_ascii (c : ascii) : ascii :=
  let n := nat_of_ascii c in
  if ((65 <=? n)%nat && (n <=? 90)%nat)%bool then ascii_of_nat (n + 32) else c.

Fixpoint toLowerCase (s : string) : string :=
  match s with
  | EmptyString => EmptyString
  | String c r => String (lower_ascii c) (toLowerCase r)
  end.

(** [s.includes(t)] *)
Fixpoint includes (s t : string) : bool :=
  (String.prefix t s
   || match s with
      | EmptyString => false
      | String _ r => includes r t
      end)%bool.

(** JavaScript truthiness of an optional string: defined and not empty. *)
Definition truthy (o : option string) : bool :=
  match o with
  | Some s => negb (String.eqb s "")
  | None => false
  end.

(** [o ?? d] *)
Definition orElse (o : option string) (d : string) : string := default d o.

(** * Shared server types ([types.ts]) *)

Inductive Sender := rep | agent | system.

Inductive NegotiationState :=
  | idle | connecting | reaching_human | negotiating
  | awaiting_approval | paused | done.

#[global] Instance Sender_eq_dec : EqDecision Sender.
Proof. solve_decision. Defined.
#[global] Instance NegotiationState_eq_dec : EqDecision NegotiationState.
Proof. solve_decision. Defined.

Record ChatMessage := {
  sender : Sender;
  text : string;
  timestamp : Z
}.

Record ApprovalRequest := {
  req_id : string;
  description : string;
  repOffer : string;
  agentRecommendation : string;
  req_reasoning : string;
  req_counterSuggestion : option string
}.

Record NegotiationConfig := {
  sessionName : string;
  goal : string;
  bottomLine : string;
  tone : string;
  context : string;
  serviceProvider : string
}.

Inductive ServerMessage :=
  | chat_update (messages : list ChatMessage)
  | approval_required (request : ApprovalRequest)
  | agent_thinking (thinking : string)
  | agent_unsure (question : string) (ctx : string)
  | status_update (st : NegotiationState)
  | research_result (query : string) (findings : string)
  | error (message : string).

Definition senderStr (s : Sender) : string :=
  match s with
  | rep => "rep"
  | agent => "agent"
  | system => "system"
  end.

(** * Timers of the event loop *)

Section Timers.
Context {C : Type}.

Record Timer := { due : Z; cb : C }.

Record Heap := {
  armed : list (nat * Timer);
  nextId : nat
}.

Definition emptyHeap : Heap := {| armed := []; nextId := 0 |}.

Definition setTimeout (now : Z) (c : C) (delay : Z) (h : Heap) : nat * Heap :=
  (nextId h,
   {| armed := armed h ++ [(nextId h, {| due := now + delay; cb := c |})];
      nextId := S (nextId h) |}).

Definition clearTimeout (id : nat) (h : Heap) : Heap :=
  {| armed := filter (λ e, e.1 ≠ id) (armed h); nextId := nextId h |}.

(** [if (f) clearTimeout(f)] for a field [f] holding a handle or null. *)
Definition clearField (f : option nat) (h : Heap) : Heap :=
  match f with
  | Some id => clearTimeout id h
  | None => h
  end.

Definition findTimer (id : nat) (h : Heap) : option Timer :=
  snd <$> (snd <$> list_find (λ e, e.1 = id) (armed h)).

(** The clock may advance by [d] when no armed timer is due earlier. *)
Definition canTick (now d : Z) (h : Heap) : bool :=
  bool_decide (0 < d) && forallb (λ e, bool_decide (now + d ≤ due e.2)) (armed h).

Definition isArmed (id : nat) (h : Heap) : Prop := id ∈ (armed h).*1.
End Timers.

Arguments Timer : clear implicits.
Arguments Heap : clear implicits.

(** * The Stall Scheduler ([stall-manager.ts]) *)

Module StallManager.

Definition STALL_MESSAGES : list string := [
  "Let me review the details of that, one moment please";
  "I want to make sure I understand the offer correctly, give me just a sec";
  "Hmm let me think about that for a moment";
  "I'm looking over the terms, bear with me";
  "Just reviewing this with my partner, one moment";
  "Hold on, I want to double check something before I decide";
  "Give me a minute to consider this";
  "Still reviewing, thanks for your patience";
  "I want to make sure this works for me, almost done thinking it over";
  "Appreciate your patience, still considering"
].

Definition FIRST_STALL_DELAY_MS : Z := 20000.
Definition MIN_STALL_INTERVAL_MS : Z := 45000.
Definition MAX_STALL_JITTER_MS : Z := 30000.

Record t := {
  timer : option nat;
  count : nat
}.

(** [new StallManager(onSend)] *)
Definition create : t := {| timer := None; count := 0 |}.

Section Ops.
Context {C : Type}.
(** the callback [() => this.fire()] in the host's callback type *)
Variable fireCb : C.

(** [schedule()]; [rnd] is the integer part of
    [Math.random() * MAX_STALL_JITTER_MS], read only when [count] is
    not zero. *)
Definition schedule (now rnd : Z) (s : t * Heap C) : t * Heap C :=
  let delay :=
    if (count s.1 =? 0)%nat then FIRST_STALL_DELAY_MS
    else MIN_STALL_INTERVAL_MS + rnd in
  let r := setTimeout now fireCb delay s.2 in
  ({| timer := Some r.1; count := count s.1 |}, r.2).

Definition start (now : Z) (s : t * Heap C) : t * Heap C :=
  schedule now 0 ({| timer := timer s.1; count := 0 |}, s.2).

Definition stop (s : t * Heap C) : t * Heap C :=
  ({| timer := None; count := 0 |}, clearField (timer s.1) s.2).

(** [fire()] up to [await this.onSend(msg)]: the message handed to
    [onSend] and the scheduler with its counter advanced. *)
Definition fire_begin (s : t) : string * t :=
  (nth (count s mod 10)%nat STALL_MESSAGES "",
   {| timer := timer s; count := S (count s) |}).

(** [fire()] after the [await], whether [onSend] resolved or threw. *)
Definition fire_end (now rnd : Z) (s : t * Heap C) : t * Heap C :=
  match timer s.1 with
  | Some _ => schedule now rnd s
  | None => s
  end.
End Ops.

(** ** The scheduler on its own, with an arbitrary [onSend] *)

Inductive Obs :=
  | Sent (at_ : Z) (msg : string)
  | Completed (at_ : Z) (ok : bool).

Record World := {
  sm : t;
  heap : Heap unit;
  now : Z;
  inflight : list string;
  log : list Obs
}.

Inductive Ev :=
  | Ev_start
  | Ev_stop
  | Ev_tick (d : Z)
  | Ev_fire (id : nat)
  | Ev_done (i : nat) (ok : bool) (rnd : Z).

Definition fresh (t0 : Z) : World :=
  {| sm := create; heap := emptyHeap; now := t0; inflight := []; log := [] |}.

Definition step (e : Ev) (w : World) : option World :=
  match e with
  | Ev_start =>
      let r := start tt (now w) (sm w, heap w) in
      Some {| sm := r.1; heap := r.2; now := now w;
              inflight := inflight w; log := log w |}
  | Ev_stop =>
      let r := stop (sm w, heap w) in
      Some {| sm := r.1; heap := r.2; now := now w;
              inflight := inflight w; log := log w |}
  | Ev_tick d =>
      if canTick (now w) d (heap w)
      then Some {| sm := sm w; heap := heap w; now := now w + d;
                   inflight := inflight w; log := log w |}
      else None
  | Ev_fire id =>
      match findTimer id (heap w) with
      | Some tm =>
          if bool_decide (due tm ≤ now w) then
            let r := fire_begin (sm w) in
            Some {| sm := r.2; heap := clearTimeout id (heap w); now := now w;
                    inflight := inflight w ++ [r.1];
                    log := log w ++ [Sent (now w) r.1] |}
          else None
      | None => None
      end
  | Ev_done i ok rnd =>
      match inflight w !! i with
      | Some _ =>
          if bool_decide (0 ≤ rnd < MAX_STALL_JITTER_MS) then
            let r := fire_end tt (now w) rnd (sm w, heap w) in
            Some {| sm := r.1; heap := r.2; now := now w;
                    inflight := delete i (inflight w);
                    log := log w ++ [Completed (now w) ok] |}
          else None
      | None => None
      end
  end.

Fixpoint run (evs : list Ev) (w : World) : option World :=
  match evs with
  | [] => Some w
  | e :: r =>
      match step e w with
      | Some w' => run r w'
      | None => None
      end
  end.

Definition sends (l : list Obs) : list (Z * string) :=
  omap (λ o, match o with Sent t m => Some (t, m) | Completed _ _ => None end) l.

Definition isStart (e : Ev) : bool :=
  match e with Ev_start => true | _ => false end.
Definition isStop (e : Ev) : bool :=
  match e with Ev_stop => true | _ => false end.

End StallManager.

(** * The Negotiation Core ([negotiation-agent.ts]) *)

(** ** Decision payloads ([llm/tools.ts]) *)

Record NewMessage := {
  nm_sender : Sender;
  nm_text : string
}.

(** The argument of [executeAction]. *)
Record ActionArgs := {
  action : string;
  response : option string;
  ref : option string;
  typed : option string;   (* [text] *)
  reason : option string
}.

(** Arguments of [reach_human_turn]. *)
Record ReachTurn := {
  rt_newMessages : list NewMessage;
  humanDetected : bool;
  humanEvidence : string;
  rt_action : ActionArgs
}.

(** Arguments of [negotiation_turn]. *)
Record NegTurn := {
  newMessages : list NewMessage;
  isCommitment : bool;
  offerDescription : option string;
  recommendation : option string;
  reasoning : option string;
  counterSuggestion : option string;
  nt_action : ActionArgs
}.

(** ** Awaited calls, their results, and what runs after them *)

Inductive Tool := PAGE_ACTION_TOOL | REACH_HUMAN_TURN_TOOL | NEGOTIATION_TURN_TOOL.

Inductive ChatPurpose :=
  | Generate (snapshot instruction : string)   (* [generateResponse] *)
  | Summary.                                   (* [summarize] *)

Inductive ExtCall :=
  | Navigate (url : string)
  | Snapshot
  | Send (msg : string)                        (* [sendChatMessage] *)
  | McpType (r txt : string)                   (* click, type, pressKey *)
  | McpClick (r : string)
  | LlmChat (p : ChatPurpose)
  | LlmTools (tool : Tool)
  | Research (query : string).

Inductive Result :=
  | R_ok
  | R_err (err : string)                       (* the promise rejected *)
  | R_snapshot (s : string)
  | R_chat (s : string)
  | R_text (s : string)                        (* [{ type: "text" }] *)
  | R_page (a : ActionArgs)
  | R_reach (t : ReachTurn)
  | R_neg (t : NegTurn)
  | R_findings (f : option string).

Definition accepts (c : ExtCall) (r : Result) : bool :=
  match c, r with
  | (Navigate _ | Send _ | McpType _ _ | McpClick _), (R_ok | R_err _) => true
  | Snapshot, (R_snapshot _ | R_err _) => true
  | LlmChat _, (R_chat _ | R_err _) => true
  | LlmTools PAGE_ACTION_TOOL, (R_page _ | R_text _ | R_err _) => true
  | LlmTools REACH_HUMAN_TURN_TOOL, (R_reach _ | R_text _ | R_err _) => true
  | LlmTools NEGOTIATION_TURN_TOOL, (R_neg _ | R_text _ | R_err _) => true
  | Research _, R_findings _ => true
  | _, _ => false
  end.

Definition isLLM (c : ExtCall) : bool :=
  match c with
  | LlmChat _ | LlmTools _ => true
  | _ => false
  end.

(** The turn an awaited call belongs to: it decides the [catch] and
    [finally] that follow.  [continued] tells whether [start] was called by
    the server's [continue_session] handler, which calls
    [startPaused("negotiating")] as soon as [start] resolves. *)
Inductive Ctx :=
  | InKickoff (continued : bool)
  | InReach
  | InNeg.

Inductive Kont :=
  | K_start (continued : bool)
  | K_kickoff_snapshot (continued : bool)
  | K_kickoff_llm (continued : bool)
  | K_then_add (ctx : Ctx) (s : Sender) (txt : string)
  | K_reach_llm (snapshot : string)
  | K_generated (ctx : Ctx)
  | K_neg_llm (snapshot : string)
  | K_neg_research (turn : NegTurn)
  | K_neg_fresh (approved : bool)
  | K_extract
  | K_inact_reach
  | K_inact_snapshot
  | K_inact_generated
  | K_inact_sent (followUp : string)
  | K_turn
  | K_override_sent (txt : string)
  | K_summary
  | K_stall_sent (txt : string).

Inductive Task :=
  | Await (call : ExtCall) (k : Kont)
  | Rendezvous.     (* [handleCommitmentPoint] waiting on the approval promise *)

Inductive Callback :=
  | CbDebounce (snapshot : string)    (* [() => this.processTurn(snapshot)] *)
  | CbInactivity                      (* [() => this.handleInactivity()] *)
  | CbUserTyping                      (* the expiry set by [handleUserTyping] *)
  | CbOverrideDelay                   (* the 3 s delay of [handleUserOverride] *)
  | CbStartWait (continued : bool)    (* the 3 s page-load wait of [start] *)
  | CbStall.                          (* [() => this.fire()] of the scheduler *)

(** Values drawn during a continuation. *)
Record Oracle := {
  rnd : Z;          (* integer part of [Math.random() * MAX_STALL_JITTER_MS] *)
  uuid : string     (* [randomUUID()] *)
}.

#[global] Instance Callback_eq_dec : EqDecision Callback.
Proof. solve_decision. Defined.

(** ** The agent: its fields, and the event loop around it *)

Record Agent := {
  config : NegotiationConfig;
  conversation : list ChatMessage;
  state : NegotiationState;
  debounceTimer : option nat;
  inactivityTimer : option nat;
  pendingApproval : option ApprovalRequest;
  approvalResolve : bool;
  approvalDirective : option string;
  waitingForLLM : bool;
  pausedFromState : option NegotiationState;
  stallManager : StallManager.t;
  userTypingTimer : option nat;
  userTyping : bool;
  clock : Z;
  timers : Heap Callback;
  tasks : list Task;
  ui : list ServerMessage;
  listening : bool;
  observerRunning : bool;
  returned : list (option string)
}.

Definition set_conversation (v : list ChatMessage) (a : Agent) : Agent :=
  {| config := config a; conversation := v; state := state a; debounceTimer
     := debounceTimer a; inactivityTimer := inactivityTimer a;
     pendingApproval := pendingApproval a; approvalResolve :=
     approvalResolve a; approvalDirective := approvalDirective a;
     waitingForLLM := waitingForLLM a; pausedFromState := pausedFromState a;
     stallManager := stallManager a; userTypingTimer := userTypingTimer a;
     userTyping := userTyping a; clock := clock a; timers := timers a; tasks
     := tasks a; ui := ui a; listening := listening a; observerRunning :=
     observerRunning a; returned := returned a |}.

Definition set_state (v : NegotiationState) (a : Agent) : Agent :=
  {| config := config a; conversation := conversation a; state := v;
     debounceTimer := debounceTimer a; inactivityTimer := inactivityTimer a;
     pendingApproval := pendingApproval a; approvalResolve :=
     approvalResolve a; approvalDirective := approvalDirective a;
     waitingForLLM := waitingForLLM a; pausedFromState := pausedFromState a;
     stallManager := stallManager a; userTypingTimer := userTypingTimer a;
     userTyping := userTyping a; clock := clock a; timers := timers a; tasks
     := tasks a; ui := ui a; listening := listening a; observerRunning :=
     observerRunning a; returned := returned a |}.

Definition set_debounceTimer (v : option nat) (a : Agent) : Agent :=
  {| config := config a; conversation := conversation a; state := state a;
     debounceTimer := v; inactivityTimer := inactivityTimer a;
     pendingApproval := pendingApproval a; approvalResolve :=
     approvalResolve a; approvalDirective := approvalDirective a;
     waitingForLLM := waitingForLLM a; pausedFromState := pausedFromState a;
     stallManager := stallManager a; userTypingTimer := userTypingTimer a;
     userTyping := userTyping a; clock := clock a; timers := timers a; tasks
     := tasks a; ui := ui a; listening := listening a; observerRunning :=
     observerRunning a; returned := returned a |}.

Definition set_inactivityTimer (v : option nat) (a : Agent) : Agent :=
  {| config := config a; conversation := conversation a; state := state a;
     debounceTimer := debounceTimer a; inactivityTimer := v; pendingApproval
     := pendingApproval a; approvalResolve := approvalResolve a;
     approvalDirective := approvalDirective a; waitingForLLM :=
     waitingForLLM a; pausedFromState := pausedFromState a; stallManager :=
     stallManager a; userTypingTimer := userTypingTimer a; userTyping :=
     userTyping a; clock := clock a; timers := timers a; tasks := tasks a;
     ui := ui a; listening := listening a; observerRunning :=
     observerRunning a; returned := returned a |}.

Definition set_pendingApproval (v : option ApprovalRequest) (a : Agent) : Agent :=
  {| config := config a; conversation := conversation a; state := state a;
     debounceTimer := debounceTimer a; inactivityTimer := inactivityTimer a;
     pendingApproval := v; approvalResolve := approvalResolve a;
     approvalDirective := approvalDirective a; waitingForLLM :=
     waitingForLLM a; pausedFromState := pausedFromState a; stallManager :=
     stallManager a; userTypingTimer := userTypingTimer a; userTyping :=
     userTyping a; clock := clock a; timers := timers a; tasks := tasks a;
     ui := ui a; listening := listening a; observerRunning :=
     observerRunning a; returned := returned a |}.

Definition set_approvalResolve (v : bool) (a : Agent) : Agent :=
  {| config := config a; conversation := conversation a; state := state a;
     debounceTimer := debounceTimer a; inactivityTimer := inactivityTimer a;
     pendingApproval := pendingApproval a; approvalResolve := v;
     approvalDirective := approvalDirective a; waitingForLLM :=
     waitingForLLM a; pausedFromState := pausedFromState a; stallManager :=
     stallManager a; userTypingTimer := userTypingTimer a; userTyping :=
     userTyping a; clock := clock a; timers := timers a; tasks := tasks a;
     ui := ui a; listening := listening a; observerRunning :=
     observerRunning a; returned := returned a |}.

Definition set_approvalDirective (v : option string) (a : Agent) : Agent :=
  {| config := config a; conversation := conversation a; state := state a;
     debounceTimer := debounceTimer a; inactivityTimer := inactivityTimer a;
     pendingApproval := pendingApproval a; approvalResolve :=
     approvalResolve a; approvalDirective := v; waitingForLLM :=
     waitingForLLM a; pausedFromState := pausedFromState a; stallManager :=
     stallManager a; userTypingTimer := userTypingTimer a; userTyping :=
     userTyping a; clock := clock a; timers := timers a; tasks := tasks a;
     ui := ui a; listening := listening a; observerRunning :=
     observerRunning a; returned := returned a |}.

Definition set_waitingForLLM (v : bool) (a : Agent) : Agent :=
  {| config := config a; conversation := conversation a; state := state a;
     debounceTimer := debounceTimer a; inactivityTimer := inactivityTimer a;
     pendingApproval := pendingApproval a; approvalResolve :=
     approvalResolve a; approvalDirective := approvalDirective a;
     waitingForLLM := v; pausedFromState := pausedFromState a; stallManager
     := stallManager a; userTypingTimer := userTypingTimer a; userTyping :=
     userTyping a; clock := clock a; timers := timers a; tasks := tasks a;
     ui := ui a; listening := listening a; observerRunning :=
     observerRunning a; returned := returned a |}.

Definition set_pausedFromState (v : option NegotiationState) (a : Agent) : Agent :=
  {| config := config a; conversation := conversation a; state := state a;
     debounceTimer := debounceTimer a; inactivityTimer := inactivityTimer a;
     pendingApproval := pendingApproval a; approvalResolve :=
     approvalResolve a; approvalDirective := approvalDirective a;
     waitingForLLM := waitingForLLM a; pausedFromState := v; stallManager :=
     stallManager a; userTypingTimer := userTypingTimer a; userTyping :=
     userTyping a; clock := clock a; timers := timers a; tasks := tasks a;
     ui := ui a; listening := listening a; observerRunning :=
     observerRunning a; returned := returned a |}.

Definition set_stallManager (v : StallManager.t) (a : Agent) : Agent :=
  {| config := config a; conversation := conversation a; state := state a;
     debounceTimer := debounceTimer a; inactivityTimer := inactivityTimer a;
     pendingApproval := pendingApproval a; approvalResolve :=
     approvalResolve a; approvalDirective := approvalDirective a;
     waitingForLLM := waitingForLLM a; pausedFromState := pausedFromState a;
     stallManager := v; userTypingTimer := userTypingTimer a; userTyping :=
     userTyping a; clock := clock a; timers := timers a; tasks := tasks a;
     ui := ui a; listening := listening a; observerRunning :=
     observerRunning a; returned := returned a |}.

Definition set_userTypingTimer (v : option nat) (a : Agent) : Agent :=
  {| config := config a; conversation := conversation a; state := state a;
     debounceTimer := debounceTimer a; inactivityTimer := inactivityTimer a;
     pendingApproval := pendingApproval a; approvalResolve :=
     approvalResolve a; approvalDirective := approvalDirective a;
     waitingForLLM := waitingForLLM a; pausedFromState := pausedFromState a;
     stallManager := stallManager a; userTypingTimer := v; userTyping :=
     userTyping a; clock := clock a; timers := timers a; tasks := tasks a;
     ui := ui a; listening := listening a; observerRunning :=
     observerRunning a; returned := returned a |}.

Definition set_userTyping (v : bool) (a : Agent) : Agent :=
  {| config := config a; conversation := conversation a; state := state a;
     debounceTimer := debounceTimer a; inactivityTimer := inactivityTimer a;
     pendingApproval := pendingApproval a; approvalResolve :=
     approvalResolve a; approvalDirective := approvalDirective a;
     waitingForLLM := waitingForLLM a; pausedFromState := pausedFromState a;
     stallManager := stallManager a; userTypingTimer := userTypingTimer a;
     userTyping := v; clock := clock a; timers := timers a; tasks := tasks
     a; ui := ui a; listening := listening a; observerRunning :=
     observerRunning a; returned := returned a |}.

Definition set_clock (v : Z) (a : Agent) : Agent :=
  {| config := config a; conversation := conversation a; state := state a;
     debounceTimer := debounceTimer a; inactivityTimer := inactivityTimer a;
     pendingApproval := pendingApproval a; approvalResolve :=
     approvalResolve a; approvalDirective := approvalDirective a;
     waitingForLLM := waitingForLLM a; pausedFromState := pausedFromState a;
     stallManager := stallManager a; userTypingTimer := userTypingTimer a;
     userTyping := userTyping a; clock := v; timers := timers a; tasks :=
     tasks a; ui := ui a; listening := listening a; observerRunning :=
     observerRunning a; returned := returned a |}.

Definition set_timers (v : Heap Callback) (a : Agent) : Agent :=
  {| config := config a; conversation := conversation a; state := state a;
     debounceTimer := debounceTimer a; inactivityTimer := inactivityTimer a;
     pendingApproval := pendingApproval a; approvalResolve :=
     approvalResolve a; approvalDirective := approvalDirective a;
     waitingForLLM := waitingForLLM a; pausedFromState := pausedFromState a;
     stallManager := stallManager a; userTypingTimer := userTypingTimer a;
     userTyping := userTyping a; clock := clock a; timers := v; tasks :=
     tasks a; ui := ui a; listening := listening a; observerRunning :=
     observerRunning a; returned := returned a |}.

Definition set_tasks (v : list Task) (a : Agent) : Agent :=
  {| config := config a; conversation := conversation a; state := state a;
     debounceTimer := debounceTimer a; inactivityTimer := inactivityTimer a;
     pendingApproval := pendingApproval a; approvalResolve :=
     approvalResolve a; approvalDirective := approvalDirective a;
     waitingForLLM := waitingForLLM a; pausedFromState := pausedFromState a;
     stallManager := stallManager a; userTypingTimer := userTypingTimer a;
     userTyping := userTyping a; clock := clock a; timers := timers a; tasks
     := v; ui := ui a; listening := listening a; observerRunning :=
     observerRunning a; returned := returned a |}.

Definition set_ui (v : list ServerMessage) (a : Agent) : Agent :=
  {| config := config a; conversation := conversation a; state := state a;
     debounceTimer := debounceTimer a; inactivityTimer := inactivityTimer a;
     pendingApproval := pendingApproval a; approvalResolve :=
     approvalResolve a; approvalDirective := approvalDirective a;
     waitingForLLM := waitingForLLM a; pausedFromState := pausedFromState a;
     stallManager := stallManager a; userTypingTimer := userTypingTimer a;
     userTyping := userTyping a; clock := clock a; timers := timers a; tasks
     := tasks a; ui := v; listening := listening a; observerRunning :=
     observerRunning a; returned := returned a |}.

Definition set_listening (v : bool) (a : Agent) : Agent :=
  {| config := config a; conversation := conversation a; state := state a;
     debounceTimer := debounceTimer a; inactivityTimer := inactivityTimer a;
     pendingApproval := pendingApproval a; approvalResolve :=
     approvalResolve a; approvalDirective := approvalDirective a;
     waitingForLLM := waitingForLLM a; pausedFromState := pausedFromState a;
     stallManager := stallManager a; userTypingTimer := userTypingTimer a;
     userTyping := userTyping a; clock := clock a; timers := timers a; tasks
     := tasks a; ui := ui a; listening := v; observerRunning :=
     observerRunning a; returned := returned a |}.

Definition set_observerRunning (v : bool) (a : Agent) : Agent :=
  {| config := config a; conversation := conversation a; state := state a;
     debounceTimer := debounceTimer a; inactivityTimer := inactivityTimer a;
     pendingApproval := pendingApproval a; approvalResolve :=
     approvalResolve a; approvalDirective := approvalDirective a;
     waitingForLLM := waitingForLLM a; pausedFromState := pausedFromState a;
     stallManager := stallManager a; userTypingTimer := userTypingTimer a;
     userTyping := userTyping a; clock := clock a; timers := timers a; tasks
     := tasks a; ui := ui a; listening := listening a; observerRunning := v;
     returned := returned a |}.

Definition set_returned (v : list (option string)) (a : Agent) : Agent :=
  {| config := config a; conversation := conversation a; state := state a;
     debounceTimer := debounceTimer a; inactivityTimer := inactivityTimer a;
     pendingApproval := pendingApproval a; approvalResolve :=
     approvalResolve a; approvalDirective := approvalDirective a;
     waitingForLLM := waitingForLLM a; pausedFromState := pausedFromState a;
     stallManager := stallManager a; userTypingTimer := userTypingTimer a;
     userTyping := userTyping a; clock := clock a; timers := timers a; tasks
     := tasks a; ui := ui a; listening := listening a; observerRunning :=
     observerRunning a; returned := v |}.

(** ** Synchronous helpers *)

Definition Op := Agent → Agent.
Definition seq (f g : Op) : Op := λ a, g (f a).
Infix ">>>" := seq (at level 56, left associativity).
Definition skip : Op := λ a, a.

Definition INACTIVITY_MS : Z := 15000.
Definition TYPING_INACTIVITY_MS : Z := 5 * 60000.
Definition USER_TYPING_DELAY_MS : Z := 20000.
Definition DEBOUNCE_MS : Z := 2000.
Definition OVERRIDE_DELAY_MS : Z := 3000.
Definition PAGE_LOAD_MS : Z := 3000.

Definition sendToUI (m : ServerMessage) : Op :=
  λ a, set_ui (ui a ++ [m]) a.

Definition addMessage (msg : ChatMessage) : Op :=
  λ a, let conv := conversation a ++ [msg] in
       sendToUI (chat_update conv) (set_conversation conv a).

Definition setState (st : NegotiationState) : Op :=
  set_state st >>> sendToUI (status_update st).

(** The function reached an [await]: park the rest of it. *)
Definition spawn (t : Task) : Op :=
  λ a, set_tasks (tasks a ++ [t]) a.

(** [setTimeout] whose handle is not kept. *)
Definition armAnon (c : Callback) (delay : Z) : Op :=
  λ a, set_timers (setTimeout (clock a) c delay (timers a)).2 a.

(** [if (this.debounceTimer) { clearTimeout(this.debounceTimer);
    this.debounceTimer = null; }] *)
Definition clearDebounce : Op :=
  λ a, set_debounceTimer None
         (set_timers (clearField (debounceTimer a) (timers a)) a).

Definition clearInactivity : Op :=
  λ a, set_inactivityTimer None
         (set_timers (clearField (inactivityTimer a) (timers a)) a).

Definition resetInactivityTimer (ms : Z) : Op :=
  λ a, let h := clearField (inactivityTimer a) (timers a) in
       let r := setTimeout (clock a) CbInactivity ms h in
       set_inactivityTimer (Some r.1) (set_timers r.2 a).

Definition clearUserTypingDelay : Op :=
  λ a, set_userTyping false
         (set_userTypingTimer None
            (set_timers (clearField (userTypingTimer a) (timers a)) a)).

Definition stallStart : Op :=
  λ a, let r := StallManager.start CbStall (clock a) (stallManager a, timers a) in
       set_stallManager r.1 (set_timers r.2 a).

Definition stallStop : Op :=
  λ a, let r := StallManager.stop (stallManager a, timers a) in
       set_stallManager r.1 (set_timers r.2 a).

Definition detectTypingIndicator (snapshot : string) : bool :=
  let lower := toLowerCase snapshot in
  includes lower "is typing" || includes lower "is writing"
  || includes lower "typing..." || includes lower "typing…"
  || includes lower "composing".

Definition shouldResearch (repMessage : string) : bool :=
  existsb (λ t, includes (toLowerCase repMessage) t)
    ["best we can do"; "that's our current"; "standard rate";
     "can't go lower"; "our pricing"].

(** The key [`${m.sender}:${m.text}`]. *)
Definition key (s : Sender) (t : string) : string :=
  senderStr s +:+ ":" +:+ t.

Definition deduplicateMessages (newMsgs : list NewMessage) (a : Agent)
  : list NewMessage :=
  let known : gset string :=
    list_to_set ((λ m, key (sender m) (text m)) <$> conversation a) in
  filter (λ m, key (nm_sender m) (nm_text m) ∉ known) newMsgs.

(** [for (let j = 0; j < deduped.length; j++) this.addMessage({ ...,
    timestamp: baseTs + j })], from index [j] on. *)
Fixpoint addFrom (baseTs : Z) (j : nat) (msgs : list NewMessage) : Op :=
  match msgs with
  | [] => skip
  | m :: rest =>
      addMessage {| sender := nm_sender m; text := nm_text m;
                    timestamp := baseTs + Z.of_nat j |}
      >>> addFrom baseTs (S j) rest
  end.

(** Deduplicate and add new messages with spaced timestamps. *)
Definition appendDeduped (newMsgs : list NewMessage) : Op :=
  λ a, addFrom (clock a) 0 (deduplicateMessages newMsgs a) a.

(** [startPaused(restoreState)] *)
Definition startPaused (restoreState : NegotiationState) : Op :=
  set_pausedFromState (Some restoreState) >>> setState paused.

(** What the server does when [start] resolves: nothing after
    [start_negotiation], [startPaused("negotiating")] after
    [continue_session]. *)
Definition startResolved (continued : bool) : Op :=
  if continued then startPaused negotiating else skip.

(** The [finally] block of the turn. *)
Definition finally (ctx : Ctx) : Op :=
  match ctx with
  | InKickoff c => set_waitingForLLM false >>> startResolved c
  | InReach | InNeg =>
      set_waitingForLLM false >>> resetInactivityTimer INACTIVITY_MS
  end.

(** The [try] block ran to its end. *)
Definition completed (ctx : Ctx) : Op :=
  match ctx with
  | InKickoff _ => resetInactivityTimer INACTIVITY_MS >>> finally ctx
  | InReach | InNeg => finally ctx
  end.

(** The [catch] block, then [finally]. *)
Definition caught (ctx : Ctx) (err : string) : Op :=
  sendToUI (error
    (match ctx with
     | InKickoff _ => "Failed to analyze page: "
     | InReach => "Error in reach-human turn: "
     | InNeg => "Agent error: "
     end +:+ err))
  >>> finally ctx.

(** [executeAction(action)], called last in the [try] block of [ctx]. *)
Definition executeAction (ctx : Ctx) (act : ActionArgs) : Op :=
  if String.eqb (action act) "respond" && truthy (response act) then
    spawn (Await (Send (orElse (response act) ""))
                 (K_then_add ctx agent (orElse (response act) "")))
  else if String.eqb (action act) "type" && truthy (ref act) && truthy (typed act) then
    spawn (Await (McpType (orElse (ref act) "") (orElse (typed act) ""))
                 (K_then_add ctx agent (orElse (typed act) "")))
  else if String.eqb (action act) "click" && truthy (ref act) then
    spawn (Await (McpClick (orElse (ref act) ""))
                 (K_then_add ctx system
                    ("Agent clicked: " +:+ orElse (reason act) (orElse (ref act) ""))))
  else if String.eqb (action act) "needs_user" then
    (λ a, addMessage {| sender := system;
                        text := "Agent needs help: "
                                +:+ orElse (reason act) "I need your help to proceed.";
                        timestamp := clock a |} a)
    >>> sendToUI (agent_unsure (orElse (reason act) "I need your help to proceed.")
                    "The page may require sign-in or other user action.")
    >>> completed ctx
  else if String.eqb (action act) "wait" then
    sendToUI (agent_thinking (orElse (reason act) "Waiting...")) >>> completed ctx
  else completed ctx.

(** ** Turns *)

(** [kickoff()] up to its first [await]. *)
Definition kickoff (c : bool) : Op :=
  λ a, if waitingForLLM a then startResolved c a
       else (set_waitingForLLM true
             >>> sendToUI (agent_thinking
                   "Analyzing chat page — looking for a way to reach a human...")
             >>> spawn (Await Snapshot (K_kickoff_snapshot c))) a.

Definition reachHumanTurn (snapshot : string) : Op :=
  λ a, if waitingForLLM a then a
       else (set_waitingForLLM true
             >>> sendToUI (agent_thinking "Reading page and checking for a human...")
             >>> spawn (Await (LlmTools REACH_HUMAN_TURN_TOOL) (K_reach_llm snapshot))) a.

Definition negotiationTurn (snapshot : string) : Op :=
  λ a, if waitingForLLM a then a
       else (set_waitingForLLM true
             >>> sendToUI (agent_thinking "Reading page and analyzing...")
             >>> spawn (Await (LlmTools NEGOTIATION_TURN_TOOL) (K_neg_llm snapshot))) a.

(** Lightweight turn that only extracts new messages from the page. *)
Definition extractMessagesOnly (snapshot : string) : Op :=
  λ a, if waitingForLLM a then a
       else (set_waitingForLLM true
             >>> spawn (Await (LlmTools NEGOTIATION_TURN_TOOL) K_extract)) a.

Definition processTurn (snapshot : string) : Op :=
  λ a, if bool_decide (state a = paused) then a
       else if userTyping a then a
       else match state a with
            | reaching_human => reachHumanTurn snapshot a
            | negotiating => negotiationTurn snapshot a
            | awaiting_approval => extractMessagesOnly snapshot a
            | _ => a
            end.

Definition handleInactivity : Op :=
  λ a, if bool_decide (state a = paused) then a
       else if userTyping a then a
       else if waitingForLLM a then a
       else if bool_decide (state a = reaching_human)
            then spawn (Await Snapshot K_inact_reach) a
       else if bool_decide (state a ≠ negotiating) then a
       else (sendToUI (agent_thinking "No response yet, sending follow-up...")
             >>> spawn (Await Snapshot K_inact_snapshot)) a.

Definition FOLLOW_UP : string :=
  "It's been a while with no response. Send a brief, polite follow-up to check if the agent is still there. Keep it short — one sentence.".

Definition OPENING_RESUMED : string :=
  "A human representative is already in the conversation (this is a resumed session). Apologize briefly for being disconnected and pick up where the conversation left off. State your concern naturally.".

Definition OPENING_FRESH : string :=
  "A human representative just connected. Introduce yourself as the customer and state your concern. Be conversational and natural — this is the start of the real negotiation.".

Definition ACCEPT_INSTRUCTION : string :=
  "The user has approved this offer. Confirm and accept it politely.".

Definition rejectInstruction (directive : option string) : string :=
  if truthy directive
  then "The user rejected this offer and says: " +:+ dq +:+ orElse directive ""
       +:+ dq +:+ ". Follow their direction."
  else "The user rejected this offer. Push back and continue negotiating for a better deal.".

(** ** Commitment / approval flow *)

(** [handleCommitmentPoint(turn)] up to [await new Promise(...)]. *)
Definition handleCommitmentPoint (turn : NegTurn) (id : string) : Op :=
  λ a,
    let lastRepMessage := last (filter (λ m, sender m = rep) (conversation a)) in
    let approvalRequest := {|
      req_id := id;
      description := orElse (offerDescription turn) "Service rep made an offer";
      repOffer := from_option text "" lastRepMessage;
      agentRecommendation := orElse (recommendation turn) "reject";
      req_reasoning :=
        orElse (reasoning turn) "Unable to evaluate — asking user to decide.";
      req_counterSuggestion := counterSuggestion turn |} in
    (set_pendingApproval (Some approvalRequest)
     >>> setState awaiting_approval
     >>> sendToUI (approval_required approvalRequest)
     >>> stallStart
     >>> set_approvalResolve true
     >>> spawn Rendezvous) a.

(** [handleCommitmentPoint] from the resolution of the promise to its next
    [await]; when the agent was stopped it returns into the [finally] of
    [negotiationTurn]. *)
Definition commitmentResumed (approved : bool) : Op :=
  stallStop
  >>> set_pendingApproval None
  >>> set_approvalResolve false
  >>> (λ a, if bool_decide (state a = done) then finally InNeg a
            else (setState negotiating
                  >>> spawn (Await Snapshot (K_neg_fresh approved))) a).

Definition isRendezvous (t : Task) : bool :=
  match t with Rendezvous => true | Await _ _ => false end.

(** Remove the most recently parked rendezvous, if any. *)
Fixpoint takeRendezvous (l : list Task) : option (list Task) :=
  match l with
  | [] => None
  | t :: r =>
      match takeRendezvous r with
      | Some r' => Some (t :: r')
      | None => if isRendezvous t then Some r else None
      end
  end.

(** [this.approvalResolve(approved)]: the suspended
    [handleCommitmentPoint] continues. *)
Definition resolveApproval (approved : bool) : Op :=
  λ a, match takeRendezvous (tasks a) with
       | Some r => commitmentResumed approved (set_tasks r a)
       | None => a
       end.

(** Rest of [negotiationTurn] after the research step. *)
Definition afterResearch (turn : NegTurn) (o : Oracle) : Op :=
  if isCommitment turn then handleCommitmentPoint turn (uuid o)
  else executeAction InNeg (nt_action turn).

(** [reachHumanTurn] after [await this.llm.chatWithTools(...)] returned a
    tool call. *)
Definition reachDecided (snapshot : string) (turn : ReachTurn) : Op :=
  λ a,
    if bool_decide (state a = paused) || userTyping a then finally InReach a
    else
      let a1 := appendDeduped (rt_newMessages turn) a in
      if humanDetected turn then
        let a2 := (sendToUI (agent_thinking
                     "Human representative confirmed! Starting negotiation...")
                   >>> setState negotiating) a1 in
        let isResumed :=
          (1 <? length (filter (λ m, sender m = rep) (conversation a2)))%nat in
        spawn (Await (LlmChat (Generate snapshot
                        (if isResumed then OPENING_RESUMED else OPENING_FRESH)))
                     (K_generated InReach)) a2
      else executeAction InReach (rt_action turn) a1.

(** [negotiationTurn] after [await this.llm.chatWithTools(...)] returned a
    tool call. *)
Definition negotiationDecided (turn : NegTurn) (o : Oracle) : Op :=
  λ a,
    if bool_decide (state a = paused) || userTyping a then finally InNeg a
    else
      let dedupedMessages := deduplicateMessages (newMessages turn) a in
      let a1 := addFrom (clock a) 0 dedupedMessages a in
      match dedupedMessages with
      | [] => finally InNeg a1
      | _ :: _ =>
          let lastRepMsg := last (filter (λ m, nm_sender m = rep) dedupedMessages) in
          if from_option (λ m, shouldResearch (nm_text m)) false lastRepMsg then
            (sendToUI (agent_thinking "Researching competitor pricing...")
             >>> spawn (Await (Research (serviceProvider (config a)
                                         +:+ " competitor pricing "
                                         +:+ goal (config a)))
                              (K_neg_research turn))) a1
          else afterResearch turn o a1
      end.

(** [extractMessagesOnly] after its [await]. *)
Definition extractDecided (turn : NegTurn) : Op :=
  λ a, if userTyping a then set_waitingForLLM false a
       else (appendDeduped (newMessages turn) >>> set_waitingForLLM false) a.

(** ** Continuations of the awaited calls *)

Definition resume_k (k : Kont) (r : Result) (o : Oracle) : Op :=
  match k, r with
  (* start: [await this.mcp.navigate(url)], then the 3 s wait *)
  | K_start c, R_ok => armAnon (CbStartWait c) PAGE_LOAD_MS
  | K_start _, _ => skip
  (* kickoff *)
  | K_kickoff_snapshot c, R_snapshot _ =>
      spawn (Await (LlmTools PAGE_ACTION_TOOL) (K_kickoff_llm c))
  | K_kickoff_snapshot c, R_err e => caught (InKickoff c) e
  | K_kickoff_llm c, R_page act => executeAction (InKickoff c) act
  | K_kickoff_llm c, R_text _ =>
      (λ a, addMessage {| sender := system;
                          text := "Agent needs help: I couldn't determine how to start the chat. What should I do?";
                          timestamp := clock a |} a)
      >>> sendToUI (agent_unsure
             "I couldn't determine how to start the chat. What should I do?"
             "Initial page analysis failed")
      >>> finally (InKickoff c)
  | K_kickoff_llm c, R_err e => caught (InKickoff c) e
  (* an action-surface call inside a turn, then [addMessage] *)
  | K_then_add ctx s txt, R_ok =>
      (λ a, addMessage {| sender := s; text := txt; timestamp := clock a |} a)
      >>> completed ctx
  | K_then_add ctx _ _, R_err e => caught ctx e
  (* reachHumanTurn *)
  | K_reach_llm snapshot, R_reach turn => reachDecided snapshot turn
  | K_reach_llm _, R_text _ => finally InReach
  | K_reach_llm _, R_err e => caught InReach e
  (* generateResponse inside a turn, then sendChatMessage *)
  | K_generated ctx, R_chat msg => spawn (Await (Send msg) (K_then_add ctx agent msg))
  | K_generated ctx, R_err e => caught ctx e
  (* negotiationTurn *)
  | K_neg_llm _, R_neg turn => negotiationDecided turn o
  | K_neg_llm _, R_text _ => finally InNeg
  | K_neg_llm _, R_err e => caught InNeg e
  | K_neg_research turn, R_findings f =>
      (λ a, if truthy f
            then sendToUI (research_result (serviceProvider (config a)) (orElse f "")) a
            else a)
      >>> afterResearch turn o
  (* handleCommitmentPoint after [await this.mcp.snapshot()] *)
  | K_neg_fresh true, R_snapshot s =>
      spawn (Await (LlmChat (Generate s ACCEPT_INSTRUCTION)) (K_generated InNeg))
  | K_neg_fresh false, R_snapshot s =>
      λ a, (set_approvalDirective None
            >>> spawn (Await (LlmChat (Generate s (rejectInstruction (approvalDirective a))))
                             (K_generated InNeg))) a
  | K_neg_fresh _, R_err e => caught InNeg e
  (* extractMessagesOnly *)
  | K_extract, R_neg turn => extractDecided turn
  | K_extract, _ => set_waitingForLLM false
  (* handleInactivity *)
  | K_inact_reach, R_snapshot s => reachHumanTurn s
  | K_inact_reach, _ => skip
  | K_inact_snapshot, R_snapshot s =>
      spawn (Await (LlmChat (Generate s FOLLOW_UP)) K_inact_generated)
  | K_inact_snapshot, _ => resetInactivityTimer INACTIVITY_MS
  | K_inact_generated, R_chat msg => spawn (Await (Send msg) (K_inact_sent msg))
  | K_inact_generated, _ => resetInactivityTimer INACTIVITY_MS
  | K_inact_sent msg, R_ok =>
      (λ a, addMessage {| sender := agent; text := msg; timestamp := clock a |} a)
      >>> resetInactivityTimer INACTIVITY_MS
  | K_inact_sent _, _ => resetInactivityTimer INACTIVITY_MS
  (* a fresh snapshot, then processTurn: resume, typing expiry, override *)
  | K_turn, R_snapshot s => processTurn s
  | K_turn, _ => skip
  (* handleUserOverride after [await this.sendChatMessage(text)] *)
  | K_override_sent txt, R_ok =>
      (λ a, addMessage {| sender := agent; text := txt; timestamp := clock a |} a)
      >>> resetInactivityTimer INACTIVITY_MS
      >>> (λ a, if bool_decide (state a = reaching_human)
                   || bool_decide (state a = negotiating)
                then armAnon CbOverrideDelay OVERRIDE_DELAY_MS a else a)
  | K_override_sent _, _ => skip
  (* stop after [await this.summarize()] *)
  | K_summary, R_chat summary =>
      (λ a, addMessage {| sender := system; text := "__SUMMARY__" +:+ nl +:+ summary;
                          timestamp := clock a |} a)
      >>> (λ a, set_returned (returned a ++ [Some summary]) a)
  | K_summary, _ => λ a, set_returned (returned a ++ [None]) a
  (* the scheduler's onSend, then the rest of fire() *)
  | K_stall_sent txt, res =>
      (λ a, match res with
            | R_ok => addMessage {| sender := agent; text := txt; timestamp := clock a |} a
            | _ => a
            end)
      >>> (λ a, let s := StallManager.fire_end CbStall (clock a) (rnd o)
                           (stallManager a, timers a) in
                set_stallManager s.1 (set_timers s.2 a))
  (* results the awaited call cannot produce *)
  | _, _ => skip
  end.

(** ** Commands of the server *)

Definition pause : Op :=
  λ a, if bool_decide (state a = paused) || bool_decide (state a = idle)
          || bool_decide (state a = done)
       then a
       else (set_pausedFromState (Some (state a))
             >>> setState paused
             >>> clearDebounce
             >>> clearInactivity) a.

Definition resume : Op :=
  λ a, match pausedFromState a with
       | Some restoreState =>
           if bool_decide (state a = paused) then
             (set_pausedFromState None
              >>> setState restoreState
              >>> resetInactivityTimer INACTIVITY_MS
              >>> spawn (Await Snapshot K_turn)) a
           else a
       | None => a
       end.

(** [stop()] down to [this.setState("done")]. *)
Definition stop_body : Op :=
  stallStop
  >>> set_observerRunning false
  >>> set_listening false
  >>> (λ a, set_timers (clearField (debounceTimer a) (timers a)) a)
  >>> (λ a, set_timers (clearField (inactivityTimer a) (timers a)) a)
  >>> (λ a, set_timers (clearField (userTypingTimer a) (timers a)) a)
  >>> set_userTyping false
  >>> (λ a, if approvalResolve a
            then (set_approvalResolve false >>> set_pendingApproval None) a
            else a)
  >>> set_pausedFromState None
  >>> setState done.

(** [stop()]: the body, the call of [summarize()] up to its [await], and
    then, when the body called the resolver, the suspended
    [handleCommitmentPoint] with [approved = false]. *)
Definition stop : Op :=
  λ a, let forced := approvalResolve a in
       (stop_body
        >>> (λ a, match conversation a with
                  | [] => set_returned (returned a ++ [None]) a
                  | _ :: _ => spawn (Await (LlmChat Summary) K_summary) a
                  end)
        >>> (if forced then resolveApproval false else skip)) a.

Definition pendingIs (requestId : string) (a : Agent) : bool :=
  match pendingApproval a with
  | Some p => bool_decide (req_id p = requestId)
  | None => false
  end.

Definition handleApproval (requestId : string) : Op :=
  λ a, if pendingIs requestId a && approvalResolve a
       then (set_approvalDirective None >>> resolveApproval true) a
       else a.

Definition handleRejection (requestId : string) (directive : option string) : Op :=
  λ a, if pendingIs requestId a && approvalResolve a
       then (set_approvalDirective directive >>> resolveApproval false) a
       else a.

Definition handleUserDirective (txt : string) : Op :=
  clearUserTypingDelay
  >>> (λ a, addMessage {| sender := system; text := "User directive: " +:+ txt;
                          timestamp := clock a |} a).

Definition handleUserTyping : Op :=
  set_userTyping true
  >>> clearDebounce
  >>> clearInactivity
  >>> (λ a, let h := clearField (userTypingTimer a) (timers a) in
            let r := setTimeout (clock a) CbUserTyping USER_TYPING_DELAY_MS h in
            set_userTypingTimer (Some r.1) (set_timers r.2 a)).

Definition handleUserOverride (txt : string) : Op :=
  clearUserTypingDelay >>> spawn (Await (Send txt) (K_override_sent txt)).

Definition handleSnapshotChanged (snapshot : string) : Op :=
  λ a, if bool_decide (state a = paused) || bool_decide (state a = idle)
          || bool_decide (state a = done)
       then a
       else if userTyping a then a
       else
         let h := clearField (debounceTimer a) (timers a) in
         let r := setTimeout (clock a) (CbDebounce snapshot) DEBOUNCE_MS h in
         let a1 := set_debounceTimer (Some r.1) (set_timers r.2 a) in
         if detectTypingIndicator snapshot
         then resetInactivityTimer TYPING_INACTIVITY_MS a1
         else resetInactivityTimer INACTIVITY_MS a1.

(** ** The event loop *)

(** A timer fires: its callback runs up to its first [await]. *)
Definition fire (c : Callback) : Op :=
  match c with
  | CbDebounce snapshot => processTurn snapshot
  | CbInactivity => handleInactivity
  | CbUserTyping =>
      set_userTyping false
      >>> set_userTypingTimer None
      >>> resetInactivityTimer INACTIVITY_MS
      >>> spawn (Await Snapshot K_turn)
  | CbOverrideDelay => spawn (Await Snapshot K_turn)
  | CbStartWait c =>
      setState reaching_human
      >>> set_listening true
      >>> set_observerRunning true
      >>> kickoff c
  | CbStall =>
      λ a, let r := StallManager.fire_begin (stallManager a) in
           (set_stallManager r.2
            >>> spawn (Await (Send r.1) (K_stall_sent r.1))) a
  end.

Inductive Event :=
  (* commands of the server *)
  | E_pause
  | E_resume
  | E_stop
  | E_approve (requestId : string)
  | E_reject (requestId : string) (directive : option string)
  | E_directive (txt : string)
  | E_typing
  | E_override (txt : string)
  (* the observer emits [snapshot_changed] *)
  | E_changed (snapshot : string)
  (* the clock advances; a due timer fires *)
  | E_tick (d : Z)
  | E_fire (id : nat)
  (* the call awaited by task [i] completes *)
  | E_done (i : nat) (r : Result) (o : Oracle).

Definition step (e : Event) (a : Agent) : option Agent :=
  match e with
  | E_pause => Some (pause a)
  | E_resume => Some (resume a)
  | E_stop => Some (stop a)
  | E_approve requestId => Some (handleApproval requestId a)
  | E_reject requestId directive => Some (handleRejection requestId directive a)
  | E_directive txt => Some (handleUserDirective txt a)
  | E_typing => Some (handleUserTyping a)
  | E_override txt => Some (handleUserOverride txt a)
  | E_changed snapshot =>
      if listening a then Some (handleSnapshotChanged snapshot a) else None
  | E_tick d =>
      if canTick (clock a) d (timers a)
      then Some (set_clock (clock a + d) a) else None
  | E_fire id =>
      match findTimer id (timers a) with
      | Some tm =>
          if bool_decide (due tm ≤ clock a)
          then Some (fire (cb tm) (set_timers (clearTimeout id (timers a)) a))
          else None
      | None => None
      end
  | E_done i r o =>
      match tasks a !! i with
      | Some (Await call k) =>
          if accepts call r
             && bool_decide (0 ≤ rnd o < StallManager.MAX_STALL_JITTER_MS)
          then Some (resume_k k r o (set_tasks (delete i (tasks a)) a))
          else None
      | _ => None
      end
  end.

Fixpoint run (evs : list Event) (a : Agent) : option Agent :=
  match evs with
  | [] => Some a
  | e :: rest =>
      match step e a with
      | Some a' => run rest a'
      | None => None
      end
  end.

(** [new NegotiationAgent(mcp, observer, llm, config, sendToUI,
    priorConversation)] at time [t0]. *)
Definition create (cfg : NegotiationConfig) (priorConversation : list ChatMessage)
                  (t0 : Z) : Agent :=
  let a := {|
    config := cfg; conversation := []; state := idle;
    debounceTimer := None; inactivityTimer := None;
    pendingApproval := None; approvalResolve := false;
    approvalDirective := None; waitingForLLM := false;
    pausedFromState := None; stallManager := StallManager.create;
    userTypingTimer := None; userTyping := false;
    clock := t0; timers := emptyHeap; tasks := []; ui := [];
    listening := false; observerRunning := false; returned := [] |} in
  match priorConversation with
  | [] => a
  | _ :: _ =>
      sendToUI (chat_update priorConversation)
        (set_conversation priorConversation a)
  end.

(** [start(url)] up to [await this.mcp.navigate(url)]. *)
Definition start (url : string) (continued : bool) : Op :=
  setState connecting >>> spawn (Await (Navigate url) (K_start continued)).

(** A session: the server constructs the agent and calls [start] at once
    ([start_negotiation], or [continue_session] with the saved messages). *)
Definition init (cfg : NegotiationConfig) (prior : list ChatMessage)
                (url : string) (continued : bool) (t0 : Z) : Agent :=
  start url continued (create cfg prior t0).

Definition reachable (a : Agent) : Prop :=
  ∃ cfg prior url continued t0 evs,
    run evs (init cfg prior url continued t0) = Some a.

(** * Vocabulary of the properties *)

(** The pair a log entry is compared by. *)
Definition pairOf (m : ChatMessage) : Sender * string := (sender m, text m).

(** The log entry made of the [j]-th surviving message of a batch. *)
Definition stamped (baseTs : Z) (j : nat) (m : NewMessage) : ChatMessage :=
  {| sender := nm_sender m; text := nm_text m; timestamp := baseTs + Z.of_nat j |}.

(** ** A concrete session, used for the examples *)

Definition cfg0 : NegotiationConfig :=
  {| sessionName := "cable"; goal := "lower my bill"; bottomLine := "40 a month";
     tone := "polite"; context := ""; serviceProvider := "Acme" |}.

Definition o0 : Oracle := {| rnd := 0; uuid := "req-1" |}.

Definition act (s : string) : ActionArgs :=
  {| action := s; response := None; ref := None; typed := None; reason := None |}.

Definition session0 : Agent := init cfg0 [] "http://chat.example" false 0.

(** The page loads, [kickoff] asks for help, the page changes, the
    decision detects a human and the opening message is sent. *)
Definition toNegotiating : list Event := [
  E_done 0 R_ok o0; E_tick 3000; E_fire 0;
  E_done 0 (R_snapshot "page") o0;
  E_done 0 (R_page (act "needs_user")) o0;
  E_changed "snap1"; E_tick 2000; E_fire 2;
  E_done 0 (R_reach {| rt_newMessages := [{| nm_sender := rep; nm_text := "Hi, this is Bob" |}];
                       humanDetected := true; humanEvidence := "gave a name";
                       rt_action := act "wait" |}) o0;
  E_done 0 (R_chat "Hello Bob, I would like a lower price") o0;
  E_done 0 R_ok o0 ].

(** The page changes again and a negotiation turn waits for its decision. *)
Definition toTurn : list Event :=
  toNegotiating ++ [E_changed "snap2"; E_tick 2000; E_fire 5].

Definition offer : NegTurn :=
  {| newMessages := [{| nm_sender := rep; nm_text := "We can offer 40 a month" |}];
     isCommitment := true; offerDescription := Some "40 a month";
     recommendation := Some "counter"; reasoning := None;
     counterSuggestion := Some "35 a month"; nt_action := act "wait" |}.

(** The same decision, re-reporting only a message already in the log. *)
Definition offer_stale : NegTurn :=
  {| newMessages := [{| nm_sender := rep; nm_text := "Hi, this is Bob" |}];
     isCommitment := true; offerDescription := Some "40 a month";
     recommendation := Some "counter"; reasoning := None;
     counterSuggestion := Some "35 a month"; nt_action := act "wait" |}.

Definition toApproval : list Event := toTurn ++ [E_done 0 (R_neg offer) o0].

Definition after (evs : list Event) : Agent := default session0 (run evs session0).

Definition s_negotiating : Agent := Eval vm_compute in after toNegotiating.
Definition s_turn : Agent := Eval vm_compute in after toTurn.
Definition s_approval : Agent := Eval vm_compute in after toApproval.

(** ** Commitment detection *)

(** What is promised of a commitment reported by [turn] and handled at
    time [t]: the phase, the published request, the started scheduler. *)
Definition commitmentAnnounced (turn : NegTurn) (t : Z) (a' : Agent) : Prop :=
  state a' = awaiting_approval
  ∧ (∃ req, pendingApproval a' = Some req
       ∧ approval_required req ∈ ui a'
       ∧ agentRecommendation req = orElse (recommendation turn) "reject"
       ∧ req_counterSuggestion req = counterSuggestion turn)
  ∧ (∃ id, StallManager.timer (stallManager a') = Some id
       ∧ StallManager.count (stallManager a') = 0%nat
       ∧ (id, {| due := t + StallManager.FIRST_STALL_DELAY_MS; cb := CbStall |})
           ∈ armed (timers a')).

(** The last new message of the representative holds a research trigger. *)
Definition researchTriggered (turn : NegTurn) (a : Agent) : bool :=
  from_option (λ m, shouldResearch (nm_text m)) false
    (last (filter (λ m, nm_sender m = rep) (deduplicateMessages (newMessages turn) a))).

(** ** Invariants of the reachable states *)

Fixpoint countb {A : Type} (p : A → bool) (l : list A) : nat :=
  match l with
  | [] => 0
  | x :: r => (if p x then 1 else 0) + countb p r
  end.

Definition b2n (b : bool) : nat := if b then 1%nat else 0%nat.

(** An awaited call made by a turn that holds the single-flight flag
    ([kickoff], [reachHumanTurn], [negotiationTurn], [extractMessagesOnly]). *)
Definition inGuardedTurn (t : Task) : bool :=
  match t with
  | Await _ ( K_kickoff_snapshot _ | K_kickoff_llm _ | K_then_add _ _ _
            | K_reach_llm _ | K_generated _ | K_neg_llm _ | K_neg_research _
            | K_neg_fresh _ | K_extract) => true
  | _ => false
  end.

Definition isStartTask (t : Task) : bool :=
  match t with Await _ (K_start _) => true | _ => false end.

Definition isInactReach (t : Task) : bool :=
  match t with Await _ K_inact_reach => true | _ => false end.

Definition isStartWaitCb (c : Callback) : bool :=
  match c with CbStartWait _ => true | _ => false end.

Definition isStartWait (e : nat * Timer Callback) : bool := isStartWaitCb (cb e.2).

(** The armed page-load waits of [start]. *)
Definition startWaits (h : Heap Callback) : nat := countb isStartWait (armed h).

(** The call a continuation was parked on. *)
Definition isSnapshot (c : ExtCall) : bool :=
  match c with Snapshot => true | _ => false end.
Definition isSend (c : ExtCall) : bool :=
  match c with Send _ => true | _ => false end.
Definition isAct (c : ExtCall) : bool :=
  match c with Send _ | McpType _ _ | McpClick _ => true | _ => false end.
Definition isChat (c : ExtCall) : bool :=
  match c with LlmChat _ => true | _ => false end.
Definition isTool (t : Tool) (c : ExtCall) : bool :=
  match c, t with
  | LlmTools PAGE_ACTION_TOOL, PAGE_ACTION_TOOL => true
  | LlmTools REACH_HUMAN_TURN_TOOL, REACH_HUMAN_TURN_TOOL => true
  | LlmTools NEGOTIATION_TURN_TOOL, NEGOTIATION_TURN_TOOL => true
  | _, _ => false
  end.

Definition callFits (c : ExtCall) (k : Kont) : bool :=
  match k with
  | K_start _ => match c with Navigate _ => true | _ => false end
  | K_kickoff_snapshot _ | K_neg_fresh _ | K_inact_reach | K_inact_snapshot
  | K_turn => isSnapshot c
  | K_kickoff_llm _ => isTool PAGE_ACTION_TOOL c
  | K_reach_llm _ => isTool REACH_HUMAN_TURN_TOOL c
  | K_neg_llm _ | K_extract => isTool NEGOTIATION_TURN_TOOL c
  | K_then_add _ _ _ => isAct c
  | K_generated _ | K_inact_generated | K_summary => isChat c
  | K_neg_research _ => match c with Research _ => true | _ => false end
  | K_inact_sent _ | K_override_sent _ | K_stall_sent _ => isSend c
  end.

Definition illFormed (t : Task) : bool :=
  match t with
  | Await c k => negb (callFits c k)
  | Rendezvous => false
  end.

Definition hasPending (a : Agent) : bool :=
  match pendingApproval a with Some _ => true | None => false end.

(** Before [start] has set [reaching_human]. *)
Definition early (extra : list Task) (a : Agent) : Prop :=
  (state a = connecting ∨ state a = paused ∨ state a = done)
  ∧ (pausedFromState a = None ∨ pausedFromState a = Some connecting)
  ∧ approvalResolve a = false
  ∧ waitingForLLM a = false
  ∧ countb isInactReach (extra ++ tasks a) = 0%nat.

(** The invariant, with the tasks [extra] counted as if still parked (the
    task being resumed has been taken out of [tasks]). *)
Record InvWith (extra : list Task) (a : Agent) : Prop := {
  inv_wf : countb illFormed (extra ++ tasks a) = 0%nat;
  inv_mutex :
    (countb inGuardedTurn (extra ++ tasks a) + countb isRendezvous (extra ++ tasks a)
     = b2n (waitingForLLM a))%nat;
  inv_rendezvous :
    countb isRendezvous (extra ++ tasks a) = b2n (approvalResolve a);
  inv_pending : hasPending a = approvalResolve a;
  inv_awaiting : state a = awaiting_approval → approvalResolve a = true;
  inv_resolver :
    approvalResolve a = true →
    state a = awaiting_approval
    ∨ (state a = paused ∧ pausedFromState a = Some awaiting_approval);
  inv_paused :
    state a = paused → pausedFromState a = Some awaiting_approval →
    approvalResolve a = true;
  inv_start :
    (countb isStartTask (extra ++ tasks a) + startWaits (timers a) ≤ 1)%nat
    ∧ ((countb isStartTask (extra ++ tasks a) + startWaits (timers a) = 1)%nat
       → early extra a)
}.

Definition Inv : Agent → Prop := InvWith [].

(** The heap of timers: handles are distinct and below the next handle, and
    every armed debounce, inactivity or typing timer is the one its field
    holds. *)
Definition heapOK (h : Heap Callback) : Prop :=
  NoDup (armed h).*1 ∧ ∀ id, id ∈ (armed h).*1 → (id < nextId h)%nat.

(** The field that holds the handle of a timer with callback [c], given
    the debounce, inactivity and typing fields. *)
Definition owner (c : Callback) (d i u : option nat) : option (option nat) :=
  match c with
  | CbDebounce _ => Some d
  | CbInactivity => Some i
  | CbUserTyping => Some u
  | _ => None
  end.

Definition isDebounceCb (c : Callback) : bool :=
  match c with CbDebounce _ => true | _ => false end.

(** [d], [i], [u] and [st] are the handles in the debounce, inactivity and
    typing fields and in the scheduler's timer field.  Every handle in a
    field is below the next handle; an armed debounce, inactivity or typing
    timer is the one its field holds; and the armed timer a field points to
    has the callback of that field. *)
Definition TI (h : Heap Callback) (d i u st : option nat) : Prop :=
  heapOK h
  ∧ (∀ id, d = Some id ∨ i = Some id ∨ u = Some id ∨ st = Some id →
           (id < nextId h)%nat)
  ∧ ∀ id tm, (id, tm) ∈ armed h →
      (∀ f, owner (cb tm) d i u = Some f → f = Some id)
      ∧ (d = Some id → isDebounceCb (cb tm) = true)
      ∧ (i = Some id → cb tm = CbInactivity)
      ∧ (u = Some id → cb tm = CbUserTyping)
      ∧ (st = Some id → cb tm = CbStall).

Definition TimersInv (a : Agent) : Prop :=
  TI (timers a) (debounceTimer a) (inactivityTimer a) (userTypingTimer a)
     (StallManager.timer (stallManager a)).

(** ** The approval request and the phase *)

(** What the code keeps of "a request exists iff the phase is
    [awaiting_approval]". *)
Definition approvalInvariant (a : Agent) : Prop :=
  (countb isRendezvous (tasks a) ≤ 1)%nat
  ∧ (is_Some (pendingApproval a) ↔ countb isRendezvous (tasks a) = 1%nat)
  ∧ (state a = awaiting_approval → is_Some (pendingApproval a))
  ∧ (is_Some (pendingApproval a) →
       state a = awaiting_approval
       ∨ (state a = paused ∧ pausedFromState a = Some awaiting_approval)).

(** Calls of the decision-making capability that have not returned. *)
Definition awaitsLLM (t : Task) : bool :=
  match t with
  | Await c _ => isLLM c
  | Rendezvous => false
  end.

Definition llmInFlight (a : Agent) : nat := countb awaitsLLM (tasks a).

(** The user pauses while the approval is pending. *)
Definition s_pausedApproval : Agent :=
  Eval vm_compute in after (toApproval ++ [E_pause]).

(** While the approval is pending the page changes and the debounce fires. *)
Definition toExtraction : list Event :=
  toApproval ++ [E_changed "snap3: We can also do 38 a month"; E_tick 2000; E_fire 8].

(** In [negotiating] the watchdog fires and asks for a follow-up message;
    before that call returns the page changes and a negotiation turn starts. *)
Definition toTwoCalls : list Event :=
  toNegotiating ++ [E_tick 15000; E_fire 4; E_done 0 (R_snapshot "page2") o0;
                    E_changed "snap2"; E_tick 2000; E_fire 5].

(** ** Stopping *)

(** The timers whose handle the agent keeps in a field of its own. *)
Definition tracked (c : Callback) : bool :=
  match c with
  | CbDebounce _ | CbInactivity | CbUserTyping => true
  | _ => false
  end.

(** The call of [summarize()] that [stop()] awaits. *)
Definition summaryTask (a : Agent) : list Task :=
  match conversation a with
  | [] => []
  | _ :: _ => [Await (LlmChat Summary) K_summary]
  end.

(** The timer the [finally] of the released turn arms. *)
Definition rearmed (a : Agent) : nat * Timer Callback :=
  (nextId (timers a), {| due := clock a + INACTIVITY_MS; cb := CbInactivity |}).

(** What [stop()] has done when it reaches its [await], [a] being the state
    before the call and [a'] the state after. *)
Record Stopped (a a' : Agent) : Prop := {
  st_phase : state a' = done ∧ pausedFromState a' = None;
  st_observer : observerRunning a' = false ∧ listening a' = false;
  st_typing : userTyping a' = false;
  st_request : pendingApproval a' = None ∧ approvalResolve a' = false;
  st_rendezvous : countb isRendezvous (tasks a') = 0%nat;
  st_tasks :
    tasks a' = default (tasks a) (takeRendezvous (tasks a)) ++ summaryTask a;
  st_guard :
    waitingForLLM a' = if approvalResolve a then false else waitingForLLM a;
  st_stall : stallManager a' = StallManager.create;
  st_timers :
    ∀ id tm, (id, tm) ∈ armed (timers a') ↔
      ((id, tm) ∈ armed (timers a) ∧ tracked (cb tm) = false
       ∧ StallManager.timer (stallManager a) ≠ Some id)
      ∨ (approvalResolve a = true ∧ (id, tm) = rearmed a);
  st_log : conversation a' = conversation a;
  st_returned :
    returned a' = returned a ++ match conversation a with [] => [None] | _ => [] end
}.

(** In [negotiating] the user sends a message of their own, and stops the
    session before the 3 s delay that follows the send is over. *)
Definition toStoppedOverride : list Event :=
  toNegotiating ++ [E_override "I can pay 30"; E_done 0 R_ok o0; E_stop].

Definition s_overridden : Agent :=
  Eval vm_compute in
    after (toNegotiating ++ [E_override "I can pay 30"; E_done 0 R_ok o0]).

Definition s_stoppedOverride : Agent := Eval vm_compute in after toStoppedOverride.

(** [stop()] after its [await]: the summary could not be generated, the
    [catch] logs and [stop()] returns [null]. *)
Definition summaryFailed (i : nat) (a : Agent) : Agent :=
  set_returned (returned a ++ [None]) (set_tasks (delete i (tasks a)) a).

(** ** Pausing and resuming *)

(** The timers [pause()] cancels: the turn dispatch and the watchdog. *)
Definition turnTimer (c : Callback) : bool :=
  match c with
  | CbDebounce _ | CbInactivity => true
  | _ => false
  end.









(** ** The pace of the stall messages *)

(** Where a log of sends and completions stands: [k] sends were made and
    the last one completed at [prev]; or the [k]-th send is in flight; or
    the log is off the pace. *)
Inductive Pace :=
  | Waiting (k : nat) (prev : option Z)
  | Sending (k : nat)
  | OffPace.

(** The first send comes 20 s after the start, a later one 45 s to 75 s
    after the completion of the send before it. *)
Definition onTime (t0 : Z) (prev : option Z) (t : Z) : bool :=
  match prev with
  | None => bool_decide (t = t0 + StallManager.FIRST_STALL_DELAY_MS)
  | Some tc =>
      bool_decide (tc + StallManager.MIN_STALL_INTERVAL_MS ≤ t
                   < tc + StallManager.MIN_STALL_INTERVAL_MS
                     + StallManager.MAX_STALL_JITTER_MS)
  end.

Definition pace1 (t0 : Z) (p : Pace) (o : StallManager.Obs) : Pace :=
  match p, o with
  | Waiting k prev, StallManager.Sent t m =>
      if onTime t0 prev t
         && bool_decide (m = nth (k mod 10) StallManager.STALL_MESSAGES "")
      then Sending (S k) else OffPace
  | Sending k, StallManager.Completed tc _ => Waiting k (Some tc)
  | _, _ => OffPace
  end.

Definition pace (t0 : Z) (l : list StallManager.Obs) : Pace :=
  fold_left (pace1 t0) l (Waiting 0 None).

(** The scheduler between [start()] and [stop()]. *)
Definition Running (t0 : Z) (w : StallManager.World) : Prop :=
  match pace t0 (StallManager.log w) with
  | Waiting k prev =>
      StallManager.inflight w = [] ∧ StallManager.count (StallManager.sm w) = k
      ∧ ∃ id t,
          StallManager.timer (StallManager.sm w) = Some id
          ∧ armed (StallManager.heap w) = [(id, {| due := t; cb := tt |})]
          ∧ StallManager.now w ≤ t ∧ onTime t0 prev t = true
  | Sending k =>
      length (StallManager.inflight w) = 1%nat
      ∧ StallManager.count (StallManager.sm w) = k ∧ k ≠ 0%nat
      ∧ is_Some (StallManager.timer (StallManager.sm w))
      ∧ armed (StallManager.heap w) = []
  | OffPace => False
  end.

(** The scheduler after [stop()]. *)
Definition Halted (t0 : Z) (w : StallManager.World) : Prop :=
  StallManager.sm w = StallManager.create
  ∧ armed (StallManager.heap w) = []
  ∧ match pace t0 (StallManager.log w) with
    | Waiting _ _ => StallManager.inflight w = []
    | Sending _ => length (StallManager.inflight w) = 1%nat
    | OffPace => False
    end.

(** The scheduler after one [start()]. *)
Definition Live (t0 : Z) (w : StallManager.World) : Prop :=
  Running t0 w ∨ Halted t0 w.

Definition noStart (evs : list StallManager.Ev) : bool :=
  forallb (λ e, negb (StallManager.isStart e)) evs.

Definition noStop (evs : list StallManager.Ev) : bool :=
  forallb (λ e, negb (StallManager.isStop e)) evs.

(** [start()] is called again while the first send is in flight, after a
    [stop()]; the send completes, and the scheduler is stopped for good. *)
Definition restarted : list StallManager.Ev :=
  [StallManager.Ev_start; StallManager.Ev_tick 20000; StallManager.Ev_fire 0;
   StallManager.Ev_stop; StallManager.Ev_start; StallManager.Ev_done 0 true 0;
   StallManager.Ev_stop].

(** A scheduler started at time 0 whose first send failed and whose second
    send is in flight. *)
Definition stallTrace : list StallManager.Ev :=
  [StallManager.Ev_tick 20000; StallManager.Ev_fire 0;
   StallManager.Ev_done 0 false 100; StallManager.Ev_tick 45100;
   StallManager.Ev_fire 1].

Definition w_second : StallManager.World :=
  Eval vm_compute in
    default (StallManager.fresh 0)
      (StallManager.run (StallManager.Ev_start :: stallTrace) (StallManager.fresh 0)).

(** The same scheduler, stopped during the second send, which then
    completes. *)
Definition w_stopped : StallManager.World :=
  Eval vm_compute in
    default (StallManager.fresh 0)
      (StallManager.run [StallManager.Ev_stop] w_second).

Definition w_after : StallManager.World :=
  Eval vm_compute in
    default (StallManager.fresh 0)
      (StallManager.run [StallManager.Ev_done 0 true 0; StallManager.Ev_tick 500000]
         w_stopped).

(** ** The timers of the turn loop *)

(** Two callbacks of the same field-held kind. *)
Definition sameTimer (c1 c2 : Callback) : bool :=
  match c1, c2 with
  | CbDebounce _, CbDebounce _ => true
  | CbInactivity, CbInactivity => true
  | CbUserTyping, CbUserTyping => true
  | _, _ => false
  end.

(** The debounce timer that a change of the page arms. *)
Definition debounceOf (snapshot : string) (a : Agent) : nat * Timer Callback :=
  (nextId (timers a), {| due := clock a + DEBOUNCE_MS; cb := CbDebounce snapshot |}).

(** The watchdog that a change of the page arms. *)
Definition watchdogOf (snapshot : string) (a : Agent) : nat * Timer Callback :=
  (S (nextId (timers a)),
   {| due := clock a + (if detectTypingIndicator snapshot
                        then TYPING_INACTIVITY_MS else INACTIVITY_MS);
      cb := CbInactivity |}).

(** A burst of changes of the page: each one comes [d] ms after the one
    before it, with [d = 0] for the same instant. *)
Fixpoint burst (l : list (Z * string)) : list Event :=
  match l with
  | [] => []
  | (d, s) :: r =>
      (if bool_decide (d = 0) then [E_changed s] else [E_tick d; E_changed s])
      ++ burst r
  end.

(** The typing delay that [handleUserTyping] arms. *)
Definition typingDelayOf (a : Agent) : nat * Timer Callback :=
  (nextId (timers a), {| due := clock a + USER_TYPING_DELAY_MS; cb := CbUserTyping |}).

(** Three changes of the page in [negotiating]: two at the same instant and
    one 1500 ms later. *)
Definition threeChanges : list Event :=
  E_changed "one" :: burst [(0, "two"); (1500, "three")].

Definition s_burst : Agent :=
  Eval vm_compute in default s_negotiating (run threeChanges s_negotiating).

(** ** The single-flight flag *)

(** A turn that holds the flag is in progress: it awaits a call, or it is
    suspended on the approval. *)
Definition holdsFlag (t : Task) : bool := inGuardedTurn t || isRendezvous t.

(** ** The feed of the UI *)

Definition statusOf (m : ServerMessage) : option NegotiationState :=
  match m with status_update st => Some st | _ => None end.

Definition chatOf (m : ServerMessage) : option (list ChatMessage) :=
  match m with chat_update l => Some l | _ => None end.

(** The phase and the log that the UI was last told. *)
Definition lastStatus (l : list ServerMessage) : option NegotiationState :=
  last (omap statusOf l).

Definition lastChat (l : list ServerMessage) : list ChatMessage :=
  default [] (last (omap chatOf l)).

Definition FeedOf (sink : list ServerMessage) (st : NegotiationState)
                  (conv : list ChatMessage) : Prop :=
  lastStatus sink = Some st ∧ lastChat sink = conv.

(** The UI knows the phase and the log of the agent. *)
Definition FeedInSync (a : Agent) : Prop := FeedOf (ui a) (state a) (conversation a).

(** The log [c1] extends the log [c0]. *)
Definition Extends (c0 c1 : list ChatMessage) : Prop := c0 `prefix_of` c1.

(** ** Decisions that arrive late *)

(** The decision of a reach-human or negotiation turn. *)
Definition isDecision (k : Kont) (r : Result) : bool :=
  match k, r with
  | K_reach_llm _, R_reach _ | K_neg_llm _, R_neg _ => true
  | _, _ => false
  end.

(** A reach-human turn waits for its decision. *)
Definition toReachTurn : list Event := [
  E_done 0 R_ok o0; E_tick 3000; E_fire 0;
  E_done 0 (R_snapshot "page") o0;
  E_done 0 (R_page (act "needs_user")) o0;
  E_changed "snap1"; E_tick 2000; E_fire 2 ].

Definition s_reachTurn : Agent := Eval vm_compute in after toReachTurn.

Definition bobIsHuman : ReachTurn :=
  {| rt_newMessages := [{| nm_sender := rep; nm_text := "Hi, this is Bob" |}];
     humanDetected := true; humanEvidence := "gave a name";
     rt_action := act "wait" |}.

(** The user pauses during the negotiation turn of [s_turn]. *)
Definition s_turnPaused : Agent := Eval vm_compute in after (toTurn ++ [E_pause]).

(** * The page observer ([chat-observer.ts]) *)

Module ChatObserver.

(** [x | 0]: the 32-bit two's-complement integer congruent to [x]. *)
Definition toInt32 (x : Z) : Z :=
  let m := x mod 2 ^ 32 in
  if m <? 2 ^ 31 then m else m - 2 ^ 32.

(** The body of the loop of [simpleHash]:
    [hash = ((hash << 5) - hash) + char; hash |= 0;].  The shift works on
    32-bit integers; the subtraction and the addition are exact, their
    operands being below 2^33 in size. *)
Definition hashStep (hash char : Z) : Z :=
  toInt32 (toInt32 (Z.shiftl (toInt32 hash) 5) - hash + char).

(** [simpleHash(str)] on the UTF-16 code units of [str]: the number whose
    decimal form is returned. *)
Definition simpleHash (str : list Z) : Z := fold_left hashStep str 0.

(** The observer: whether the interval is set, the hash of the last
    snapshot reported ([None] for the initial [""]), and the re-entrancy
    flag of [poll]. *)
Record t := {
  timer : bool;
  lastSnapshotHash : option Z;
  polling : bool
}.

Definition create : t :=
  {| timer := false; lastSnapshotHash := None; polling := false |}.

Inductive Emitted :=
  | snapshot_changed (snapshot : list Z)
  | error.

(** The observer with the calls of [mcp.snapshot()] that have not returned
    and the events it has emitted. *)
Record World := {
  obs : t;
  requests : nat;
  emitted : list Emitted
}.

(** [poll()] up to [await this.mcp.snapshot()]. *)
Definition poll (w : World) : World :=
  if polling (obs w) then w
  else {| obs := {| timer := timer (obs w);
                    lastSnapshotHash := lastSnapshotHash (obs w);
                    polling := true |};
          requests := S (requests w);
          emitted := emitted w |}.

(** [poll()] after the [await]: [r] is the snapshot, or [None] when the
    call threw. *)
Definition polled (r : option (list Z)) (w : World) : World :=
  let w1 :=
    match r with
    | Some snapshot =>
        let hash := simpleHash snapshot in
        if bool_decide (Some hash = lastSnapshotHash (obs w)) then w
        else {| obs := {| timer := timer (obs w);
                          lastSnapshotHash := Some hash;
                          polling := polling (obs w) |};
                requests := requests w;
                emitted := emitted w ++ [snapshot_changed snapshot] |}
    | None =>
        {| obs := obs w; requests := requests w;
           emitted := emitted w ++ [error] |}
    end in
  {| obs := {| timer := timer (obs w1);
               lastSnapshotHash := lastSnapshotHash (obs w1);
               polling := false |};
     requests := requests w1;
     emitted := emitted w1 |}.

Definition start (w : World) : World :=
  if timer (obs w) then w
  else let w1 := poll w in
       {| obs := {| timer := true;
                    lastSnapshotHash := lastSnapshotHash (obs w1);
                    polling := polling (obs w1) |};
          requests := requests w1;
          emitted := emitted w1 |}.

Definition stop (w : World) : World :=
  if timer (obs w)
  then {| obs := {| timer := false;
                    lastSnapshotHash := lastSnapshotHash (obs w);
                    polling := polling (obs w) |};
          requests := requests w;
          emitted := emitted w |}
  else w.

Inductive Ev :=
  | Ev_start
  | Ev_stop
  | Ev_interval                          (* the interval fires *)
  | Ev_snapshot (r : option (list Z)).   (* a call of [mcp.snapshot()] returns *)

Definition step (e : Ev) (w : World) : option World :=
  match e with
  | Ev_start => Some (start w)
  | Ev_stop => Some (stop w)
  | Ev_interval => if timer (obs w) then Some (poll w) else None
  | Ev_snapshot r =>
      match requests w with
      | O => None
      | S n =>
          Some (polled r {| obs := obs w; requests := n; emitted := emitted w |})
      end
  end.

Fixpoint run (evs : list Ev) (w : World) : option World :=
  match evs with
  | [] => Some w
  | e :: r =>
      match step e w with
      | Some w' => run r w'
      | None => None
      end
  end.

Definition fresh : World := {| obs := create; requests := 0; emitted := [] |}.

End ChatObserver.

(** The snapshots reported, in order. *)
Definition reported (l : list ChatObserver.Emitted) : list (list Z) :=
  omap (λ e, match e with
             | ChatObserver.snapshot_changed s => Some s
             | ChatObserver.error => None
             end) l.

(** The polynomial of which [simpleHash] is the 32-bit value. *)
Definition poly31 (str : list Z) : Z := fold_left (λ h c, 31 * h + c) str 0.

(** No two neighbours of the list have the same hash. *)
Fixpoint hashesAlternate (l : list (list Z)) : Prop :=
  match l with
  | s1 :: ((s2 :: _) as r) =>
      ChatObserver.simpleHash s1 ≠ ChatObserver.simpleHash s2 ∧ hashesAlternate r
  | _ => True
  end.

(** The observer has reported the snapshot "Aa". *)
Definition w_Aa : ChatObserver.World :=
  Eval vm_compute in
    default ChatObserver.fresh
      (ChatObserver.run [ChatObserver.Ev_start; ChatObserver.Ev_snapshot (Some [65; 97])]
         ChatObserver.fresh).

(** Neighbouring reports differ in their hash, and the observer remembers
    the hash of the last report. *)
Definition Reported (w : ChatObserver.World) : Prop :=
  hashesAlternate (reported (ChatObserver.emitted w))
  ∧ ChatObserver.lastSnapshotHash (ChatObserver.obs w)
    = ChatObserver.simpleHash <$> last (reported (ChatObserver.emitted w)).

(** * What the decision-making capability is shown *)

(** [l.slice(-n)] *)
Definition sliceLast {A} (n : nat) (l : list A) : list A :=
  drop (length l - n) l.

(** [formatConversation()] *)
Definition formatConversation (a : Agent) : string :=
  String.concat nl
    ((λ m, senderStr (sender m) +:+ ": " +:+ text m) <$> sliceLast 20 (conversation a)).

(** The user message of [reachHumanTurn], [negotiationTurn] and
    [extractMessagesOnly]. *)
Definition turnContent (snapshot : string) (a : Agent) : string :=
  let conversationText := formatConversation a in
  "CONVERSATION SO FAR:" +:+ nl
  +:+ (if String.eqb conversationText "" then "(none yet)" else conversationText)
  +:+ nl +:+ nl +:+ "CURRENT PAGE SNAPSHOT:" +:+ nl +:+ snapshot.

(** * Continuing a saved session ([index.ts]) *)

(** [m.sender === "system" && m.text.startsWith("__SUMMARY__\n")] *)
Definition isSummary (m : ChatMessage) : bool :=
  bool_decide (sender m = system) && String.prefix ("__SUMMARY__" +:+ nl) (text m).

(** The messages of the saved session that [continue_session] hands to the
    new agent. *)
Definition priorMessages (messages : list ChatMessage) : list ChatMessage :=
  filter (λ m, isSummary m = false) messages.

(** Twenty-one log entries. *)
Definition longLog : list ChatMessage :=
  (λ n, {| sender := rep; text := "line"; timestamp := Z.of_nat n |}) <$> List.seq 0%nat 21%nat.

(** * Typing into the chat ([sendChatMessage], [findChatInput]) *)

(** [s.split("\n")] *)
Fixpoint splitLines (s : string) : list string :=
  match s with
  | EmptyString => [EmptyString]
  | String c r =>
      if Ascii.eqb c "010" then EmptyString :: splitLines r
      else match splitLines r with
           | l :: ls => String c l :: ls
           | [] => [String c EmptyString]
           end
  end.

(** The class [[\w-]]. *)
Definition isWordOrDash (c : ascii) : bool :=
  let n := nat_of_ascii c in
  ((48 <=? n)%nat && (n <=? 57)%nat) || ((65 <=? n)%nat && (n <=? 90)%nat)
  || ((97 <=? n)%nat && (n <=? 122)%nat) || (n =? 95)%nat || (n =? 45)%nat.

(** The longest run of [[\w-]] characters at the head of [s], and the rest. *)
Fixpoint spanWord (s : string) : string * string :=
  match s with
  | EmptyString => (EmptyString, EmptyString)
  | String c r =>
      if isWordOrDash c
      then let p := spanWord r in (String c p.1, p.2)
      else (EmptyString, s)
  end.

(** [s] without its prefix [p], if it has it. *)
Fixpoint stripPrefix (p s : string) : option string :=
  match p, s with
  | EmptyString, _ => Some s
  | String a p', String b s' => if Ascii.eqb a b then stripPrefix p' s' else None
  | String _ _, EmptyString => None
  end.

(** A match of [/\[ref=([\w-]+)\]/] at the head of [line]: its group.  The
    greedy run either ends before a [[]]] or no shorter run does. *)
Definition matchRefHere (line : string) : option string :=
  match stripPrefix "[ref=" line with
  | Some rest =>
      match spanWord rest with
      | (String c w, String "]" _) => Some (String c w)
      | _ => None
      end
  | None => None
  end.

(** [line.match(/\[ref=([\w-]+)\]/)]: the group of the leftmost match. *)
Fixpoint matchRef (line : string) : option string :=
  match matchRefHere line with
  | Some r => Some r
  | None =>
      match line with
      | EmptyString => None
      | String _ r => matchRef r
      end
  end.

(** The test of the first loop of [findChatInput]. *)
Definition isChatInputLine (line : string) : bool :=
  let lower := toLowerCase line in
  (includes lower "textbox" || includes lower "text input"
   || includes lower "type a message" || includes lower "type your message"
   || includes lower "write a reply")
  && negb (includes lower "search").

(** The test of the second loop. *)
Definition isFallbackLine (line : string) : bool :=
  includes (toLowerCase line) "contenteditable"
  || includes (toLowerCase line) "textarea".

(** One loop: the first line that passes the test and holds a ref. *)
Fixpoint firstRef (test : string → bool) (lines : list string) : option string :=
  match lines with
  | [] => None
  | line :: rest =>
      match (if test line then matchRef line else None) with
      | Some r => Some r
      | None => firstRef test rest
      end
  end.

Definition findChatInput (snapshot : string) : option string :=
  let lines := splitLines snapshot in
  match firstRef isChatInputLine lines with
  | Some r => Some r
  | None => firstRef isFallbackLine lines
  end.

(** The calls of the browser made by [sendChatMessage]. *)
Inductive McpCall :=
  | C_snapshot
  | C_click (r : string)
  | C_type (r txt : string)
  | C_pressKey (k : string).

(** Calls made one after the other until one throws; [fails c] is the
    error that [c] throws, if it throws. *)
Fixpoint callAll (calls : list McpCall) (fails : McpCall → option string)
  : list McpCall * Result :=
  match calls with
  | [] => ([], R_ok)
  | c :: rest =>
      match fails c with
      | Some err => ([c], R_err err)
      | None => let p := callAll rest fails in (c :: p.1, p.2)
      end
  end.

(** [sendChatMessage(text)]: the calls it makes and how it ends.
    [snapshot] is what [mcp.snapshot()] returns ([inl]) or throws ([inr]). *)
Definition sendChatMessage (txt : string) (snapshot : string + string)
    (fails : McpCall → option string) : list McpCall * Result :=
  match snapshot with
  | inr err => ([C_snapshot], R_err err)
  | inl s =>
      let p :=
        match findChatInput s with
        | Some inputRef =>
            callAll [C_click inputRef; C_type inputRef txt; C_pressKey "Enter"] fails
        | None => ([], R_ok)
        end in
      (C_snapshot :: p.1, p.2)
  end.

(** Every character of [s] is in [[\w-]]. *)
Fixpoint allWordOrDash (s : string) : bool :=
  match s with
  | EmptyString => true
  | String c r => isWordOrDash c && allWordOrDash r
  end.

(** A page with a search box and a message box. *)
Definition chatPage : string :=
  "- textbox Search [ref=e3]" +:+ nl +:+ "- textbox Type a message [ref=e17]".

(** ** A continued session *)

(** The page action that types [txt] into the element [r]. *)
Definition typeInto (r txt : string) : ActionArgs :=
  {| action := "type"; response := None; ref := Some r; typed := Some txt;
     reason := None |}.

(** [continue_session] up to the decision of [kickoff]. *)
Definition toKickoffDecision (snapshot : string) (act : ActionArgs) (o : Oracle)
  : list Event :=
  [E_done 0 R_ok o; E_tick PAGE_LOAD_MS; E_fire 0;
   E_done 0 (R_snapshot snapshot) o; E_done 0 (R_page act) o].

(** The request that the UI was last asked to decide. *)
Definition approvalOf (m : ServerMessage) : option ApprovalRequest :=
  match m with approval_required req => Some req | _ => None end.

Definition lastApproval (l : list ServerMessage) : option ApprovalRequest :=
  last (omap approvalOf l).

(** A pending request is the one the UI was last asked to decide. *)
Definition AnnouncedTo (sink : list ServerMessage) (p : option ApprovalRequest) : Prop :=
  ∀ req, p = Some req → lastApproval sink = Some req.

Definition Announced (a : Agent) : Prop := AnnouncedTo (ui a) (pendingApproval a).

(** ** Pausing while the watchdog's handler is under way *)

(** The watchdog has fired in [reaching_human], and in [negotiating], and
    its handler waits for the snapshot it asked for. *)
Definition toInactiveReach : list Event := [
  E_done 0 R_ok o0; E_tick 3000; E_fire 0;
  E_done 0 (R_snapshot "page") o0;
  E_done 0 (R_page (act "needs_user")) o0;
  E_tick 15000; E_fire 1 ].

Definition toInactive : list Event := toNegotiating ++ [E_tick 15000; E_fire 4].

Definition s_inactiveReach : Agent := Eval vm_compute in after toInactiveReach.

Definition s_inactive : Agent := Eval vm_compute in after toInactive.

(** * Properties *)

(** ** Message deduplication *)

Lemma key_inj s1 t1 s2 t2 : key s1 t1 = key s2 t2 → s1 = s2 ∧ t1 = t2.
Proof.
  unfold key. destruct s1, s2; intros H; by simplify_eq/=.
Qed.

(** The set of keys decides exactly the (sender, text) pairs of the log. *)
Lemma known_pair (conv : list ChatMessage) s t :
  key s t ∈ (list_to_set ((λ m, key (sender m) (text m)) <$> conv) : gset string)
  ↔ (s, t) ∈ pairOf <$> conv.
Proof.
  rewrite elem_of_list_to_set, !list_elem_of_fmap. split.
  - intros (m & Hk & Hm). apply key_inj in Hk as [-> ->]. by exists m.
  - intros (m & Hp & Hm). unfold pairOf in Hp. injection Hp as -> ->. by exists m.
Qed.

Lemma deduplicateMessages_pairs newMsgs a :
  deduplicateMessages newMsgs a
  = filter (λ m, (nm_sender m, nm_text m) ∉ pairOf <$> conversation a) newMsgs.
Proof.
  unfold deduplicateMessages. apply list_filter_iff. intros m.
  by rewrite known_pair.
Qed.

Lemma addFrom_conversation baseTs msgs : ∀ j a,
  conversation (addFrom baseTs j msgs a)
  = conversation a ++ imap (λ i, stamped baseTs (j + i)) msgs.
Proof.
  induction msgs as [|m rest IH]; intros j a; simpl.
  - by rewrite app_nil_r.
  - unfold seq. rewrite IH. simpl. rewrite <- app_assoc. simpl.
    unfold stamped at 2. rewrite Nat.add_0_r. do 2 f_equal.
    apply imap_ext. intros i x _. simpl. f_equal. lia.
Qed.


(** ** Approval commands naming another request *)

(** C10.  [handleApproval] and [handleRejection] with a request id that is
    not the id of the pending request (or with no request pending) change
    nothing: the agent, and with it the phase, the pending request, the
    parked rendezvous and the log, is the same afterwards. *)
Theorem approval_id_mismatch_noop (a : Agent) (requestId : string)
    (directive : option string) :
  (∀ p, pendingApproval a = Some p → req_id p ≠ requestId) →
  handleApproval requestId a = a
  ∧ handleRejection requestId directive a = a
  ∧ step (E_approve requestId) a = Some a
  ∧ step (E_reject requestId directive) a = Some a.
Proof.
  intros Hne.
  assert (Hp : pendingIs requestId a = false).
  { unfold pendingIs. destruct (pendingApproval a) as [p|]; [|done].
    apply bool_decide_eq_false. by apply Hne. }
  unfold step, handleApproval, handleRejection. by rewrite Hp.
Qed.

Lemma approval_id_mismatch_noop_witness :
  pendingApproval s_approval ≠ None
  ∧ handleApproval "req-0" s_approval = s_approval
  ∧ handleRejection "req-0" (Some "ask for 30") s_approval = s_approval
  ∧ step (E_approve "req-0") s_approval = Some s_approval
  ∧ step (E_reject "req-0" (Some "ask for 30")) s_approval = Some s_approval.
Proof.
  split; [discriminate|].
  apply (approval_id_mismatch_noop s_approval "req-0" (Some "ask for 30")).
  intros p Hp. injection Hp as <-. discriminate.
Defined.

(** ** Commitment detection *)

Lemma addFrom_frame baseTs msgs : ∀ j a,
  let a' := addFrom baseTs j msgs a in
  state a' = state a ∧ clock a' = clock a ∧ timers a' = timers a
  ∧ stallManager a' = stallManager a ∧ tasks a' = tasks a
  ∧ pendingApproval a' = pendingApproval a ∧ config a' = config a.
Proof.
  induction msgs as [|m rest IH]; intros j a; [done|].
  cbn [addFrom]. unfold seq. cbv zeta in *.
  destruct (IH (S j) (addMessage (stamped baseTs j m) a))
    as (E1 & E2 & E3 & E4 & E5 & E6 & E7). unfold stamped in *.
  rewrite E1, E2, E3, E4, E5, E6, E7. done.
Qed.

Lemma handleCommitmentPoint_announces turn id a :
  commitmentAnnounced turn (clock a) (handleCommitmentPoint turn id a).
Proof.
  unfold commitmentAnnounced, handleCommitmentPoint. cbn. split; [done|]. split.
  - eexists. split; [reflexivity|]. split; [|done]. set_solver.
  - eexists. split; [reflexivity|]. split; [done|]. set_solver.
Qed.

(** C2, as stated, fails: a negotiating-phase decision that reports a
    commitment but contributes no message that is new to the log is dropped
    ("No new messages after dedup — skipping response"): the phase stays
    [negotiating], no request is published, the scheduler is not started. *)
Lemma commitment_without_new_message :
  state s_turn = negotiating
  ∧ isCommitment offer_stale = true
  ∧ ∃ a', step (E_done 0 (R_neg offer_stale) o0) s_turn = Some a'
          ∧ state a' = negotiating
          ∧ pendingApproval a' = None
          ∧ (∀ req, approval_required req ∉ ui a')
          ∧ StallManager.timer (stallManager a') = None
          ∧ ¬ commitmentAnnounced offer_stale (clock s_turn) a'.
Proof.
  split; [reflexivity|]. split; [reflexivity|].
  eexists. split; [vm_compute; reflexivity|].
  split; [reflexivity|]. split; [reflexivity|]. split; [|split; [reflexivity|]].
  - intros req Hin.
    repeat (apply elem_of_cons in Hin as [Hin|Hin]; [discriminate Hin|]).
    by apply elem_of_nil in Hin.
  - intros [H _]. discriminate H.
Qed.

(** C2, amended.  A decision that reports a commitment, arrives while the
    agent is neither paused nor typing-suppressed, and contributes at least
    one message new to the log, makes the Core enter [awaiting_approval],
    publish an approval-required event whose recommendation is the
    decision's (["reject"] when omitted) and that carries its
    counter-suggestion, and start the Stall Scheduler (first send armed 20 s
    ahead): at once when the new messages hold no research trigger, and
    otherwise as soon as the research call it waits for has returned. *)
Theorem commitment_announced (a : Agent) (turn : NegTurn) (o : Oracle) :
  state a ≠ paused →
  userTyping a = false →
  isCommitment turn = true →
  deduplicateMessages (newMessages turn) a ≠ [] →
  let a' := negotiationDecided turn o a in
  (researchTriggered turn a = false → commitmentAnnounced turn (clock a) a')
  ∧ (researchTriggered turn a = true →
       (∃ q, last (tasks a') = Some (Await (Research q) (K_neg_research turn)))
       ∧ ∀ f o' b, commitmentAnnounced turn (clock b)
                     (resume_k (K_neg_research turn) (R_findings f) o' b)).
Proof.
  intros Hp Ht Hc Hd a'. subst a'. unfold negotiationDecided, researchTriggered.
  rewrite bool_decide_eq_false_2 by done. rewrite Ht. simpl.
  destruct (deduplicateMessages (newMessages turn) a) as [|m ms] eqn:Hdd; [done|].
  set (lr := last (filter (λ m0, nm_sender m0 = rep) (m :: ms))).
  set (a1 := addFrom (clock a) 0 (m :: ms) a).
  destruct (addFrom_frame (clock a) (m :: ms) 0%nat a) as (_ & Hclk & _).
  fold a1 in Hclk. simpl in Hclk.
  split; intros Htr; rewrite Htr.
  - unfold afterResearch. rewrite Hc. rewrite <- Hclk.
    apply handleCommitmentPoint_announces.
  - split.
    + eexists. unfold seq, spawn, sendToUI. cbn. rewrite last_snoc. reflexivity.
    + intros f o' b. cbn. unfold seq, afterResearch. rewrite Hc.
      destruct (truthy f).
      * apply (handleCommitmentPoint_announces turn (uuid o')
                 (sendToUI (research_result (serviceProvider (config b)) (orElse f "")) b)).
      * apply handleCommitmentPoint_announces.
Qed.

Lemma commitment_announced_witness :
  commitmentAnnounced offer (clock s_turn) s_approval.
Proof.
  assert (H := commitment_announced
                 (set_tasks (delete 0%nat (tasks s_turn)) s_turn) offer o0).
  destruct H as [H _]; [discriminate|reflexivity|reflexivity|discriminate|].
  apply H. reflexivity.
Defined.

(** ** Counting parked tasks and armed timers *)

Lemma countb_app {A} (p : A → bool) (l1 l2 : list A) :
  countb p (l1 ++ l2) = (countb p l1 + countb p l2)%nat.
Proof. induction l1 as [|x l1 IH]; simpl; [done|]. rewrite IH. lia. Qed.

Lemma countb_delete {A} (p : A → bool) (l : list A) (i : nat) (x : A) :
  l !! i = Some x → countb p l = (b2n (p x) + countb p (delete i l))%nat.
Proof.
  revert i. induction l as [|y l IH]; intros [|i] H; simplify_eq/=; [done|].
  rewrite (IH i H). unfold b2n. destruct (p x), (p y); lia.
Qed.

Lemma countb_filter_le {A} (p : A → bool) (P : A → Prop) `{∀ x, Decision (P x)}
    (l : list A) :
  (countb p (filter P l) ≤ countb p l)%nat.
Proof.
  induction l as [|x l IH]; simpl; [done|].
  rewrite filter_cons. destruct (decide (P x)); simpl; destruct (p x); lia.
Qed.

Lemma countb_zero {A} (p : A → bool) (l : list A) :
  countb p l = 0%nat → ∀ x, x ∈ l → p x = false.
Proof.
  induction l as [|y l IH]; simpl; intros H x Hx.
  - by apply elem_of_nil in Hx.
  - apply elem_of_cons in Hx as [->|Hx].
    + destruct (p y); [lia|done].
    + apply IH; [|done]. destruct (p y); lia.
Qed.

Lemma takeRendezvous_Some (l r : list Task) (p : Task → bool) :
  takeRendezvous l = Some r →
  countb p l = (b2n (p Rendezvous) + countb p r)%nat.
Proof.
  revert r. induction l as [|t l IH]; intros r H; simpl in H; [done|].
  destruct (takeRendezvous l) as [r'|] eqn:E.
  - injection H as <-. simpl. rewrite (IH r' eq_refl). lia.
  - destruct t; simpl in H; [done|]. injection H as <-. simpl.
    unfold b2n. destruct (p Rendezvous); lia.
Qed.

Lemma takeRendezvous_None (l : list Task) :
  takeRendezvous l = None → countb isRendezvous l = 0%nat.
Proof.
  induction l as [|t l IH]; simpl; [done|].
  destruct (takeRendezvous l); [done|]. destruct t; simpl; [auto|done].
Qed.

Lemma startWaits_clearTimeout id (h : Heap Callback) :
  (startWaits (clearTimeout id h) ≤ startWaits h)%nat.
Proof. apply countb_filter_le. Qed.

Lemma startWaits_clearField f (h : Heap Callback) :
  (startWaits (clearField f h) ≤ startWaits h)%nat.
Proof. destruct f; simpl; [apply countb_filter_le|done]. Qed.

Lemma startWaits_setTimeout now c d (h : Heap Callback) :
  startWaits (setTimeout now c d h).2 = (startWaits h + b2n (isStartWaitCb c))%nat.
Proof.
  unfold startWaits, setTimeout. simpl. rewrite countb_app. simpl.
  unfold isStartWait, b2n. simpl. destruct (isStartWaitCb c); lia.
Qed.

Lemma startWaits_snoc (l : list (nat * Timer Callback)) id t c n :
  startWaits {| armed := l ++ [(id, {| due := t; cb := c |})]; nextId := n |}
  = (countb isStartWait l + b2n (isStartWaitCb c))%nat.
Proof.
  unfold startWaits. simpl. rewrite countb_app. simpl.
  unfold isStartWait, b2n. simpl. destruct (isStartWaitCb c); lia.
Qed.

Lemma startWaits_armed (h : Heap Callback) : countb isStartWait (armed h) = startWaits h.
Proof. done. Qed.

Lemma startWaits_fire_end now rnd (s : StallManager.t * Heap Callback) :
  startWaits (StallManager.fire_end CbStall now rnd s).2 = startWaits s.2.
Proof.
  unfold StallManager.fire_end, StallManager.schedule.
  destruct (StallManager.timer s.1); [|done]. cbv zeta. cbn [snd].
  rewrite startWaits_setTimeout. simpl. lia.
Qed.
(** ** The approval invariant is preserved by every step *)

Arguments setTimeout : simpl never.
Arguments clearTimeout : simpl never.
Arguments clearField : simpl never.
Arguments startWaits : simpl never.

Ltac pose_waits :=
  repeat match goal with
  | |- context [clearField ?f ?h] =>
      lazymatch goal with
      | _ : (startWaits (clearField f h) ≤ startWaits h)%nat |- _ => fail
      | _ => pose proof (startWaits_clearField f h)
      end
  | |- context [clearTimeout ?f ?h] =>
      lazymatch goal with
      | _ : (startWaits (clearTimeout f h) ≤ startWaits h)%nat |- _ => fail
      | _ => pose proof (startWaits_clearTimeout f h)
      end
  | |- context [setTimeout ?n ?c ?d ?h] =>
      lazymatch goal with
      | _ : startWaits (setTimeout n c d h).2 = _ |- _ => fail
      | _ => pose proof (startWaits_setTimeout n c d h)
      end
  | |- context [StallManager.fire_end CbStall ?n ?r ?s] =>
      lazymatch goal with
      | _ : startWaits (StallManager.fire_end CbStall n r s).2 = _ |- _ => fail
      | _ => pose proof (startWaits_fire_end n r s)
      end
  end;
  cbn [b2n isStartWaitCb fst snd] in *.

Ltac inv_open H :=
  destruct H as [Hwf Hm Hr Hp Haa Hres Hpa [Hs1 Hs2]];
  unfold early, hasPending in *; cbn in Hwf, Hm, Hr, Hp, Haa, Hres, Hpa, Hs1, Hs2;
  unfold b2n in *;
  repeat match goal with
  | H : context [if ?b then _ else _] |- _ => destruct b eqn:?; try discriminate
  | H : context [match ?o with Some _ => _ | None => _ end] |- _ =>
      destruct o eqn:?; try discriminate
  end.

Ltac atomic_cond b :=
  lazymatch b with
  | context [if _ then _ else _] => fail
  | context [match _ with Some _ => _ | None => _ end] => fail
  | _ => idtac
  end.

Ltac split_one :=
  first
    [ case_bool_decide
    | match goal with
      | |- context [if ?b then _ else _] => atomic_cond b; destruct b eqn:?
      | |- context [match ?o with Some _ => _ | None => _ end] =>
          atomic_cond o; destruct o eqn:?
      end ].

Ltac inv_norm :=
  cbn; rewrite ?countb_app, ?startWaits_snoc, ?startWaits_armed; cbn.

Ltac use_hyps :=
  repeat match goal with
  | H : ?x = ?x → _ |- _ => specialize (H eq_refl)
  | H : true = false → _ |- _ => clear H
  | H : false = true → _ |- _ => clear H
  | H : ?A → _, H' : ?A |- _ => specialize (H H')
  | H : (?n = 1)%nat → _ |- _ =>
      let X := fresh in
      first [ assert (X : n = 1%nat) by lia; specialize (H X)
            | assert (X : n ≠ 1%nat) by lia; clear H X ]
  | H : _ ∧ _ |- _ => destruct H
  | H : _ ∨ _ |- _ => destruct H
  | H : Some _ = Some _ |- _ => injection H as H
  end.

Ltac inv_leaf :=
  intros; try done; try lia; try congruence;
  use_hyps; subst; try done; try lia; try congruence;
  try solve [intuition (first [congruence | lia | done])].

Ltac inv_close :=
  try lia; try congruence; repeat split; inv_leaf.

Ltac inv_goal :=
  constructor; unfold early, hasPending, b2n;
  repeat (inv_norm; split_one); inv_norm;
  pose_waits; inv_close.

Lemma Inv_pause a : Inv a → Inv (pause a).
Proof.
  intros H. unfold pause.
  destruct (bool_decide (state a = paused) || bool_decide (state a = idle)
            || bool_decide (state a = done)) eqn:E; [done|].
  apply orb_false_elim in E as [E E3]. apply orb_false_elim in E as [E1 E2].
  apply bool_decide_eq_false in E1, E2, E3.
  inv_open H; unfold seq; inv_goal.
Qed.

Ltac take_rdv :=
  match goal with
  | |- context [takeRendezvous ?l] =>
      let E := fresh "E" in
      destruct (takeRendezvous l) eqn:E;
      [ pose proof (takeRendezvous_Some _ _ inGuardedTurn E);
        pose proof (takeRendezvous_Some _ _ isRendezvous E);
        pose proof (takeRendezvous_Some _ _ isStartTask E);
        pose proof (takeRendezvous_Some _ _ isInactReach E);
        pose proof (takeRendezvous_Some _ _ illFormed E)
      | pose proof (takeRendezvous_None _ E) ]
  end.

Ltac inv_goal' :=
  cbn in *; rewrite ?countb_app in *; cbn in *; inv_goal.

Lemma Inv_resume a : Inv a → Inv (resume a).
Proof.
  intros H. unfold resume. destruct (pausedFromState a) eqn:E; [|done].
  case_bool_decide; [|done]. inv_open H; unfold seq; inv_goal.
Qed.

Lemma Inv_resolveApproval approved a :
  Inv a → Inv (resolveApproval approved a).
Proof.
  intros H. unfold resolveApproval, commitmentResumed, seq.
  take_rdv; [|done]. unfold finally, seq. inv_open H; inv_goal'.
Qed.

Lemma Inv_stop a : Inv a → Inv (stop a).
Proof.
  intros H. unfold stop, stop_body, resolveApproval, commitmentResumed, seq.
  destruct (approvalResolve a) eqn:Er; destruct (conversation a) eqn:Ec;
    cbn -[takeRendezvous]; try rewrite Er; cbn -[takeRendezvous];
    try take_rdv; inv_open H; unfold skip, finally, seq; inv_goal'.
Qed.

Lemma Inv_handleApproval requestId a : Inv a → Inv (handleApproval requestId a).
Proof.
  intros H. unfold handleApproval.
  destruct (pendingIs requestId a && approvalResolve a); [|done].
  unfold seq. apply Inv_resolveApproval.
  inv_open H; inv_goal.
Qed.

Lemma Inv_handleRejection requestId directive a :
  Inv a → Inv (handleRejection requestId directive a).
Proof.
  intros H. unfold handleRejection.
  destruct (pendingIs requestId a && approvalResolve a); [|done].
  unfold seq. apply Inv_resolveApproval.
  inv_open H; inv_goal.
Qed.

Lemma Inv_handleUserDirective txt a : Inv a → Inv (handleUserDirective txt a).
Proof. intros H. inv_open H; unfold handleUserDirective, seq; inv_goal. Qed.

Lemma Inv_handleUserTyping a : Inv a → Inv (handleUserTyping a).
Proof. intros H. inv_open H; unfold handleUserTyping, seq; inv_goal. Qed.

Lemma Inv_handleUserOverride txt a : Inv a → Inv (handleUserOverride txt a).
Proof. intros H. inv_open H; unfold handleUserOverride, seq; inv_goal. Qed.

Lemma Inv_handleSnapshotChanged snapshot a :
  Inv a → Inv (handleSnapshotChanged snapshot a).
Proof.
  intros H. unfold handleSnapshotChanged.
  destruct (bool_decide (state a = paused) || bool_decide (state a = idle)
            || bool_decide (state a = done)); [done|].
  destruct (userTyping a); [done|].
  inv_open H; destruct (detectTypingIndicator snapshot); inv_goal.
Qed.

Lemma Inv_tick d a : Inv a → Inv (set_clock (clock a + d) a).
Proof. intros H. inv_open H; inv_goal. Qed.

Lemma findTimer_elem {C} id (h : Heap C) tm :
  findTimer id h = Some tm → (id, tm) ∈ armed h.
Proof.
  unfold findTimer. intros H.
  destruct (list_find (λ e, e.1 = id) (armed h)) as [[i [id' tm']]|] eqn:E;
    simplify_eq/=.
  apply list_find_Some in E as (Hl & Hid & _). simpl in Hid. subst.
  by apply list_elem_of_lookup_2 in Hl.
Qed.

Lemma startWaits_fired id (h : Heap Callback) tm :
  findTimer id h = Some tm →
  (startWaits (clearTimeout id h) + b2n (isStartWaitCb (cb tm)) ≤ startWaits h)%nat.
Proof.
  intros H. apply findTimer_elem in H. unfold startWaits, clearTimeout. simpl.
  induction (armed h) as [|e l IH]; [by apply elem_of_nil in H|].
  rewrite filter_cons. apply elem_of_cons in H as [<-|H].
  - simpl. rewrite decide_False by (intros X; by apply X).
    pose proof (countb_filter_le isStartWait (λ e : nat * Timer Callback, e.1 ≠ id) l).
    unfold isStartWait at 2. simpl. unfold b2n. destruct (isStartWaitCb (cb tm)); lia.
  - specialize (IH H). destruct (decide (e.1 ≠ id)); simpl; destruct (isStartWait e); lia.
Qed.

(** An operation that leaves the tasks, the flag, the resolver, the pending
    request, the phase and the remembered phase alone, and arms no page-load
    wait, preserves the invariant. *)
Lemma InvWith_frame extra a a' :
  tasks a' = tasks a → waitingForLLM a' = waitingForLLM a →
  approvalResolve a' = approvalResolve a → hasPending a' = hasPending a →
  state a' = state a → pausedFromState a' = pausedFromState a →
  (startWaits (timers a') ≤ startWaits (timers a))%nat →
  InvWith extra a → InvWith extra a'.
Proof.
  intros Et Ef Er Ep Es Epf Hw [Hwf Hm Hr Hp Haa Hres Hpa [Hs1 Hs2]].
  constructor; unfold early in *; rewrite ?Et, ?Ef, ?Er, ?Ep, ?Es, ?Epf; try done.
  split; [lia|]. intros Hn. apply Hs2. lia.
Qed.

Ltac frame :=
  apply InvWith_frame; cbn; try reflexivity; pose_waits; try lia.

Lemma Inv_unarm id a : Inv a → Inv (set_timers (clearTimeout id (timers a)) a).
Proof. frame. Qed.

Lemma Inv_reachHumanTurn snapshot a :
  Inv a → state a = reaching_human → Inv (reachHumanTurn snapshot a).
Proof.
  intros H Hc. unfold reachHumanTurn. destruct (waitingForLLM a) eqn:Ef; [done|].
  inv_open H; unfold seq; inv_goal.
Qed.

Lemma Inv_processTurn snapshot a : Inv a → Inv (processTurn snapshot a).
Proof.
  intros H. unfold processTurn. case_bool_decide; [done|].
  destruct (userTyping a); [done|].
  destruct (state a) eqn:Es; try done.
  - by apply Inv_reachHumanTurn.
  - unfold negotiationTurn. destruct (waitingForLLM a) eqn:Ef; [done|].
    inv_open H; unfold seq; inv_goal.
  - unfold extractMessagesOnly. destruct (waitingForLLM a) eqn:Ef; [done|].
    inv_open H; unfold seq; inv_goal.
Qed.

Lemma Inv_handleInactivity a : Inv a → Inv (handleInactivity a).
Proof.
  intros H. unfold handleInactivity. case_bool_decide; [done|].
  destruct (userTyping a); [done|]. destruct (waitingForLLM a) eqn:Ef; [done|].
  case_bool_decide; [inv_open H; inv_goal|].
  case_bool_decide; [done|].
  inv_open H; unfold seq; inv_goal.
Qed.

Lemma Inv_fire id tm a :
  findTimer id (timers a) = Some tm →
  Inv a → Inv (fire (cb tm) (set_timers (clearTimeout id (timers a)) a)).
Proof.
  intros Hf H. pose proof (startWaits_fired _ _ _ Hf) as Hw.
  destruct (cb tm) eqn:Ecb; cbn [fire b2n isStartWaitCb] in *.
  - by apply Inv_processTurn, Inv_unarm.
  - by apply Inv_handleInactivity, Inv_unarm.
  - apply (Inv_unarm id) in H. inv_open H; unfold seq; inv_goal.
  - apply (Inv_unarm id) in H. inv_open H; unfold seq; inv_goal.
  - unfold kickoff, startResolved, startPaused, skip.
    inv_open H; unfold seq; inv_goal.
  - apply (Inv_unarm id) in H. inv_open H; unfold seq; inv_goal.
Qed.

(** [addFrom] touches the log and the UI sink only. *)
Lemma addFrom_shape baseTs msgs : ∀ j a,
  ∃ conv sink, addFrom baseTs j msgs a = set_ui sink (set_conversation conv a).
Proof.
  induction msgs as [|m rest IH]; intros j a.
  - exists (conversation a), (ui a). by destruct a.
  - cbn [addFrom]. unfold seq.
    destruct (IH (S j) (addMessage (stamped baseTs j m) a)) as (conv & sink & E).
    unfold stamped in E. rewrite E. by eexists _, _.
Qed.

Ltac frame_append :=
  unfold appendDeduped;
  repeat match goal with
  | |- context [addFrom ?b ?j ?l ?a] =>
      let V := fresh "conv" in
      let U := fresh "sink" in
      let E := fresh "E" in
      destruct (addFrom_shape b l j a) as (V & U & E); rewrite !E; clear E
  end.

(** *** Inside a turn that holds the flag *)

Lemma InvWith_held call k a :
  InvWith [Await call k] a → inGuardedTurn (Await call k) = true →
  InvWith [Await Snapshot (K_neg_fresh true)] a.
Proof.
  intros [Hwf Hm Hr Hp Haa Hres Hpa [Hs1 Hs2]] Hg.
  destruct k; try discriminate Hg;
    (constructor; unfold early in *; cbn in *; try done;
     match type of Hwf with
     | context [if ?b then _ else _] => destruct b; lia
     end).
Qed.

Abbreviation Held := (InvWith [Await Snapshot (K_neg_fresh true)]).

Lemma Held_finally ctx a : Held a → Inv (finally ctx a).
Proof.
  intros H. unfold finally, startResolved, startPaused, skip.
  destruct ctx as [[|]| |]; inv_open H; unfold seq; inv_goal.
Qed.

Lemma Held_reset ms a : Held a → Held (resetInactivityTimer ms a).
Proof. frame. Qed.

Lemma Held_sendToUI m a : Held a → Held (sendToUI m a).
Proof. frame. Qed.

Lemma Held_addMessage m a : Held a → Held (addMessage m a).
Proof. frame. Qed.

Lemma Held_completed ctx a : Held a → Inv (completed ctx a).
Proof.
  intros H. destruct ctx; cbn [completed]; unfold seq;
    first [by apply Held_finally, Held_reset | by apply Held_finally].
Qed.

Lemma Held_caught ctx e a : Held a → Inv (caught ctx e a).
Proof. intros H. unfold caught, seq. by apply Held_finally, Held_sendToUI. Qed.

Lemma Held_spawn t a :
  Held a → inGuardedTurn t = true → illFormed t = false → Inv (spawn t a).
Proof.
  intros H Hg Hi. destruct t as [c k|]; [|done].
  destruct k; try discriminate Hg; cbn in Hi; inv_open H; inv_goal.
Qed.

Lemma Held_executeAction ctx act a : Held a → Inv (executeAction ctx act a).
Proof.
  intros H. unfold executeAction.
  repeat match goal with
  | |- context [if ?b then _ else _] => atomic_cond b; destruct b
  end; unfold seq;
  first [ by apply Held_spawn
        | by apply Held_completed
        | by apply Held_completed, Held_sendToUI
        | by apply Held_completed, Held_sendToUI, Held_addMessage ].
Qed.

Lemma Held_append msgs a : Held a → Held (appendDeduped msgs a).
Proof. intros H. frame_append. revert H. frame. Qed.

Lemma Held_handleCommitmentPoint turn id a :
  Held a → Inv (handleCommitmentPoint turn id a).
Proof.
  intros H. unfold handleCommitmentPoint.
  inv_open H; unfold seq; inv_goal.
Qed.

Lemma Held_afterResearch turn o a : Held a → Inv (afterResearch turn o a).
Proof.
  intros H. unfold afterResearch. destruct (isCommitment turn).
  - by apply Held_handleCommitmentPoint.
  - by apply Held_executeAction.
Qed.

Lemma Held_reachDecided snapshot turn a : Held a → Inv (reachDecided snapshot turn a).
Proof.
  intros H. unfold reachDecided.
  destruct (bool_decide (state a = paused) || userTyping a); [by apply Held_finally|].
  apply (Held_append (rt_newMessages turn)) in H.
  destruct (humanDetected turn); [|by apply Held_executeAction].
  cbv zeta. revert H. generalize (appendDeduped (rt_newMessages turn) a). intros b H.
  inv_open H; unfold seq; inv_goal.
Qed.

Lemma Held_negotiationDecided turn o a : Held a → Inv (negotiationDecided turn o a).
Proof.
  intros H. unfold negotiationDecided.
  destruct (bool_decide (state a = paused) || userTyping a); [by apply Held_finally|].
  apply (Held_append (newMessages turn)) in H. unfold appendDeduped in H.
  cbv zeta. destruct (deduplicateMessages (newMessages turn) a) as [|m ms] eqn:Ed.
  - by apply Held_finally.
  - destruct (from_option _ false _).
    + unfold seq. apply Held_spawn; [by apply Held_sendToUI|done|done].
    + by apply Held_afterResearch.
Qed.

Lemma Held_extractDecided turn a : Held a → Inv (extractDecided turn a).
Proof.
  intros H. unfold extractDecided. destruct (userTyping a).
  - inv_open H; inv_goal.
  - apply (Held_append (newMessages turn)) in H. unfold seq.
    revert H. generalize (appendDeduped (newMessages turn) a). intros b H.
    inv_open H; inv_goal.
Qed.

(** *** Every continuation preserves the invariant *)

Lemma callFits_of extra call k a :
  InvWith (Await call k :: extra) a → callFits call k = true.
Proof.
  intros [Hwf _ _ _ _ _ _ _]. cbn in Hwf.
  destruct (callFits call k); [done|]. simpl in Hwf. lia.
Qed.

Ltac held H := apply InvWith_held in H; [|done].

Lemma Inv_resume_k call k r o a :
  InvWith [Await call k] a → accepts call r = true → Inv (resume_k k r o a).
Proof.
  intros H Hacc. pose proof (callFits_of _ _ _ _ H) as Hfit.
  destruct k; cbn in Hfit.
  - (* K_start *)
    destruct call; try discriminate Hfit; destruct r; try discriminate Hacc;
      cbn [resume_k]; unfold skip; inv_open H; inv_goal.
  - (* K_kickoff_snapshot *)
    held H. destruct call; try discriminate Hfit; destruct r; try discriminate Hacc;
      cbn [resume_k].
    + by apply Held_caught.
    + by apply Held_spawn.
  - (* K_kickoff_llm *)
    held H. destruct call as [| | | | | |[]|]; try discriminate Hfit;
      destruct r; try discriminate Hacc; cbn [resume_k]; unfold seq.
    + by apply Held_caught.
    + by apply Held_finally, Held_sendToUI, Held_addMessage.
    + by apply Held_executeAction.
  - (* K_then_add *)
    held H. destruct call; try discriminate Hfit; destruct r; try discriminate Hacc;
      cbn [resume_k]; unfold seq;
      first [by apply Held_caught | by apply Held_completed, Held_addMessage].
  - (* K_reach_llm *)
    held H. destruct call as [| | | | | |[]|]; try discriminate Hfit;
      destruct r; try discriminate Hacc; cbn [resume_k].
    + by apply Held_caught.
    + by apply Held_finally.
    + by apply Held_reachDecided.
  - (* K_generated *)
    held H. destruct call; try discriminate Hfit; destruct r; try discriminate Hacc;
      cbn [resume_k].
    + by apply Held_caught.
    + by apply Held_spawn.
  - (* K_neg_llm *)
    held H. destruct call as [| | | | | |[]|]; try discriminate Hfit;
      destruct r; try discriminate Hacc; cbn [resume_k].
    + by apply Held_caught.
    + by apply Held_finally.
    + by apply Held_negotiationDecided.
  - (* K_neg_research *)
    held H. destruct call; try discriminate Hfit; destruct r; try discriminate Hacc;
      cbn [resume_k]; unfold seq.
    apply Held_afterResearch. destruct (truthy f); [by apply Held_sendToUI|done].
  - (* K_neg_fresh *)
    held H. destruct call; try discriminate Hfit; destruct r; try discriminate Hacc;
      destruct approved; cbn [resume_k]; unfold seq;
      first [ by apply Held_caught
            | by apply Held_spawn
            | apply Held_spawn; [revert H; frame|done|done] ].
  - (* K_extract *)
    held H. destruct call as [| | | | | |[]|]; try discriminate Hfit;
      destruct r; try discriminate Hacc; cbn [resume_k];
      first [ by apply Held_extractDecided | inv_open H; inv_goal ].
  - (* K_inact_reach *)
    destruct call; try discriminate Hfit; destruct r; try discriminate Hacc;
      cbn [resume_k]; unfold skip, reachHumanTurn;
      destruct (waitingForLLM a) eqn:Ef; inv_open H; unfold seq; inv_goal.
  - (* K_inact_snapshot *)
    destruct call; try discriminate Hfit; destruct r; try discriminate Hacc;
      cbn [resume_k]; inv_open H; inv_goal.
  - (* K_inact_generated *)
    destruct call; try discriminate Hfit; destruct r; try discriminate Hacc;
      cbn [resume_k]; inv_open H; inv_goal.
  - (* K_inact_sent *)
    destruct call; try discriminate Hfit; destruct r; try discriminate Hacc;
      cbn [resume_k]; inv_open H; unfold seq; inv_goal.
  - (* K_turn *)
    destruct call; try discriminate Hfit; destruct r; try discriminate Hacc;
      cbn [resume_k]; unfold skip;
      [|apply Inv_processTurn]; inv_open H; inv_goal.
  - (* K_override_sent *)
    destruct call; try discriminate Hfit; destruct r; try discriminate Hacc;
      cbn [resume_k]; unfold skip; inv_open H; unfold seq; inv_goal.
  - (* K_summary *)
    destruct call; try discriminate Hfit; destruct r; try discriminate Hacc;
      cbn [resume_k]; inv_open H; unfold seq; inv_goal.
  - (* K_stall_sent *)
    destruct call; try discriminate Hfit; destruct r; try discriminate Hacc;
      cbn [resume_k]; inv_open H; unfold seq; inv_goal.
Qed.

Lemma InvWith_take i t a :
  tasks a !! i = Some t → Inv a → InvWith [t] (set_tasks (delete i (tasks a)) a).
Proof.
  intros Hi [Hwf Hm Hr Hp Haa Hres Hpa [Hs1 Hs2]].
  pose proof (countb_delete illFormed _ _ _ Hi).
  pose proof (countb_delete inGuardedTurn _ _ _ Hi).
  pose proof (countb_delete isRendezvous _ _ _ Hi).
  pose proof (countb_delete isStartTask _ _ _ Hi).
  pose proof (countb_delete isInactReach _ _ _ Hi).
  constructor; unfold early, b2n in *; cbn in *; try done; try lia.
  split; [lia|]. intros Hn.
  destruct Hs2 as (? & ? & ? & ? & ?); [lia|]. repeat split; try done; lia.
Qed.

Theorem Inv_step e a a' : Inv a → step e a = Some a' → Inv a'.
Proof.
  intros H Hs. destruct e; simpl in Hs.
  - injection Hs as <-. by apply Inv_pause.
  - injection Hs as <-. by apply Inv_resume.
  - injection Hs as <-. by apply Inv_stop.
  - injection Hs as <-. by apply Inv_handleApproval.
  - injection Hs as <-. by apply Inv_handleRejection.
  - injection Hs as <-. by apply Inv_handleUserDirective.
  - injection Hs as <-. by apply Inv_handleUserTyping.
  - injection Hs as <-. by apply Inv_handleUserOverride.
  - destruct (listening a); [|done]. injection Hs as <-.
    by apply Inv_handleSnapshotChanged.
  - destruct (canTick _ _ _); [|done]. injection Hs as <-. by apply Inv_tick.
  - destruct (findTimer id (timers a)) as [tm|] eqn:Hf; [|done].
    destruct (bool_decide _); [|done]. injection Hs as <-. by apply Inv_fire.
  - destruct (tasks a !! i) as [[call k|]|] eqn:Hi; try done.
    destruct (accepts call r) eqn:Hacc; [|done]. simpl in Hs.
    destruct (bool_decide _); [|done]. injection Hs as <-.
    eapply Inv_resume_k; [|done]. by apply InvWith_take.
Qed.

Lemma Inv_init cfg prior url continued t0 : Inv (init cfg prior url continued t0).
Proof.
  destruct prior; constructor; unfold early; cbn; try done;
    (split; [done|]; intros _; repeat split; auto).
Qed.

Lemma Inv_run evs : ∀ a a', Inv a → run evs a = Some a' → Inv a'.
Proof.
  induction evs as [|e evs IH]; intros a a' H Hr; simpl in Hr.
  - by injection Hr as <-.
  - destruct (step e a) as [a1|] eqn:Hs; [|done].
    eapply IH; [|done]. by eapply Inv_step.
Qed.

Theorem reachable_Inv a : reachable a → Inv a.
Proof.
  intros (cfg & prior & url & c & t0 & evs & Hr).
  eapply Inv_run; [|done]. apply Inv_init.
Qed.

(** ** The approval request and the phase *)

Lemma reachable_after evs a : run evs session0 = Some a → reachable a.
Proof. intros H. by exists cfg0, [], "http://chat.example", false, 0, evs. Qed.

Lemma reachable_step e a a' : reachable a → step e a = Some a' → reachable a'.
Proof.
  intros (cfg & prior & url & c & t0 & evs & Hr) Hs.
  exists cfg, prior, url, c, t0, (evs ++ [e]).
  revert Hr. generalize (init cfg prior url c t0).
  induction evs as [|e0 evs IH]; intros b Hr; simpl in *.
  - injection Hr as ->. by rewrite Hs.
  - destruct (step e0 b); [|done]. by apply IH.
Qed.

Lemma Inv_approvalInvariant a : Inv a → approvalInvariant a.
Proof.
  intros [Hwf Hm Hr Hp Haa Hres Hpa _]. unfold approvalInvariant, hasPending in *.
  cbn in *. unfold b2n in *.
  destruct (approvalResolve a), (pendingApproval a) eqn:E; try discriminate;
    repeat split; try lia; intros; try done;
    try (by eexists); try (by apply Hres);
    try (exfalso; by (apply Haa in H || apply is_Some_None in H)).
Qed.

(** C1, as stated, fails: [pause] is allowed in [awaiting_approval] and
    keeps the request, so a request is pending in phase [paused]. *)
Lemma pause_keeps_pending_request :
  reachable s_pausedApproval
  ∧ is_Some (pendingApproval s_pausedApproval)
  ∧ state s_pausedApproval = paused
  ∧ ¬ (is_Some (pendingApproval s_pausedApproval)
       ↔ state s_pausedApproval = awaiting_approval).
Proof.
  split; [by apply (reachable_after (toApproval ++ [E_pause]))|].
  split; [by eexists|]. split; [done|].
  intros [H _]. discriminate H. by eexists.
Qed.

(** C1, amended.  In every reachable state at most one approval rendezvous
    is parked and a request is pending exactly when one is; the phase
    [awaiting_approval] implies a pending request; a pending request implies
    the phase [awaiting_approval], or [paused] with [awaiting_approval] as
    the remembered phase; and every step from a reachable state (commitment
    detection, approval or rejection, pause, resume, stop, timers,
    completions) leads to a state where the same holds. *)
Theorem approval_invariant_reachable (a : Agent) :
  reachable a →
  approvalInvariant a
  ∧ ∀ e a', step e a = Some a' → approvalInvariant a'.
Proof.
  intros H. split.
  - by apply Inv_approvalInvariant, reachable_Inv.
  - intros e a' Hs. apply Inv_approvalInvariant, reachable_Inv.
    by eapply reachable_step.
Qed.

Lemma approval_invariant_reachable_witness :
  approvalInvariant s_approval ∧ approvalInvariant s_pausedApproval.
Proof.
  destruct (approval_invariant_reachable s_approval) as [H1 H2];
    [by apply (reachable_after toApproval)|].
  split; [exact H1|]. by apply (H2 E_pause).
Defined.

(** ** Extraction while the approval is pending *)

(** C3.  The code does not do what its own comments promise ("Still
    extract new messages so the feed stays current"): in every reachable
    state in phase [awaiting_approval] the single-flight flag is still held
    by the negotiation turn suspended in [handleCommitmentPoint], so a turn
    dispatched then returns from [extractMessagesOnly] at its guard: no
    extraction call is made and nothing is appended. *)
Theorem extraction_blocked_while_awaiting (a : Agent) (snapshot : string) :
  reachable a → state a = awaiting_approval →
  waitingForLLM a = true
  ∧ extractMessagesOnly snapshot a = a
  ∧ processTurn snapshot a = a.
Proof.
  intros Hr Hs. apply reachable_Inv in Hr as [_ Hm Hrd _ Haa _ _ _].
  cbn in *. rewrite (Haa Hs) in Hrd. unfold b2n in *.
  assert (Hf : waitingForLLM a = true) by (destruct (waitingForLLM a); [done|lia]).
  unfold processTurn, extractMessagesOnly. rewrite Hs, Hf.
  split; [done|]. split; [done|]. by destruct (userTyping a).
Qed.

(** The failing input of C3: the page changes during the approval wait;
    the debounced turn leaves the log and the parked tasks as they were. *)
Lemma extraction_blocked_while_awaiting_witness :
  ∃ a', run toExtraction session0 = Some a'
        ∧ state a' = awaiting_approval
        ∧ conversation a' = conversation s_approval
        ∧ tasks a' = [Rendezvous]
        ∧ processTurn "snap4" a' = a'.
Proof.
  eexists. split; [vm_compute; reflexivity|].
  split; [done|]. split; [done|]. split; [done|].
  refine (proj2 (proj2 (extraction_blocked_while_awaiting _ "snap4" _ _))); [|done].
  by apply (reachable_after toExtraction).
Defined.

(** ** Single-flight decision calls *)

(** C5 fails on the code: the follow-up of [handleInactivity] calls the
    LLM without taking the flag it has just checked, so a turn dispatched
    meanwhile makes a second call: two calls are in flight. *)
Theorem two_llm_calls_in_flight :
  ∃ a, run toTwoCalls session0 = Some a
       ∧ reachable a
       ∧ llmInFlight a = 2%nat.
Proof.
  eexists. split; [vm_compute; reflexivity|].
  split; [by apply (reachable_after toTwoCalls)|done].
Qed.

(** The guarded turns themselves are single-flight, and a dispatch that
    finds the flag set is dropped. *)
Lemma guarded_turns_single_flight (a : Agent) (snapshot : string) :
  reachable a →
  (countb inGuardedTurn (tasks a) + countb isRendezvous (tasks a) ≤ 1)%nat
  ∧ (waitingForLLM a = true →
       processTurn snapshot a = a ∧ handleInactivity a = a).
Proof.
  intros Hr. apply reachable_Inv in Hr as [_ Hm _ _ _ _ _ _]. cbn in Hm.
  split; [unfold b2n in Hm; destruct (waitingForLLM a); lia|].
  intros Hf. unfold processTurn, handleInactivity, reachHumanTurn, negotiationTurn,
    extractMessagesOnly. rewrite Hf.
  split; repeat case_bool_decide; destruct (userTyping a), (state a); done.
Qed.

(** ** The heap of timers *)

(** ** The heap of timers *)

Lemma elem_clearTimeout {C} id (h : Heap C) i tm :
  (i, tm) ∈ armed (clearTimeout id h) ↔ (i, tm) ∈ armed h ∧ i ≠ id.
Proof. unfold clearTimeout. simpl. rewrite list_elem_of_filter. simpl. tauto. Qed.

Lemma elem_clearField {C} f (h : Heap C) i tm :
  (i, tm) ∈ armed (clearField f h) ↔ (i, tm) ∈ armed h ∧ f ≠ Some i.
Proof.
  destruct f as [id|]; unfold clearField.
  - rewrite elem_clearTimeout. split; intros [H1 H2]; split; congruence.
  - split; [intros H; split; [done|discriminate]|tauto].
Qed.

Lemma elem_setTimeout {C} now (c : C) d (h : Heap C) i tm :
  (i, tm) ∈ armed (setTimeout now c d h).2
  ↔ (i, tm) ∈ armed h ∨ (i = nextId h ∧ tm = {| due := now + d; cb := c |}).
Proof.
  unfold setTimeout. simpl. rewrite elem_of_app, list_elem_of_singleton.
  split; (intros [H|H]; [by left|right]).
  - by injection H as -> ->.
  - by destruct H as [-> ->].
Qed.

Lemma nextId_clearField {C} f (h : Heap C) : nextId (clearField f h) = nextId h.
Proof. by destruct f. Qed.

Lemma heapOK_clearTimeout id (h : Heap Callback) : heapOK h → heapOK (clearTimeout id h).
Proof.
  intros [Hnd Hlt]. unfold heapOK, clearTimeout. simpl. split.
  - clear Hlt. induction (armed h) as [|[i tm] l IH]; simpl; [constructor|].
    simpl in Hnd. apply NoDup_cons in Hnd as [Hni Hnd].
    rewrite filter_cons. destruct (decide _); simpl; [|by apply IH].
    apply NoDup_cons. split; [|by apply IH].
    intros Hin. apply Hni. apply list_elem_of_fmap in Hin as ([i' tm'] & -> & Hin).
    apply list_elem_of_filter in Hin as [_ Hin].
    apply list_elem_of_fmap. by exists (i', tm').
  - intros i Hin. apply Hlt. apply list_elem_of_fmap in Hin as ([i' tm'] & -> & Hin).
    apply list_elem_of_filter in Hin as [_ Hin].
    apply list_elem_of_fmap. by exists (i', tm').
Qed.

Lemma heapOK_clearField f (h : Heap Callback) : heapOK h → heapOK (clearField f h).
Proof. destruct f; unfold clearField; [apply heapOK_clearTimeout|done]. Qed.

Lemma heapOK_setTimeout now c d (h : Heap Callback) :
  heapOK h → heapOK (setTimeout now c d h).2.
Proof.
  intros [Hnd Hlt]. unfold heapOK, setTimeout. simpl. rewrite fmap_app. simpl. split.
  - apply NoDup_app. split; [done|]. split; [|apply NoDup_singleton].
    intros i Hi Hi'. apply list_elem_of_singleton in Hi' as ->.
    apply Hlt in Hi. lia.
  - intros i Hi. apply elem_of_app in Hi as [Hi|Hi].
    + apply Hlt in Hi. lia.
    + apply list_elem_of_singleton in Hi as ->. lia.
Qed.

Lemma heapOK_elem_lt (h : Heap Callback) i tm :
  heapOK h → (i, tm) ∈ armed h → (i < nextId h)%nat.
Proof.
  intros [_ Hlt] Hin. apply Hlt. apply list_elem_of_fmap. by exists (i, tm).
Qed.

Lemma heapOK_unique (h : Heap Callback) i tm tm' :
  heapOK h → (i, tm) ∈ armed h → (i, tm') ∈ armed h → tm = tm'.
Proof.
  intros [Hnd _] H1 H2.
  apply list_elem_of_lookup in H1 as [j1 H1]. apply list_elem_of_lookup in H2 as [j2 H2].
  assert (j1 = j2).
  { eapply NoDup_lookup; [exact Hnd| |]; rewrite list_lookup_fmap.
    - by rewrite H1.
    - by rewrite H2. }
  subst. congruence.
Qed.

Lemma findTimer_Some (h : Heap Callback) i tm :
  heapOK h → (i, tm) ∈ armed h → findTimer i h = Some tm.
Proof.
  intros Hok Hin. unfold findTimer.
  destruct (list_find (λ e, e.1 = i) (armed h)) as [[j [i' tm']]|] eqn:E; simpl.
  - apply list_find_Some in E as (Hl & Hi & _). simpl in Hi. subst i'.
    apply list_elem_of_lookup_2 in Hl. f_equal. by eapply heapOK_unique.
  - apply list_find_None in E. rewrite Forall_forall in E.
    by specialize (E _ Hin).
Qed.


Lemma nextId_setTimeout {C} now (c : C) dl (h : Heap C) :
  nextId (setTimeout now c dl h).2 = S (nextId h).
Proof. done. Qed.

Lemma handle_setTimeout {C} now (c : C) dl (h : Heap C) :
  (setTimeout now c dl h).1 = nextId h.
Proof. done. Qed.

(** One entry of the heap, in all the ways the operations change it. *)
Ltac ti_old_entry Hen :=
  match goal with
  | H : (?i, ?t) ∈ armed _ |- _ =>
      let H1 := fresh "Hown" in
      pose proof (Hen _ _ H) as (H1 & ? & ? & ? & ?);
      destruct (cb t) eqn:?; simpl in *;
      try (specialize (H1 _ eq_refl))
  end.

Ltac ti_entry Hok Hen Hlt :=
  let id := fresh "id" in
  let tm := fresh "tm" in
  let Hin := fresh "Hin" in
  intros id tm Hin;
  rewrite ?elem_setTimeout, ?elem_clearField, ?elem_clearTimeout in Hin;
  repeat rewrite ?handle_setTimeout, ?nextId_setTimeout, ?nextId_clearField in *;
  repeat match goal with
  | H : _ ∧ _ |- _ => destruct H
  | H : _ ∨ _ |- _ => destruct H
  end; subst;
  try match goal with
  | H : (?i, ?t) ∈ armed _ |- _ => pose proof (heapOK_elem_lt _ _ _ Hok H)
  end;
  try ti_old_entry Hen;
  repeat split; intros; simplify_eq/=; try done; try lia; try congruence;
  try (by auto);
  try (exfalso; by auto);
  try match goal with
  | Hl : ∀ id, _ → (id < nextId ?h)%nat |- _ =>
      exfalso; assert (nextId h < nextId h)%nat by (apply Hl; auto); lia
  end.

Ltac ti_bound Hlt :=
  let id := fresh "id" in
  let H := fresh "H" in
  intros id H;
  repeat rewrite ?handle_setTimeout, ?nextId_setTimeout, ?nextId_clearField in *;
  simpl; destruct H as [H|[H|[H|H]]]; simplify_eq/=; try lia;
  first [ by apply Hlt; auto
        | assert (id < _)%nat by (apply Hlt; eauto); lia
        | idtac ].

Ltac ti_prim :=
  let Hok := fresh "Hok" in
  let Hlt := fresh "Hlt" in
  let Hen := fresh "Hen" in
  intros (Hok & Hlt & Hen);
  split; [eauto using heapOK_clearField, heapOK_setTimeout, heapOK_clearTimeout|];
  split; [ti_bound Hlt|ti_entry Hok Hen Hlt].

Lemma TI_clear f h d i u st : TI h d i u st → TI (clearField f h) d i u st.
Proof. ti_prim. Qed.

Lemma TI_unarm id h d i u st : TI h d i u st → TI (clearTimeout id h) d i u st.
Proof. ti_prim. Qed.

Lemma TI_null_debounce h d i u st : TI h d i u st → TI (clearField d h) None i u st.
Proof. ti_prim. Qed.

Lemma TI_null_inactivity h d i u st : TI h d i u st → TI (clearField i h) d None u st.
Proof. ti_prim. Qed.

Lemma TI_null_typing h d i u st : TI h d i u st → TI (clearField u h) d i None st.
Proof. ti_prim. Qed.

Lemma TI_null_stall h d i u st : TI h d i u st → TI (clearField st h) d i u None.
Proof. ti_prim. Qed.

Lemma TI_arm_anon now c dl h d i u st :
  owner c d i u = None → TI h d i u st → TI (setTimeout now c dl h).2 d i u st.
Proof. intros Hc. ti_prim. Qed.

Lemma TI_arm_debounce now s dl h d i u st :
  TI h d i u st →
  TI (setTimeout now (CbDebounce s) dl (clearField d h)).2
     (Some (setTimeout now (CbDebounce s) dl (clearField d h)).1) i u st.
Proof. ti_prim. Qed.

Lemma TI_arm_inactivity now dl h d i u st :
  TI h d i u st →
  TI (setTimeout now CbInactivity dl (clearField i h)).2
     d (Some (setTimeout now CbInactivity dl (clearField i h)).1) u st.
Proof. ti_prim. Qed.

Lemma TI_arm_typing now dl h d i u st :
  TI h d i u st →
  TI (setTimeout now CbUserTyping dl (clearField u h)).2
     d i (Some (setTimeout now CbUserTyping dl (clearField u h)).1) st.
Proof. ti_prim. Qed.

Lemma TI_arm_stall now dl h d i u st :
  TI h d i u st →
  TI (setTimeout now CbStall dl h).2 d i u (Some (setTimeout now CbStall dl h).1).
Proof. ti_prim. Qed.

(** The typing timer that fired was the one held by the field. *)
Lemma TI_fired_typing id tm h d i u st :
  findTimer id h = Some tm → cb tm = CbUserTyping →
  TI h d i u st → TI (clearTimeout id h) d i None st.
Proof.
  intros Hf Hc H. apply findTimer_elem in Hf.
  assert (u = Some id) as ->.
  { destruct H as (_ & _ & Hen). destruct (Hen _ _ Hf) as (Hown & _).
    apply Hown. by rewrite Hc. }
  by apply (TI_null_typing h d i (Some id) st).
Qed.

Lemma TI_fire_end now r s d i u :
  TI s.2 d i u (StallManager.timer s.1) →
  TI (StallManager.fire_end CbStall now r s).2 d i u
     (StallManager.timer (StallManager.fire_end CbStall now r s).1).
Proof.
  intros H. unfold StallManager.fire_end, StallManager.schedule.
  destruct (StallManager.timer s.1) eqn:E; [|by rewrite E]. cbv zeta. cbn [fst snd].
  cbn [StallManager.timer]. eapply TI_arm_stall. exact H.
Qed.

Ltac ti_rules :=
  repeat first
    [ eassumption
    | apply TI_arm_debounce
    | apply TI_arm_inactivity
    | apply TI_arm_typing
    | eapply TI_arm_stall
    | apply TI_arm_anon; [reflexivity|]
    | apply TI_fire_end; cbn [fst snd]
    | match goal with
      | |- TI (clearField (debounceTimer ?a) _) None _ _ _ => apply TI_null_debounce
      | |- TI (clearField (inactivityTimer ?a) _) _ None _ _ => apply TI_null_inactivity
      | |- TI (clearField (userTypingTimer ?a) _) _ _ None _ => apply TI_null_typing
      | |- TI (clearField (StallManager.timer ?s) _) _ _ _ None => apply TI_null_stall
      end
    | apply TI_clear
    | apply TI_unarm ].

Ltac ti_op := unfold TimersInv in *; repeat (cbn; split_one); cbn; ti_rules.

Lemma TI_pause a : TimersInv a → TimersInv (pause a).
Proof. intros H. unfold pause, seq. ti_op. Qed.

Lemma TI_resume a : TimersInv a → TimersInv (resume a).
Proof. intros H. unfold resume, seq. ti_op. Qed.


Ltac unfold_ops :=
  unfold stop, stop_body, resolveApproval, commitmentResumed, handleApproval,
    handleRejection, handleUserDirective, handleUserTyping, handleUserOverride,
    handleSnapshotChanged, fire, processTurn, handleInactivity, kickoff,
    reachHumanTurn, negotiationTurn, extractMessagesOnly, reachDecided,
    negotiationDecided, extractDecided, afterResearch, handleCommitmentPoint,
    executeAction, caught, completed, finally, startResolved, startPaused,
    clearUserTypingDelay, clearDebounce, clearInactivity, resetInactivityTimer,
    armAnon, stallStart, stallStop, setState, addMessage, sendToUI, spawn,
    skip, seq in *.

Ltac ti_frame_append :=
  unfold appendDeduped in *;
  repeat match goal with
  | |- context [addFrom ?b ?j ?l ?a] =>
      let V := fresh "conv" in
      let U := fresh "sink" in
      let E := fresh "E" in
      destruct (addFrom_shape b l j a) as (V & U & E); rewrite !E; clear E
  end.

Ltac ti_list :=
  repeat match goal with
  | |- context [match ?l with [] => _ | _ :: _ => _ end] =>
      atomic_cond l; destruct l eqn:?
  | |- context [match ?s with
                | idle => _ | connecting => _ | reaching_human => _
                | negotiating => _ | awaiting_approval => _ | paused => _
                | done => _ end] =>
      atomic_cond s; destruct s eqn:?
  end.

Ltac ti_all := repeat (progress unfold_ops); unfold TimersInv in *;
  repeat (cbn -[addFrom takeRendezvous]; first [split_one | progress ti_list]);
  cbn -[addFrom takeRendezvous]; ti_frame_append; cbn; ti_rules.

Lemma TI_stop a : TimersInv a → TimersInv (stop a).
Proof. intros H. ti_all. Qed.

Lemma TI_handleApproval requestId a : TimersInv a → TimersInv (handleApproval requestId a).
Proof. intros H. ti_all. Qed.

Lemma TI_handleRejection requestId directive a :
  TimersInv a → TimersInv (handleRejection requestId directive a).
Proof. intros H. ti_all. Qed.

Lemma TI_handleUserDirective txt a : TimersInv a → TimersInv (handleUserDirective txt a).
Proof. intros H. ti_all. Qed.

Lemma TI_handleUserTyping a : TimersInv a → TimersInv (handleUserTyping a).
Proof. intros H. ti_all. Qed.

Lemma TI_handleUserOverride txt a : TimersInv a → TimersInv (handleUserOverride txt a).
Proof. intros H. ti_all. Qed.

Lemma TI_handleSnapshotChanged snapshot a :
  TimersInv a → TimersInv (handleSnapshotChanged snapshot a).
Proof. intros H. ti_all. Qed.

Lemma TI_fire id tm a :
  findTimer id (timers a) = Some tm →
  TimersInv a → TimersInv (fire (cb tm) (set_timers (clearTimeout id (timers a)) a)).
Proof.
  intros Hf H. destruct (cb tm) eqn:Ec;
    [ apply (TI_unarm id) in H
    | apply (TI_unarm id) in H
    | apply (TI_fired_typing _ _ _ _ _ _ _ Hf Ec) in H
    | apply (TI_unarm id) in H
    | apply (TI_unarm id) in H
    | apply (TI_unarm id) in H ];
    ti_all.
Qed.

Lemma TI_resume_k k r o a : TimersInv a → TimersInv (resume_k k r o a).
Proof.
  intros H. destruct k; try (destruct ctx); try (destruct approved); destruct r;
    cbn [resume_k]; ti_all.
Qed.

Theorem TimersInv_step e a a' : TimersInv a → step e a = Some a' → TimersInv a'.
Proof.
  intros H Hs. destruct e; simpl in Hs.
  - injection Hs as <-. by apply TI_pause.
  - injection Hs as <-. by apply TI_resume.
  - injection Hs as <-. by apply TI_stop.
  - injection Hs as <-. by apply TI_handleApproval.
  - injection Hs as <-. by apply TI_handleRejection.
  - injection Hs as <-. by apply TI_handleUserDirective.
  - injection Hs as <-. by apply TI_handleUserTyping.
  - injection Hs as <-. by apply TI_handleUserOverride.
  - destruct (listening a); [|done]. injection Hs as <-.
    by apply TI_handleSnapshotChanged.
  - destruct (canTick _ _ _); [|done]. by injection Hs as <-.
  - destruct (findTimer id (timers a)) as [tm|] eqn:Hf; [|done].
    destruct (bool_decide _); [|done]. injection Hs as <-. by apply TI_fire.
  - destruct (tasks a !! i) as [[call k|]|] eqn:Hi; try done.
    destruct (accepts call r && _); [|done]. injection Hs as <-.
    by apply TI_resume_k.
Qed.

Lemma TimersInv_init cfg prior url continued t0 :
  TimersInv (init cfg prior url continued t0).
Proof.
  destruct prior; (split; [split; [constructor|]|split]); cbn; intros *;
    rewrite ?elem_of_nil; try done; intros [|[|[|]]]; done.
Qed.

Lemma TimersInv_run evs : ∀ a a', TimersInv a → run evs a = Some a' → TimersInv a'.
Proof.
  induction evs as [|e evs IH]; intros a a' H Hr; simpl in Hr.
  - by injection Hr as <-.
  - destruct (step e a) as [a1|] eqn:Hs; [|done].
    eapply IH; [|done]. by eapply TimersInv_step.
Qed.

Theorem reachable_TimersInv a : reachable a → TimersInv a.
Proof.
  intros (cfg & prior & url & c & t0 & evs & Hr).
  eapply TimersInv_run; [|done]. apply TimersInv_init.
Qed.

(** ** Stopping *)

Lemma takeRendezvous_none_iff (l : list Task) :
  countb isRendezvous l = 0%nat → takeRendezvous l = None.
Proof.
  intros H. destruct (takeRendezvous l) as [r|] eqn:E; [|done].
  apply (takeRendezvous_Some _ _ isRendezvous) in E. simpl in E. lia.
Qed.

Lemma takeRendezvous_one (l : list Task) :
  countb isRendezvous l = 1%nat →
  ∃ r, takeRendezvous l = Some r ∧ countb isRendezvous r = 0%nat.
Proof.
  intros H. destruct (takeRendezvous l) as [r|] eqn:E.
  - exists r. split; [done|].
    apply (takeRendezvous_Some _ _ isRendezvous) in E. simpl in E. lia.
  - apply takeRendezvous_None in E. lia.
Qed.
Lemma TI_tracked h d i u st id tm :
  TI h d i u st → (id, tm) ∈ armed h →
  tracked (cb tm) = false ↔ d ≠ Some id ∧ i ≠ Some id ∧ u ≠ Some id.
Proof.
  intros (_ & _ & H) Hin. destruct (H id tm Hin) as (Ho & Hd & Hi & Hu & _).
  split.
  - intros Ht. repeat split; intros E.
    + apply Hd in E. destruct (cb tm); done.
    + apply Hi in E. by rewrite E in Ht.
    + apply Hu in E. by rewrite E in Ht.
  - intros (Nd & Ni & Nu). destruct (cb tm); simpl in *; try done;
      exfalso; eauto.
Qed.

(** The armed timers that the four [clearTimeout]s of [stop()] leave. *)
Lemma stop_cleared (a : Agent) id tm :
  TimersInv a →
  (id, tm) ∈ armed (clearField (userTypingTimer a)
                      (clearField (inactivityTimer a)
                         (clearField (debounceTimer a)
                            (clearField (StallManager.timer (stallManager a))
                               (timers a)))))
  ↔ (id, tm) ∈ armed (timers a) ∧ tracked (cb tm) = false
    ∧ StallManager.timer (stallManager a) ≠ Some id.
Proof.
  intros HT. rewrite !elem_clearField. split.
  - intros ((((Hin & Ns) & Nd) & Ni) & Nu). repeat split; [done| |done].
    by apply (TI_tracked _ _ _ _ _ _ _ HT Hin).
  - intros (Hin & Ht & Ns). apply (TI_tracked _ _ _ _ _ _ _ HT Hin) in Ht.
    by destruct Ht as (? & ? & ?).
Qed.

Lemma takeRendezvous_snoc (l : list Task) c k :
  takeRendezvous (l ++ [Await c k]) = (λ r, r ++ [Await c k]) <$> takeRendezvous l.
Proof.
  induction l as [|t l IH]; [done|]. cbn [app takeRendezvous]. rewrite IH.
  destruct (takeRendezvous l); [done|]. by destruct t.
Qed.

Lemma stop_Stopped a : Inv a → TimersInv a → Stopped a (stop a).
Proof.
  intros [Hwf Hm Hr Hp Haa Hres Hpa Hst] HT. cbn in Hr, Hm.
  unfold stop, stop_body, resolveApproval, commitmentResumed, finally, stallStop,
    resetInactivityTimer, setState, sendToUI, spawn, skip, seq.
  cbn. destruct (approvalResolve a) eqn:Ea; cbn in Hr.
  - destruct (takeRendezvous_one _ Hr) as (r & Er & Hr0).
    destruct (conversation a) eqn:Ec; cbn; rewrite ?Ec; cbn;
      rewrite ?takeRendezvous_snoc, ?Er; cbn;
      rewrite (bool_decide_eq_true_2 (done = done) eq_refl);
      (split; cbn; unfold summaryTask; rewrite ?Ec, ?Er, ?Ea; cbn;
         rewrite ?countb_app, ?Hr0, ?app_nil_r; try done;
       intros id tm; rewrite elem_setTimeout, (elem_clearField (inactivityTimer a));
       change (clearField None ?x) with x;
       rewrite !nextId_clearField, (stop_cleared a id tm HT); unfold rearmed;
       split;
       [ intros [[H _]|[-> ->]]; [by left | by right]
       | intros [(Hin & Ht & Hs)|[_ E]];
         [ left; split; [done|];
           by apply (TI_tracked _ _ _ _ _ _ _ HT Hin) in Ht as (_ & ? & _)
         | right; by injection E ] ]).
  - pose proof (takeRendezvous_none_iff _ Hr) as Er.
    assert (pendingApproval a = None) as Ep
      by (unfold hasPending in Hp; by destruct (pendingApproval a)).
    destruct (conversation a) eqn:Ec; cbn; rewrite ?Ec; cbn;
      (split; cbn; unfold summaryTask; rewrite ?Ec, ?Er, ?Ea, ?Ep; cbn;
         rewrite ?countb_app, ?Hr, ?app_nil_r; try done;
       intros id tm; rewrite (stop_cleared a id tm HT);
       split; [by left | by intros [?|[? _]]]).
Qed.

(** A timer [stop()] leaves behind: the 3 s delay that [handleUserOverride]
    arms after its send has no handle, [stop()] cannot cancel it, and it
    fires in phase [done] and asks the browser for a snapshot. *)
Lemma stop_leaves_override_delay :
  reachable s_overridden
  ∧ (6%nat, {| due := 8000; cb := CbOverrideDelay |}) ∈ armed (timers s_overridden)
  ∧ stop s_overridden = s_stoppedOverride
  ∧ state s_stoppedOverride = done
  ∧ armed (timers s_stoppedOverride)
    = [(6%nat, {| due := 8000; cb := CbOverrideDelay |})]
  ∧ ∃ a', run [E_tick 3000; E_fire 6] s_stoppedOverride = Some a'
          ∧ tasks a' = [Await (LlmChat Summary) K_summary; Await Snapshot K_turn].
Proof.
  split; [by apply (reachable_after
             (toNegotiating ++ [E_override "I can pay 30"; E_done 0 R_ok o0]))|].
  split; [apply list_elem_of_lookup; by exists 1%nat|].
  repeat (split; [reflexivity|]). by eexists.
Qed.

(** The state in which [stop()] reaches its [await].  From every reachable
    state the phase is [done], the observer is stopped and its listener
    removed, the typing flag is cleared, the request is dropped and the
    pending rendezvous resolved, whose turn ends and releases the
    single-flight flag, and the stall scheduler is stopped.  Of the armed
    timers exactly those remain that are neither debounce, inactivity nor
    typing timers nor the scheduler's current timer, together with the
    inactivity timer that the [finally] of the released turn arms anew.  A
    failure of the summary makes [stop()] return [null]. *)
Theorem stop_spec (a : Agent) :
  reachable a →
  Stopped a (stop a)
  ∧ ∀ i err o,
      0 ≤ rnd o < StallManager.MAX_STALL_JITTER_MS →
      tasks (stop a) !! i = Some (Await (LlmChat Summary) K_summary) →
      step (E_done i (R_err err) o) (stop a) = Some (summaryFailed i (stop a))
      ∧ state (summaryFailed i (stop a)) = done.
Proof.
  intros H. pose proof (stop_Stopped a (reachable_Inv a H) (reachable_TimersInv a H))
    as S.
  split; [done|]. intros i err o Ho Hi. split.
  - unfold step. rewrite Hi. cbn [accepts andb].
    by rewrite bool_decide_eq_true_2.
  - by destruct S as [[? _]].
Qed.

Lemma stop_spec_witness :
  Stopped s_approval (stop s_approval)
  ∧ step (E_done 0 (R_err "overloaded") o0) (stop s_approval)
    = Some (summaryFailed 0 (stop s_approval)).
Proof.
  destruct (stop_spec s_approval) as [H1 H2];
    [by apply (reachable_after toApproval)|].
  split; [exact H1|].
  apply (H2 0%nat "overloaded" o0); [by vm_compute|reflexivity].
Defined.

Lemma stop_clock a : clock (stop a) = clock a.
Proof.
  unfold stop, stop_body, resolveApproval, commitmentResumed, finally, stallStop,
    resetInactivityTimer, setState, sendToUI, spawn, skip, seq.
  cbn. destruct (approvalResolve a); cbn.
  - destruct (conversation a); cbn; destruct (takeRendezvous _); cbn;
      repeat case_bool_decide; done.
  - by destruct (conversation a).
Qed.

(** C4.  The code does not do what [stop()] promises ("Stop everything
    immediately"): the phase [done] it reaches is not final and timers stay
    behind.  A timer armed without a stored handle (the delay after a user
    override, the page-load wait of [start]) stays armed.  Called in
    [awaiting_approval], [stop()] releases the suspended turn, whose
    [finally] arms the inactivity watchdog anew.  And a negotiation decision
    that is still awaited when [stop()] runs is not discarded when it
    returns: if it reports a commitment and a message new to the log, the
    agent leaves [done] for [awaiting_approval], publishes a new request,
    starts the stall scheduler and suspends the turn on a new rendezvous. *)
Theorem stop_is_not_final (a : Agent) :
  reachable a →
  state (stop a) = done
  ∧ (∀ id tm, (id, tm) ∈ armed (timers a) →
       cb tm = CbOverrideDelay ∨ (∃ c, cb tm = CbStartWait c) →
       (id, tm) ∈ armed (timers (stop a)))
  ∧ (state a = awaiting_approval →
       ∃ id, (id, {| due := clock a + INACTIVITY_MS; cb := CbInactivity |})
               ∈ armed (timers (stop a)))
  ∧ ∀ i snapshot turn o,
      tasks (stop a) !! i
      = Some (Await (LlmTools NEGOTIATION_TURN_TOOL) (K_neg_llm snapshot)) →
      0 ≤ rnd o < StallManager.MAX_STALL_JITTER_MS →
      isCommitment turn = true →
      deduplicateMessages (newMessages turn) a ≠ [] →
      researchTriggered turn a = false →
      ∃ a', step (E_done i (R_neg turn) o) (stop a) = Some a'
            ∧ commitmentAnnounced turn (clock a) a'
            ∧ tasks a' = delete i (tasks (stop a)) ++ [Rendezvous]
            ∧ approvalResolve a' = true.
Proof.
  intros H.
  pose proof (stop_Stopped a (reachable_Inv a H) (reachable_TimersInv a H)) as S.
  destruct S as [[Hst _] _ Hty _ _ _ _ _ Htm Hlog _].
  split; [done|]. split; [|split].
  - intros id tm Hin Hcb. apply Htm. left. split; [done|].
    destruct (reachable_TimersInv a H) as (_ & _ & HT).
    destruct (HT id tm Hin) as (_ & _ & _ & _ & Hs).
    split; [by destruct Hcb as [->|[c ->]]|].
    intros E. apply Hs in E. by destruct Hcb as [E'|[c E']]; rewrite E' in E.
  - intros Ha. destruct (reachable_Inv a H) as [_ _ _ _ Haw _ _ _].
    exists (nextId (timers a)). apply Htm. right. split; [by apply Haw|done].
  - intros i snapshot turn o Hi Ho Hc Hd Hr.
    eexists. split.
    { unfold step. rewrite Hi. cbn [accepts andb].
      rewrite bool_decide_eq_true_2 by done. reflexivity. }
    cbn [resume_k]. unfold negotiationDecided. cbn [state userTyping set_tasks].
    rewrite Hst, Hty. rewrite bool_decide_eq_false_2 by done. cbn [orb].
    set (S' := set_tasks (delete i (tasks (stop a))) (stop a)).
    assert (deduplicateMessages (newMessages turn) S'
            = deduplicateMessages (newMessages turn) a) as Ed.
    { unfold deduplicateMessages, S'. cbn [conversation set_tasks].
      by rewrite Hlog. }
    unfold researchTriggered in Hr. rewrite Ed.
    destruct (deduplicateMessages (newMessages turn) a) as [|m ms] eqn:Hdd; [done|].
    rewrite Hr. unfold afterResearch. rewrite Hc.
    destruct (addFrom_frame (clock S') (m :: ms) 0%nat S')
      as (_ & Hclk & _ & _ & Htk & _).
    cbv zeta in Hclk, Htk.
    set (a1 := addFrom (clock S') 0 (m :: ms) S') in *.
    assert (clock a1 = clock a) as Ec
      by (rewrite Hclk; unfold S'; cbn [clock set_tasks]; apply stop_clock).
    split; [rewrite <- Ec; apply handleCommitmentPoint_announces|].
    unfold handleCommitmentPoint, stallStart, setState, sendToUI, spawn, seq.
    cbn -[a1]. rewrite Htk. by unfold S'.
Qed.

Lemma stop_is_not_final_witness :
  (6%nat, {| due := 8000; cb := CbOverrideDelay |}) ∈ armed (timers (stop s_overridden))
  ∧ (∃ id, (id, {| due := 22000; cb := CbInactivity |})
             ∈ armed (timers (stop s_approval)))
  ∧ ∃ a' a'',
      step (E_done 0 (R_neg offer) o0) (stop s_turn) = Some a'
      ∧ state a' = awaiting_approval
      ∧ tasks a' = [Await (LlmChat Summary) K_summary; Rendezvous]
      ∧ run [E_tick 20000; E_fire 7] a' = Some a''
      ∧ last (tasks a'')
        = Some (Await (Send "Let me review the details of that, one moment please")
                      (K_stall_sent "Let me review the details of that, one moment please")).
Proof.
  split; [|split].
  - destruct (stop_is_not_final s_overridden) as (_ & H & _).
    + by apply (reachable_after
                  (toNegotiating ++ [E_override "I can pay 30"; E_done 0 R_ok o0])).
    + apply H; [|by left]. apply list_elem_of_lookup. by exists 1%nat.
  - destruct (stop_is_not_final s_approval) as (_ & _ & H & _);
      [by apply (reachable_after toApproval)|].
    by apply H.
  - destruct (stop_is_not_final s_turn) as (_ & _ & _ & H);
      [by apply (reachable_after toTurn)|].
    destruct (H 0%nat "snap2" offer o0) as (a' & Hs & (Hp & _) & Ht & _);
      [reflexivity|by vm_compute|reflexivity|by vm_compute|reflexivity|].
    exists a'. assert (Hs' := Hs). vm_compute in Hs'. injection Hs' as Ea.
    eexists. split; [exact Hs|]. split; [exact Hp|].
    split; [rewrite Ht; reflexivity|]. rewrite <- Ea.
    split; [vm_compute; reflexivity|reflexivity].
Defined.

(** ** Pausing and resuming *)

Lemma TI_turnTimer h d i u st id tm :
  TI h d i u st → (id, tm) ∈ armed h →
  turnTimer (cb tm) = false ↔ d ≠ Some id ∧ i ≠ Some id.
Proof.
  intros (_ & _ & H) Hin. destruct (H id tm Hin) as (Ho & Hd & Hi & _).
  split.
  - intros Ht. split; intros E.
    + apply Hd in E. destruct (cb tm); done.
    + apply Hi in E. by rewrite E in Ht.
  - intros (Nd & Ni). destruct (cb tm); simpl in *; try done; exfalso; eauto.
Qed.







(** ** The stall scheduler *)

Arguments pace : simpl never.

Lemma pace_snoc t0 l o : pace t0 (l ++ [o]) = pace1 t0 (pace t0 l) o.
Proof. unfold pace. by rewrite fold_left_app. Qed.

Lemma stall_run_app evs1 evs2 w w' :
  StallManager.run (evs1 ++ evs2) w = Some w' ↔
  ∃ w1, StallManager.run evs1 w = Some w1 ∧ StallManager.run evs2 w1 = Some w'.
Proof.
  revert w. induction evs1 as [|e evs1 IH]; intros w; simpl.
  - split; [by exists w|]. by intros (w1 & [= <-] & H).
  - destruct (StallManager.step e w) as [w1|]; [apply IH|].
    split; [done|]. by intros (? & ? & _).
Qed.

Lemma Running_start t0 : 
  ∀ w, StallManager.step StallManager.Ev_start (StallManager.fresh t0) = Some w →
       Running t0 w.
Proof.
  intros w [= <-]. unfold Running. cbn. split; [done|]. split; [done|].
  exists 0%nat, (t0 + StallManager.FIRST_STALL_DELAY_MS).
  repeat split; [unfold StallManager.FIRST_STALL_DELAY_MS; lia|].
  by apply bool_decide_eq_true_2.
Qed.

Lemma findTimer_single {C} id id' (tm tm' : Timer C) n :
  findTimer id {| armed := [(id', tm')]; nextId := n |} = Some tm →
  id = id' ∧ tm = tm'.
Proof.
  unfold findTimer. cbn. destruct (decide (id' = id)) as [->|]; cbn; [|done].
  by intros [= ->].
Qed.

Lemma Running_step t0 e w w' :
  StallManager.isStart e = false → StallManager.isStop e = false →
  Running t0 w → StallManager.step e w = Some w' → Running t0 w'.
Proof.
  intros Ns Np H Hs. unfold Running in *.
  destruct e as [| |d|id|i ok rnd]; try done; simpl in Hs.
  - (* the clock advances *)
    destruct (canTick _ _ _) eqn:Ht; [|done]. injection Hs as <-. cbn.
    destruct (pace t0 (StallManager.log w)) as [k prev|k|]; [|exact H|done].
    destruct H as (Hi & Hc & id & t & Et & Ea & Hn & Ho).
    split; [done|]. split; [done|]. exists id, t. repeat split; try done.
    unfold canTick in Ht. rewrite Ea in Ht. cbn in Ht.
    apply andb_prop in Ht as [_ Ht]. apply andb_prop in Ht as [Ht _].
    by apply bool_decide_eq_true_1 in Ht.
  - (* the timer fires *)
    destruct (findTimer id (StallManager.heap w)) as [tm|] eqn:Hf; [|done].
    case_bool_decide as Hd; [|done]. injection Hs as <-. cbn.
    rewrite pace_snoc.
    destruct (pace t0 (StallManager.log w)) as [k prev|k|]; [| |done].
    + destruct H as (Hi & Hc & id' & t & Et & Ea & Hn & Ho).
      destruct (StallManager.heap w) as [l n]. cbn in Ea. subst l.
      apply findTimer_single in Hf as [-> ->]. cbn in Hd.
      assert (StallManager.now w = t) as -> by lia.
      cbn -[nth Nat.modulo]. rewrite Ho, Hc, bool_decide_eq_true_2 by done.
      cbn -[nth Nat.modulo].
      rewrite Hi, Et. repeat split; try done.
      unfold clearTimeout. cbn. by rewrite decide_False by (intros ?; contradiction).
    + destruct H as (_ & _ & _ & _ & Ea). unfold findTimer in Hf.
      by rewrite Ea in Hf.
  - (* the send completes *)
    destruct (StallManager.inflight w !! i) as [m|] eqn:Hi; [|done].
    case_bool_decide as Hr; [|done]. injection Hs as <-. cbn.
    rewrite pace_snoc.
    destruct (pace t0 (StallManager.log w)) as [k prev|k|]; [| |done].
    + destruct H as (Hn & _). by rewrite Hn in Hi.
    + destruct H as (Hl & Hc & Hk & [id Et] & Ea). cbn.
      unfold StallManager.fire_end, StallManager.schedule. cbn.
      rewrite Et. cbn. rewrite Hc. destruct k; [done|]. cbn.
      destruct (StallManager.inflight w) as [|m' [|]]; try done.
      destruct i; [|done]. cbn. repeat split; try done.
      eexists _, _. unfold setTimeout. cbn. rewrite Ea. cbn. repeat split.
      * unfold StallManager.MIN_STALL_INTERVAL_MS. lia.
      * apply bool_decide_eq_true_2. lia.
Qed.

Lemma Running_stop t0 w w' :
  Running t0 w → StallManager.step StallManager.Ev_stop w = Some w' →
  Halted t0 w' ∧ StallManager.log w' = StallManager.log w.
Proof.
  intros H [= <-]. split; [|done]. unfold Running, Halted in *. cbn.
  destruct (pace t0 (StallManager.log w)) as [k prev|k|]; [| |done].
  - destruct H as (Hi & Hc & id & t & Et & Ea & _). rewrite Et.
    unfold clearField, clearTimeout. cbn. rewrite Ea. cbn.
    by rewrite decide_False by (intros ?; contradiction).
  - destruct H as (Hl & _ & _ & [id Et] & Ea). rewrite Et.
    unfold clearField, clearTimeout. cbn. by rewrite Ea.
Qed.

Lemma sends_snoc l o :
  StallManager.sends (l ++ [o])
  = StallManager.sends l
    ++ match o with
       | StallManager.Sent t m => [(t, m)]
       | StallManager.Completed _ _ => []
       end.
Proof. unfold StallManager.sends. rewrite omap_app. by destruct o. Qed.

Lemma Halted_step t0 e w w' :
  StallManager.isStart e = false →
  Halted t0 w → StallManager.step e w = Some w' →
  Halted t0 w' ∧ StallManager.sends (StallManager.log w')
                 = StallManager.sends (StallManager.log w).
Proof.
  intros Ns (Hsm & Ea & H) Hs. unfold Halted.
  destruct e as [| |d|id|i ok rnd]; try done; simpl in Hs.
  - injection Hs as <-. cbn. rewrite Hsm. by cbn.
  - destruct (canTick _ _ _); [|done]. by injection Hs as <-.
  - unfold findTimer in Hs. by rewrite Ea in Hs.
  - destruct (StallManager.inflight w !! i) as [m|] eqn:Hi; [|done].
    case_bool_decide; [|done]. injection Hs as <-. cbn.
    rewrite pace_snoc, sends_snoc, app_nil_r.
    unfold StallManager.fire_end. cbn. rewrite Hsm. cbn. split; [|done].
    split; [done|]. split; [done|].
    destruct (pace t0 (StallManager.log w)) as [k prev|k|]; [| |done].
    + by rewrite H in Hi.
    + cbn. destruct (StallManager.inflight w) as [|m' [|]]; try done.
      by destruct i.
Qed.

Lemma Live_run t0 evs : ∀ w w',
  noStart evs = true → Live t0 w → StallManager.run evs w = Some w' → Live t0 w'.
Proof.
  induction evs as [|e evs IH]; intros w w' Hn H Hr; simpl in *.
  - by injection Hr as <-.
  - apply andb_prop in Hn as [He Hn]. apply negb_true_iff in He.
    destruct (StallManager.step e w) as [w1|] eqn:Hs; [|done].
    apply (IH w1 w' Hn); [|done]. destruct H as [H|H].
    + destruct (StallManager.isStop e) eqn:Hp.
      * destruct e; try done. right. by apply (Running_stop t0 w).
      * left. by apply (Running_step t0 e w).
    + right. by apply (Halted_step t0 e w).
Qed.

Lemma Running_run t0 evs : ∀ w w',
  noStart evs = true → noStop evs = true →
  Running t0 w → StallManager.run evs w = Some w' → Running t0 w'.
Proof.
  induction evs as [|e evs IH]; intros w w' Hn Hp H Hr; simpl in *.
  - by injection Hr as <-.
  - apply andb_prop in Hn as [He Hn]. apply negb_true_iff in He.
    apply andb_prop in Hp as [He' Hp]. apply negb_true_iff in He'.
    destruct (StallManager.step e w) as [w1|] eqn:Hs; [|done].
    apply (IH w1 w' Hn Hp); [|done]. by apply (Running_step t0 e w).
Qed.

Lemma Halted_run t0 evs : ∀ w w',
  noStart evs = true → Halted t0 w → StallManager.run evs w = Some w' →
  Halted t0 w' ∧ StallManager.sends (StallManager.log w')
                 = StallManager.sends (StallManager.log w).
Proof.
  induction evs as [|e evs IH]; intros w w' Hn H Hr; simpl in *.
  - by injection Hr as <-.
  - apply andb_prop in Hn as [He Hn]. apply negb_true_iff in He.
    destruct (StallManager.step e w) as [w1|] eqn:Hs; [|done].
    destruct (Halted_step t0 e w w1 He H Hs) as [H1 E1].
    destruct (IH w1 w' Hn H1 Hr) as [H2 E2]. split; [done|]. congruence.
Qed.

Lemma Live_pace t0 w : Live t0 w → pace t0 (StallManager.log w) ≠ OffPace.
Proof.
  intros [H|(_ & _ & H)] E; unfold Running in *; by rewrite E in H.
Qed.

Lemma pace_app t0 l1 l2 : pace t0 (l1 ++ l2) = fold_left (pace1 t0) l2 (pace t0 l1).
Proof. unfold pace. by rewrite fold_left_app. Qed.

Lemma OffPace_absorbs t0 l : fold_left (pace1 t0) l OffPace = OffPace.
Proof. by induction l. Qed.

Lemma pace_prefix t0 l1 l2 : pace t0 (l1 ++ l2) ≠ OffPace → pace t0 l1 ≠ OffPace.
Proof. rewrite pace_app. intros H E. rewrite E in H. by rewrite OffPace_absorbs in H. Qed.

(** The automaton counts the sends; nothing has completed exactly when
    nothing was sent. *)
Lemma pace_shape t0 l :
  match pace t0 l with
  | Waiting k prev => length (StallManager.sends l) = k ∧ (k = 0%nat ↔ prev = None)
  | Sending k => length (StallManager.sends l) = k ∧ k ≠ 0%nat
  | OffPace => True
  end.
Proof.
  induction l as [|o l IH] using rev_ind; [done|].
  rewrite pace_snoc, sends_snoc, length_app.
  destruct (pace t0 l) as [k prev|k|]; [| |done].
  - destruct o as [t m|tc ok]; cbn; [|done].
    destruct (onTime _ _ _ && _); [|done]. destruct IH as [-> _]. split; lia.
  - destruct o as [t m|tc ok]; cbn; [done|]. destruct IH as [-> Hk].
    split; [lia|]. split; [lia|done].
Qed.

Lemma onTime_first t0 t :
  onTime t0 None t = true → t = t0 + StallManager.FIRST_STALL_DELAY_MS.
Proof. apply bool_decide_eq_true_1. Qed.

Lemma onTime_later t0 tc t :
  onTime t0 (Some tc) t = true →
  tc + StallManager.MIN_STALL_INTERVAL_MS ≤ t
  < tc + StallManager.MIN_STALL_INTERVAL_MS + StallManager.MAX_STALL_JITTER_MS.
Proof. apply bool_decide_eq_true_1. Qed.

Lemma pace_round_robin t0 l k t m :
  pace t0 l ≠ OffPace → StallManager.sends l !! k = Some (t, m) →
  m = nth (k mod 10) StallManager.STALL_MESSAGES ""
  ∧ (k = 0%nat → t = t0 + StallManager.FIRST_STALL_DELAY_MS).
Proof.
  induction l as [|o l IH] using rev_ind; [done|]. intros Hp Hk.
  pose proof (pace_prefix _ _ _ Hp) as Hl. rewrite sends_snoc in Hk.
  apply lookup_app_Some in Hk as [Hk|[Hge Hk]]; [by apply IH|].
  rewrite pace_snoc in Hp. pose proof (pace_shape t0 l) as Hs.
  destruct o as [t' m'|tc ok]; [|done].
  destruct (k - length (StallManager.sends l))%nat as [|j] eqn:Ej; [|done].
  injection Hk as -> ->.
  destruct (pace t0 l) as [k' prev|k'|]; [|done|done]. cbn in Hp.
  destruct (onTime t0 prev t) eqn:Ho; [|done]. case_bool_decide as Hm; [|done].
  destruct Hs as [Hlen Hz]. assert (k = k') as -> by lia. split; [done|].
  intros Hk0. apply Hz in Hk0 as ->. by apply onTime_first.
Qed.

Lemma pace_spacing t0 l l1 o t m l2 :
  pace t0 l ≠ OffPace → l = l1 ++ o :: StallManager.Sent t m :: l2 →
  ∃ tc ok, o = StallManager.Completed tc ok
    ∧ tc + StallManager.MIN_STALL_INTERVAL_MS ≤ t
      < tc + StallManager.MIN_STALL_INTERVAL_MS + StallManager.MAX_STALL_JITTER_MS.
Proof.
  intros Hp ->.
  replace (l1 ++ o :: StallManager.Sent t m :: l2)
    with (((l1 ++ [o]) ++ [StallManager.Sent t m]) ++ l2) in Hp
    by by rewrite <- !app_assoc.
  apply pace_prefix in Hp. rewrite !pace_snoc in Hp.
  destruct (pace t0 l1) as [k prev|k|]; [| |done].
  - destruct o; [|done]. cbn -[nth Nat.modulo] in Hp.
    destruct (onTime _ _ _ && _); cbn in Hp; congruence.
  - destruct o as [|tc ok]; [done|]. cbn -[nth Nat.modulo onTime] in Hp.
    destruct (onTime t0 (Some tc) t) eqn:Ho; [|cbn in Hp; congruence].
    exists tc, ok. split; [done|]. by apply (onTime_later t0).
Qed.

Lemma stall_started t0 evs w :
  StallManager.run (StallManager.Ev_start :: evs) (StallManager.fresh t0) = Some w →
  ∃ w0, Running t0 w0 ∧ StallManager.run evs w0 = Some w.
Proof.
  simpl. intros H. eexists. split; [|exact H]. by apply Running_start.
Qed.

(** X1.  A scheduler created and started once at [t0] sends its [k]-th
    message (counting from 0) from the pool entry [k mod 10], sends the first
    one at exactly [t0 + 20000], and sends every later one right after the
    completion of the send before it, 45000 ms to less than 75000 ms after
    that completion, whether that send succeeded or failed. *)
Theorem stall_sends_paced t0 evs w :
  noStart evs = true →
  StallManager.run (StallManager.Ev_start :: evs) (StallManager.fresh t0) = Some w →
  (∀ k t m, StallManager.sends (StallManager.log w) !! k = Some (t, m) →
     m = nth (k mod 10) StallManager.STALL_MESSAGES ""
     ∧ (k = 0%nat → t = t0 + StallManager.FIRST_STALL_DELAY_MS))
  ∧ ∀ l1 o t m l2,
      StallManager.log w = l1 ++ o :: StallManager.Sent t m :: l2 →
      ∃ tc ok, o = StallManager.Completed tc ok
        ∧ tc + StallManager.MIN_STALL_INTERVAL_MS ≤ t
          < tc + StallManager.MIN_STALL_INTERVAL_MS
            + StallManager.MAX_STALL_JITTER_MS.
Proof.
  intros Hn Hr. apply stall_started in Hr as (w0 & H0 & Hr).
  assert (pace t0 (StallManager.log w) ≠ OffPace) as Hp.
  { apply Live_pace. apply (Live_run t0 evs w0); [done|by left|done]. }
  split.
  - intros k t m. by apply (pace_round_robin t0).
  - intros l1 o t m l2. by apply (pace_spacing t0).
Qed.

Lemma stall_sends_paced_witness :
  (∀ k t m, StallManager.sends (StallManager.log w_second) !! k = Some (t, m) →
     m = nth (k mod 10) StallManager.STALL_MESSAGES ""
     ∧ (k = 0%nat → t = 0 + StallManager.FIRST_STALL_DELAY_MS))
  ∧ ∀ l1 o t m l2,
      StallManager.log w_second = l1 ++ o :: StallManager.Sent t m :: l2 →
      ∃ tc ok, o = StallManager.Completed tc ok
        ∧ tc + StallManager.MIN_STALL_INTERVAL_MS ≤ t
          < tc + StallManager.MIN_STALL_INTERVAL_MS
            + StallManager.MAX_STALL_JITTER_MS.
Proof. apply (stall_sends_paced 0 stallTrace); reflexivity. Defined.

(** X2.  As long as a scheduler started once is not stopped, either no
    send is in flight and exactly one timer is armed, the one its field
    holds, or one send is in flight, no timer is armed, and the completion
    of that send, successful or failed, arms the next timer 45000 ms plus
    the jitter later. *)
Theorem stall_next_send_scheduled t0 evs w :
  noStart evs = true → noStop evs = true →
  StallManager.run (StallManager.Ev_start :: evs) (StallManager.fresh t0) = Some w →
  match StallManager.inflight w with
  | [] =>
      ∃ id t, StallManager.timer (StallManager.sm w) = Some id
        ∧ armed (StallManager.heap w) = [(id, {| due := t; cb := tt |})]
        ∧ StallManager.now w ≤ t
  | _ :: _ =>
      armed (StallManager.heap w) = []
      ∧ ∀ ok rnd, 0 ≤ rnd < StallManager.MAX_STALL_JITTER_MS →
          ∃ w', StallManager.step (StallManager.Ev_done 0 ok rnd) w = Some w'
            ∧ StallManager.inflight w' = []
            ∧ StallManager.timer (StallManager.sm w')
              = Some (nextId (StallManager.heap w))
            ∧ armed (StallManager.heap w')
              = [(nextId (StallManager.heap w),
                  {| due := StallManager.now w
                            + StallManager.MIN_STALL_INTERVAL_MS + rnd;
                     cb := tt |})]
  end.
Proof.
  intros Hn Hp Hr. apply stall_started in Hr as (w0 & H0 & Hr).
  pose proof (Running_run t0 evs w0 w Hn Hp H0 Hr) as H. unfold Running in H.
  destruct (pace t0 (StallManager.log w)) as [k prev|k|]; [| |done].
  - destruct H as (-> & _ & id & t & Et & Ea & Hle & _). by exists id, t.
  - destruct H as (Hl & Hc & Hk & [id Et] & Ea).
    destruct (StallManager.inflight w) as [|m [|]] eqn:Ei; try done.
    split; [done|]. intros ok rnd Hrnd. eexists. split.
    + unfold StallManager.step. rewrite Ei. cbn [lookup list_lookup].
      by rewrite bool_decide_eq_true_2.
    + cbn. unfold StallManager.fire_end, StallManager.schedule. cbn.
      rewrite Et. cbn. rewrite Hc. destruct k; [done|]. cbn.
      unfold setTimeout. cbn. rewrite Ea. cbn.
      by rewrite Z.add_assoc.
Qed.

Lemma stall_next_send_scheduled_witness :
  armed (StallManager.heap w_second) = []
  ∧ ∃ w', StallManager.step (StallManager.Ev_done 0 false 7) w_second = Some w'
      ∧ armed (StallManager.heap w')
        = [(2%nat, {| due := 65100 + 45000 + 7; cb := tt |})].
Proof.
  pose proof (stall_next_send_scheduled 0 stallTrace w_second) as H.
  destruct H as [Ha H]; [reflexivity..|]. split; [exact Ha|].
  destruct (H false 7) as (w' & Hs & _ & _ & Hw); [by vm_compute|].
  exists w'. split; [exact Hs|exact Hw].
Defined.

(** X3.  [stop()] after one [start()] ends the schedule: the timer field
    is null, the counter is 0, no timer is armed, and whatever happens next
    short of another [start()], also the completion of a send that was in
    flight, no further message is sent. *)
Theorem stall_stop_halts t0 pre post w1 w :
  noStart pre = true → noStart post = true →
  StallManager.run (StallManager.Ev_start :: pre ++ [StallManager.Ev_stop])
    (StallManager.fresh t0) = Some w1 →
  StallManager.run post w1 = Some w →
  StallManager.sm w = StallManager.create
  ∧ armed (StallManager.heap w) = []
  ∧ StallManager.sends (StallManager.log w) = StallManager.sends (StallManager.log w1).
Proof.
  intros Hn1 Hn2 Hr1 Hr. apply stall_started in Hr1 as (w0 & H0 & Hr1).
  apply stall_run_app in Hr1 as (wp & Hp & Hs).
  pose proof (Live_run t0 pre w0 wp Hn1 (or_introl H0) Hp) as Hl.
  assert (Halted t0 w1) as Hh.
  { destruct Hl as [Hl|Hl].
    - simpl in Hs. by apply (Running_stop t0 wp w1 Hl).
    - by apply (Halted_step t0 StallManager.Ev_stop wp w1). }
  destruct (Halted_run t0 post w1 w Hn2 Hh Hr) as [(Hsm & Ea & _) Es]. done.
Qed.

Lemma stall_stop_halts_witness :
  StallManager.sm w_after = StallManager.create
  ∧ armed (StallManager.heap w_after) = []
  ∧ StallManager.sends (StallManager.log w_after)
    = StallManager.sends (StallManager.log w_stopped).
Proof.
  apply (stall_stop_halts 0 stallTrace
           [StallManager.Ev_done 0 true 0; StallManager.Ev_tick 500000]);
    reflexivity.
Defined.

(** X4.  [start()] called again while a send is in flight, after a
    [stop()], arms a timer that the scheduler loses: when the send completes
    [fire()] finds the timer field set and schedules once more, overwriting
    the handle.  A later [stop()] clears only the second timer; the first
    stays armed and sends a message 20000 ms after the restart although the
    scheduler is stopped. *)
Theorem stall_restart_in_flight w m ok rnd :
  StallManager.inflight w = [m] → armed (StallManager.heap w) = [] →
  0 ≤ rnd < StallManager.MAX_STALL_JITTER_MS →
  ∃ w1 w2,
    StallManager.run [StallManager.Ev_stop; StallManager.Ev_start;
                      StallManager.Ev_done 0 ok rnd; StallManager.Ev_stop] w
    = Some w1
    ∧ StallManager.sm w1 = StallManager.create
    ∧ armed (StallManager.heap w1)
      = [(nextId (StallManager.heap w),
          {| due := StallManager.now w + StallManager.FIRST_STALL_DELAY_MS;
             cb := tt |})]
    ∧ StallManager.run [StallManager.Ev_tick StallManager.FIRST_STALL_DELAY_MS;
                        StallManager.Ev_fire (nextId (StallManager.heap w))] w1
      = Some w2
    ∧ StallManager.sends (StallManager.log w2)
      = StallManager.sends (StallManager.log w)
        ++ [(StallManager.now w + StallManager.FIRST_STALL_DELAY_MS,
             nth 0 StallManager.STALL_MESSAGES "")].
Proof.
  intros Hi Ha Hr. destruct w as [[f c] [l n] t inf lg]. cbn in *. subst inf l.
  assert (clearField f {| armed := ([] : list (nat * Timer unit)); nextId := n |}
          = {| armed := []; nextId := n |}) as Ef by by destruct f.
  eexists _, _. split.
  { cbn. rewrite bool_decide_eq_true_2 by done. reflexivity. }
  cbn. rewrite Ef. unfold setTimeout, clearField, clearTimeout,
    StallManager.FIRST_STALL_DELAY_MS. cbn.
  rewrite decide_True by lia. rewrite decide_False by lia.
  split; [done|]. split; [done|]. split.
  - unfold canTick, findTimer. cbn.
    rewrite !bool_decide_eq_true_2 by lia. cbn.
    rewrite decide_True by done. cbn.
    rewrite bool_decide_eq_true_2 by lia. reflexivity.
  - cbn. by rewrite !sends_snoc, app_nil_r.
Qed.

Lemma stall_restart_in_flight_witness :
  ∃ w1 w2,
    StallManager.run [StallManager.Ev_stop; StallManager.Ev_start;
                      StallManager.Ev_done 0 true 0; StallManager.Ev_stop] w_second
    = Some w1
    ∧ StallManager.sm w1 = StallManager.create
    ∧ armed (StallManager.heap w1)
      = [(2%nat, {| due := 65100 + StallManager.FIRST_STALL_DELAY_MS; cb := tt |})]
    ∧ StallManager.run [StallManager.Ev_tick StallManager.FIRST_STALL_DELAY_MS;
                        StallManager.Ev_fire 2] w1
      = Some w2
    ∧ StallManager.sends (StallManager.log w2)
      = StallManager.sends (StallManager.log w_second)
        ++ [(65100 + StallManager.FIRST_STALL_DELAY_MS,
             nth 0 StallManager.STALL_MESSAGES "")].
Proof.
  apply (stall_restart_in_flight w_second
           "I want to make sure I understand the offer correctly, give me just a sec"
           true 0); [reflexivity|reflexivity|by vm_compute].
Defined.

(** ** The timers of the turn loop *)

(** X5.  In every reachable state at most one debounce timer, at most one
    inactivity watchdog and at most one typing delay is armed, and the
    field of its kind holds its handle. *)
Theorem one_timer_of_a_kind (a : Agent) id1 tm1 id2 tm2 :
  reachable a →
  (id1, tm1) ∈ armed (timers a) → (id2, tm2) ∈ armed (timers a) →
  sameTimer (cb tm1) (cb tm2) = true →
  id1 = id2 ∧ tm1 = tm2
  ∧ owner (cb tm1) (debounceTimer a) (inactivityTimer a) (userTypingTimer a)
    = Some (Some id1).
Proof.
  intros H H1 H2 Hs. destruct (reachable_TimersInv a H) as (Hok & _ & HT).
  destruct (HT _ _ H1) as (Ho1 & _). destruct (HT _ _ H2) as (Ho2 & _).
  assert (∃ f, owner (cb tm1) (debounceTimer a) (inactivityTimer a)
                 (userTypingTimer a) = Some f
               ∧ owner (cb tm2) (debounceTimer a) (inactivityTimer a)
                   (userTypingTimer a) = Some f) as (f & E1 & E2).
  { destruct (cb tm1), (cb tm2); try done; by eexists. }
  pose proof (Ho1 f E1) as F1. pose proof (Ho2 f E2) as F2.
  assert (id1 = id2) as <- by congruence.
  split; [done|]. split; [by apply (heapOK_unique (timers a) id1)|].
  by rewrite E1, F1.
Qed.

Lemma one_timer_of_a_kind_witness :
  owner CbInactivity (debounceTimer s_approval) (inactivityTimer s_approval)
    (userTypingTimer s_approval)
  = Some (Some 6%nat).
Proof.
  apply (one_timer_of_a_kind s_approval
           6%nat {| due := 20000; cb := CbInactivity |}
           6%nat {| due := 20000; cb := CbInactivity |}).
  - by apply (reachable_after toApproval).
  - apply list_elem_of_lookup. by exists 0%nat.
  - apply list_elem_of_lookup. by exists 0%nat.
  - reflexivity.
Defined.

Lemma field_below_next h d i u st id :
  TI h d i u st → d = Some id ∨ i = Some id ∨ u = Some id ∨ st = Some id →
  (id < nextId h)%nat.
Proof. intros (_ & H & _). apply H. Qed.

Lemma handleSnapshotChanged_timers (a : Agent) (snapshot : string) :
  TimersInv a →
  state a ≠ paused → state a ≠ idle → state a ≠ done → userTyping a = false →
  let a' := handleSnapshotChanged snapshot a in
  debounceTimer a' = Some (debounceOf snapshot a).1
  ∧ inactivityTimer a' = Some (watchdogOf snapshot a).1
  ∧ (∀ id tm, (id, tm) ∈ armed (timers a') ↔
       ((id, tm) ∈ armed (timers a) ∧ turnTimer (cb tm) = false)
       ∨ (id, tm) = debounceOf snapshot a ∨ (id, tm) = watchdogOf snapshot a)
  ∧ state a' = state a ∧ conversation a' = conversation a
  ∧ tasks a' = tasks a ∧ ui a' = ui a ∧ waitingForLLM a' = waitingForLLM a.
Proof.
  intros HT N1 N2 N3 Ht.
  unfold handleSnapshotChanged, debounceOf, watchdogOf.
  rewrite !bool_decide_eq_false_2 by done. cbn [orb]. rewrite Ht. cbv zeta.
  assert (∀ ms, let a1 := resetInactivityTimer ms
                  (set_debounceTimer
                     (Some (setTimeout (clock a) (CbDebounce snapshot) DEBOUNCE_MS
                              (clearField (debounceTimer a) (timers a))).1)
                     (set_timers
                        (setTimeout (clock a) (CbDebounce snapshot) DEBOUNCE_MS
                           (clearField (debounceTimer a) (timers a))).2 a)) in
          debounceTimer a1 = Some (nextId (timers a))
          ∧ inactivityTimer a1 = Some (S (nextId (timers a)))
          ∧ (∀ id tm, (id, tm) ∈ armed (timers a1) ↔
               ((id, tm) ∈ armed (timers a) ∧ turnTimer (cb tm) = false)
               ∨ (id, tm) = (nextId (timers a),
                             {| due := clock a + DEBOUNCE_MS;
                                cb := CbDebounce snapshot |})
               ∨ (id, tm) = (S (nextId (timers a)),
                             {| due := clock a + ms; cb := CbInactivity |}))
          ∧ state a1 = state a ∧ conversation a1 = conversation a
          ∧ tasks a1 = tasks a ∧ ui a1 = ui a
          ∧ waitingForLLM a1 = waitingForLLM a) as Hms.
  { intros ms. unfold resetInactivityTimer. cbn.
    rewrite ?handle_setTimeout, ?nextId_clearField, ?nextId_setTimeout,
      ?nextId_clearField.
    repeat (split; [done|]). split; [|done]. intros id tm.
    rewrite elem_setTimeout, elem_clearField, elem_setTimeout, elem_clearField,
      ?nextId_clearField, ?nextId_setTimeout, ?nextId_clearField. cbn.
    split.
    - intros [[[[Hin Nd]|[-> ->]] Ni]|[-> ->]]; [left|right; by left|right; by right].
      split; [done|]. by apply (TI_turnTimer _ _ _ _ _ _ _ HT Hin).
    - intros [[Hin Hk]|[E|E]].
      + apply (TI_turnTimer _ _ _ _ _ _ _ HT Hin) in Hk as [Nd Ni]. left. split; [|done].
        by left.
      + injection E as -> ->. left. split; [by right|]. intros Ei.
        assert (nextId (timers a) < nextId (timers a))%nat; [|lia].
        apply (field_below_next _ _ _ _ _ _ HT). right. by left.
      + injection E as -> ->. by right. }
  destruct (detectTypingIndicator snapshot); apply Hms.
Qed.

(** X6.  A change of the page that is not suppressed (the phase is neither
    [paused], [idle] nor [done] and the user is not typing) cancels the
    pending debounce timer and the pending watchdog and arms one of each:
    the debounce timer 2000 ms ahead, carrying the snapshot of this change,
    and the watchdog 15 s ahead, or 5 min ahead when the snapshot shows a
    typing indicator.  All other timers stay, and nothing else changes. *)
Theorem change_rearms_debounce (a : Agent) (snapshot : string) :
  reachable a →
  state a ≠ paused → state a ≠ idle → state a ≠ done → userTyping a = false →
  let a' := handleSnapshotChanged snapshot a in
  debounceTimer a' = Some (debounceOf snapshot a).1
  ∧ inactivityTimer a' = Some (watchdogOf snapshot a).1
  ∧ (∀ id tm, (id, tm) ∈ armed (timers a') ↔
       ((id, tm) ∈ armed (timers a) ∧ turnTimer (cb tm) = false)
       ∨ (id, tm) = debounceOf snapshot a ∨ (id, tm) = watchdogOf snapshot a)
  ∧ state a' = state a ∧ conversation a' = conversation a
  ∧ tasks a' = tasks a ∧ ui a' = ui a ∧ waitingForLLM a' = waitingForLLM a.
Proof. intros H. by apply handleSnapshotChanged_timers, reachable_TimersInv. Qed.

Lemma change_rearms_debounce_witness :
  debounceTimer (handleSnapshotChanged "snap9" s_negotiating)
  = Some (debounceOf "snap9" s_negotiating).1.
Proof.
  by apply (change_rearms_debounce s_negotiating "snap9");
    [apply (reachable_after toNegotiating)|..].
Defined.

Lemma burst_debounce (l : list (Z * string)) : ∀ (a : Agent) s0 a',
  reachable a →
  state a ≠ paused → state a ≠ idle → state a ≠ done → userTyping a = false →
  run (E_changed s0 :: burst l) a = Some a' →
  ∃ id,
    debounceTimer a' = Some id
    ∧ (id, {| due := clock a' + DEBOUNCE_MS;
              cb := CbDebounce (default s0 (last (l.*2))) |}) ∈ armed (timers a')
    ∧ ∀ id' tm, (id', tm) ∈ armed (timers a') → isDebounceCb (cb tm) = true →
        id' = id
        ∧ tm = {| due := clock a' + DEBOUNCE_MS;
                  cb := CbDebounce (default s0 (last (l.*2))) |}.
Proof.
  induction l as [|[d s] l IH]; intros a s0 a' H N1 N2 N3 Ht Hr.
  - simpl in Hr. destruct (listening a); [|done]. injection Hr as <-.
    destruct (handleSnapshotChanged_timers a s0 (reachable_TimersInv a H)
                N1 N2 N3 Ht) as (Ed & _ & Hin & _).
    exists (nextId (timers a)). split; [done|].
    assert (clock (handleSnapshotChanged s0 a) = clock a) as ->.
    { unfold handleSnapshotChanged. rewrite !bool_decide_eq_false_2 by done.
      cbn [orb]. rewrite Ht. by destruct (detectTypingIndicator s0). }
    split; [apply Hin; right; by left|].
    intros id' tm Hm Hk. apply Hin in Hm as [[_ Hn]|[E|E]].
    + by destruct (cb tm).
    + by injection E as -> ->.
    + injection E as -> ->. done.
  - cbn [burst] in Hr. cbn [fmap list_fmap snd].
    assert (∀ x, default s0 (last (x :: l.*2)) = default x (last (l.*2))) as El.
    { intros x. rewrite last_cons. by destruct (last (l.*2)). }
    change (((d, s) :: l).*2) with (s :: l.*2). rewrite El.
    change (run (E_changed s0 :: ?r) a) with
      (match step (E_changed s0) a with Some a1 => run r a1 | None => None end) in Hr.
    destruct (step (E_changed s0) a) as [a1|] eqn:Hs; [|done].
    pose proof (reachable_step _ _ _ H Hs) as H1. simpl in Hs.
    destruct (listening a); [|done]. injection Hs as <-.
    destruct (handleSnapshotChanged_timers a s0 (reachable_TimersInv a H)
                N1 N2 N3 Ht) as (_ & _ & _ & Es & _).
    assert (userTyping (handleSnapshotChanged s0 a) = false) as Et.
    { unfold handleSnapshotChanged. rewrite !bool_decide_eq_false_2 by done.
      cbn [orb]. rewrite Ht. by destruct (detectTypingIndicator s0). }
    case_bool_decide as Hd.
    + apply (IH _ s a' H1); by rewrite ?Es.
    + cbn [app] in Hr.
      change (run (E_tick d :: ?r) ?b) with
        (match step (E_tick d) b with Some a1 => run r a1 | None => None end) in Hr.
      destruct (step (E_tick d) (handleSnapshotChanged s0 a)) as [a2|] eqn:Hs2; [|done].
      pose proof (reachable_step _ _ _ H1 Hs2) as H2. simpl in Hs2.
      destruct (canTick _ _ _); [|done]. injection Hs2 as <-.
      apply (IH _ s a' H2); cbn [state userTyping set_clock]; by rewrite ?Es.
Qed.

Lemma reachable_run evs : ∀ a a', reachable a → run evs a = Some a' → reachable a'.
Proof.
  induction evs as [|e evs IH]; intros a a' H Hr; simpl in Hr.
  - by injection Hr as <-.
  - destruct (step e a) as [a1|] eqn:Hs; [|done].
    apply (IH a1); [|done]. by apply (reachable_step e a).
Qed.

(** X7.  After a burst of changes of the page during which no timer fires
    (the phase is dispatchable and the user is not typing), exactly one
    debounce timer is armed: it carries the snapshot of the last change and
    is due 2000 ms after it.  When these 2000 ms have passed its firing runs
    [processTurn] on that snapshot. *)
Theorem burst_dispatches_last (a : Agent) s0 (l : list (Z * string)) a' :
  reachable a →
  state a ≠ paused → state a ≠ idle → state a ≠ done → userTyping a = false →
  run (E_changed s0 :: burst l) a = Some a' →
  ∃ id,
    debounceTimer a' = Some id
    ∧ (∀ id' tm,
         (id', tm) ∈ armed (timers a') ∧ isDebounceCb (cb tm) = true ↔
         id' = id
         ∧ tm = {| due := clock a' + DEBOUNCE_MS;
                   cb := CbDebounce (default s0 (last (l.*2))) |})
    ∧ ∀ b, step (E_tick DEBOUNCE_MS) a' = Some b →
        step (E_fire id) b
        = Some (processTurn (default s0 (last (l.*2)))
                  (set_timers (clearTimeout id (timers b)) b)).
Proof.
  intros H N1 N2 N3 Ht Hr.
  destruct (burst_debounce l a s0 a' H N1 N2 N3 Ht Hr) as (id & Ed & Hin & Hall).
  exists id. split; [done|]. split.
  - intros id' tm. split; [intros [? ?]; by apply Hall|]. by intros [-> ->].
  - intros b Hb. simpl in Hb. destruct (canTick _ _ _); [|done].
    injection Hb as <-. pose proof (reachable_run _ _ _ H Hr) as H'.
    destruct (reachable_TimersInv a' H') as (Hok & _).
    unfold step. cbn [timers set_clock clock].
    rewrite (findTimer_Some _ _ _ Hok Hin). cbn [due cb fire].
    by rewrite bool_decide_eq_true_2.
Qed.

Lemma burst_dispatches_last_witness :
  ∃ id,
    debounceTimer s_burst = Some id
    ∧ (id, {| due := clock s_burst + DEBOUNCE_MS; cb := CbDebounce "three" |})
      ∈ armed (timers s_burst).
Proof.
  destruct (burst_dispatches_last s_negotiating "one" [(0, "two"); (1500, "three")]
              s_burst)
    as (id & Ed & Hin & _);
    [by apply (reachable_after toNegotiating)|done..|vm_compute; reflexivity|].
  exists id. split; [exact Ed|]. by apply Hin.
Defined.

(** X8.  [handleUserTyping()] in any reachable state sets the typing flag,
    cancels the debounce timer and the watchdog, and arms the typing delay
    20 s ahead in place of an earlier one; all other timers stay.  While the
    flag is set, changes of the page, [processTurn] and the watchdog do
    nothing.  When the delay expires the flag is cleared and a snapshot is
    fetched for one turn. *)
Theorem typing_suppresses_turns (a : Agent) :
  reachable a →
  let a' := handleUserTyping a in
  userTyping a' = true
  ∧ debounceTimer a' = None ∧ inactivityTimer a' = None
  ∧ userTypingTimer a' = Some (typingDelayOf a).1
  ∧ (∀ id tm, (id, tm) ∈ armed (timers a') ↔
       ((id, tm) ∈ armed (timers a) ∧ tracked (cb tm) = false)
       ∨ (id, tm) = typingDelayOf a)
  ∧ (∀ s, handleSnapshotChanged s a' = a' ∧ processTurn s a' = a')
  ∧ handleInactivity a' = a'
  ∧ ∀ b, step (E_tick USER_TYPING_DELAY_MS) a' = Some b →
      ∃ b', step (E_fire (typingDelayOf a).1) b = Some b'
        ∧ userTyping b' = false ∧ userTypingTimer b' = None
        ∧ tasks b' = tasks a ++ [Await Snapshot K_turn].
Proof.
  intros H. pose proof (reachable_TimersInv a H) as HT.
  pose proof (TI_handleUserTyping a HT) as HT'. revert HT'.
  unfold handleUserTyping, clearDebounce, clearInactivity, typingDelayOf, seq.
  cbn. rewrite ?handle_setTimeout, ?nextId_clearField. intros HT'.
  assert (∀ id tm,
    (id, tm) ∈ armed (setTimeout (clock a) CbUserTyping USER_TYPING_DELAY_MS
                        (clearField (userTypingTimer a)
                           (clearField (inactivityTimer a)
                              (clearField (debounceTimer a) (timers a))))).2
    ↔ ((id, tm) ∈ armed (timers a) ∧ tracked (cb tm) = false)
      ∨ (id, tm) = (nextId (timers a),
                    {| due := clock a + USER_TYPING_DELAY_MS; cb := CbUserTyping |}))
    as Hin.
  { intros id tm. rewrite elem_setTimeout, !elem_clearField, !nextId_clearField.
    split.
    - intros [[[[Hin Nd] Ni] Nu]|[-> ->]]; [left|by right].
      split; [done|]. by apply (TI_tracked _ _ _ _ _ _ _ HT Hin).
    - intros [[Hin Hk]|E]; [left|right; by injection E].
      by apply (TI_tracked _ _ _ _ _ _ _ HT Hin) in Hk as (? & ? & ?). }
  set (h' := (setTimeout (clock a) CbUserTyping USER_TYPING_DELAY_MS
                (clearField (userTypingTimer a)
                   (clearField (inactivityTimer a)
                      (clearField (debounceTimer a) (timers a))))).2) in *.
  do 4 (split; [done|]). split; [exact Hin|]. split; [|split].
  - intros s. unfold handleSnapshotChanged, processTurn. cbn.
    by destruct (bool_decide (state a = paused)), (bool_decide (state a = idle)),
      (bool_decide (state a = done)).
  - unfold handleInactivity. cbn. by destruct (bool_decide (state a = paused)).
  - intros b Hb. simpl in Hb. destruct (canTick _ _ _); [|done].
    injection Hb as <-. destruct HT' as (Hok & _). cbn in Hok.
    eexists. split.
    + unfold step. cbn -[h'].
      rewrite (findTimer_Some h' (nextId (timers a))
                 {| due := clock a + USER_TYPING_DELAY_MS; cb := CbUserTyping |} Hok)
        by (apply Hin; by right).
      cbn [due]. rewrite bool_decide_eq_true_2 by done. reflexivity.
    + done.
Qed.

Lemma typing_suppresses_turns_witness :
  userTyping (handleUserTyping s_negotiating) = true
  ∧ handleInactivity (handleUserTyping s_negotiating) = handleUserTyping s_negotiating.
Proof.
  destruct (typing_suppresses_turns s_negotiating) as (H1 & _ & _ & _ & _ & _ & H2 & _);
    [by apply (reachable_after toNegotiating)|].
  split; [exact H1|exact H2].
Defined.

(** ** The single-flight flag *)

Lemma countb_holdsFlag (l : list Task) :
  countb holdsFlag l = (countb inGuardedTurn l + countb isRendezvous l)%nat.
Proof.
  induction l as [|t l IH]; [done|]. simpl. rewrite IH. unfold holdsFlag.
  destruct t as [c k|]; [|simpl; lia].
  change (isRendezvous (Await c k)) with false. rewrite orb_false_r.
  destruct (inGuardedTurn (Await c k)); lia.
Qed.

Lemma countb_pos {A} (p : A → bool) (l : list A) :
  (0 < countb p l)%nat ↔ ∃ x, x ∈ l ∧ p x = true.
Proof.
  induction l as [|y l IH]; simpl.
  - split; [lia|]. intros (x & Hx & _). by apply elem_of_nil in Hx.
  - split.
    + intros H. destruct (p y) eqn:Ey.
      * exists y. split; [apply elem_of_cons; by left|done].
      * apply IH in H as (x & Hx & Hp). exists x. split; [|done].
        apply elem_of_cons. by right.
    + intros (x & Hx & Hp). apply elem_of_cons in Hx as [->|Hx].
      * rewrite Hp. lia.
      * assert (0 < countb p l)%nat by (apply IH; by exists x). lia.
Qed.

(** X9.  In every reachable state the flag [waitingForLLM] is set exactly
    when a turn that takes it ([kickoff], [reachHumanTurn],
    [negotiationTurn], [extractMessagesOnly]) is in progress, awaiting one of
    its calls or suspended on the approval; and at most one such turn is in
    progress. *)
Theorem flag_tracks_guarded_turn (a : Agent) :
  reachable a →
  (countb holdsFlag (tasks a) ≤ 1)%nat
  ∧ (waitingForLLM a = true ↔ ∃ t, t ∈ tasks a ∧ holdsFlag t = true).
Proof.
  intros Hr. apply reachable_Inv in Hr as [_ Hm _ _ _ _ _ _]. cbn in Hm.
  rewrite <- countb_holdsFlag in Hm. rewrite <- countb_pos, Hm.
  unfold b2n. destruct (waitingForLLM a); split; try lia; split; try done; lia.
Qed.

Lemma flag_tracks_guarded_turn_witness :
  waitingForLLM s_approval = true ↔ ∃ t, t ∈ tasks s_approval ∧ holdsFlag t = true.
Proof.
  apply (flag_tracks_guarded_turn s_approval).
  by apply (reachable_after toApproval).
Defined.

(** ** The feed of the UI *)

Lemma lastStatus_snoc l m :
  lastStatus (l ++ [m]) = match statusOf m with Some st => Some st | None => lastStatus l end.
Proof.
  unfold lastStatus. rewrite omap_app. simpl.
  destruct (statusOf m); [by rewrite last_snoc|by rewrite app_nil_r].
Qed.

Lemma lastChat_snoc l m :
  lastChat (l ++ [m]) = match chatOf m with Some c => c | None => lastChat l end.
Proof.
  unfold lastChat. rewrite omap_app. simpl.
  destruct (chatOf m); [by rewrite last_snoc|by rewrite app_nil_r].
Qed.

Lemma addFrom_feed baseTs msgs : ∀ j a,
  ∃ conv sink,
    addFrom baseTs j msgs a = set_ui sink (set_conversation conv a)
    ∧ lastStatus sink = lastStatus (ui a)
    ∧ (lastChat (ui a) = conversation a → lastChat sink = conv).
Proof.
  induction msgs as [|m rest IH]; intros j a.
  - exists (conversation a), (ui a). by destruct a.
  - cbn [addFrom]. unfold seq.
    destruct (IH (S j) (addMessage (stamped baseTs j m) a))
      as (conv & sink & E & Es & Ec).
    unfold stamped in E. rewrite E. exists conv, sink. split; [done|].
    revert Es Ec. unfold addMessage, sendToUI. cbn.
    rewrite lastStatus_snoc, lastChat_snoc. cbn. intros -> Ec. split; [done|].
    intros _. by apply Ec.
Qed.

Arguments FeedOf : simpl never.

Ltac feed_append :=
  unfold appendDeduped in *;
  repeat match goal with
  | |- context [addFrom ?b ?j ?l ?a] =>
      let V := fresh "conv" in
      let U := fresh "sink" in
      let E := fresh "E" in
      let Es := fresh "Es" in
      let Ec := fresh "Ec" in
      destruct (addFrom_feed b l j a) as (V & U & E & Es & Ec); rewrite !E; clear E;
      cbn in Es, Ec
  end.

Ltac feed_leaf :=
  unfold FeedOf in *; cbn;
  rewrite ?lastStatus_snoc, ?lastChat_snoc; cbn;
  rewrite ?lastStatus_snoc, ?lastChat_snoc; cbn;
  intuition (try congruence).

Ltac feed_all := repeat (progress unfold_ops); unfold FeedInSync in *;
  repeat (cbn -[addFrom takeRendezvous]; first [split_one | progress ti_list]);
  cbn -[addFrom takeRendezvous]; feed_append; cbn; feed_leaf.

Lemma Feed_pause a : FeedInSync a → FeedInSync (pause a).
Proof. intros H. unfold pause. feed_all. Qed.

Lemma Feed_resume a : FeedInSync a → FeedInSync (resume a).
Proof. intros H. unfold resume. feed_all. Qed.

Lemma Feed_stop a : FeedInSync a → FeedInSync (stop a).
Proof. intros H. feed_all. Qed.

Lemma Feed_handleApproval requestId a : FeedInSync a → FeedInSync (handleApproval requestId a).
Proof. intros H. feed_all. Qed.

Lemma Feed_handleRejection requestId directive a :
  FeedInSync a → FeedInSync (handleRejection requestId directive a).
Proof. intros H. feed_all. Qed.

Lemma Feed_handleUserDirective txt a : FeedInSync a → FeedInSync (handleUserDirective txt a).
Proof. intros H. feed_all. Qed.

Lemma Feed_handleUserTyping a : FeedInSync a → FeedInSync (handleUserTyping a).
Proof. intros H. feed_all. Qed.

Lemma Feed_handleUserOverride txt a : FeedInSync a → FeedInSync (handleUserOverride txt a).
Proof. intros H. feed_all. Qed.

Lemma Feed_handleSnapshotChanged snapshot a :
  FeedInSync a → FeedInSync (handleSnapshotChanged snapshot a).
Proof. intros H. feed_all. Qed.

Lemma Feed_fire c a : FeedInSync a → FeedInSync (fire c a).
Proof. intros H. destruct c; feed_all. Qed.

Lemma Feed_resume_k k r o a : FeedInSync a → FeedInSync (resume_k k r o a).
Proof.
  intros H. destruct k; try (destruct ctx); try (destruct approved); destruct r;
    cbn [resume_k]; feed_all.
Qed.

Theorem Feed_step e a a' : FeedInSync a → step e a = Some a' → FeedInSync a'.
Proof.
  intros H Hs. destruct e; simpl in Hs.
  - injection Hs as <-. by apply Feed_pause.
  - injection Hs as <-. by apply Feed_resume.
  - injection Hs as <-. by apply Feed_stop.
  - injection Hs as <-. by apply Feed_handleApproval.
  - injection Hs as <-. by apply Feed_handleRejection.
  - injection Hs as <-. by apply Feed_handleUserDirective.
  - injection Hs as <-. by apply Feed_handleUserTyping.
  - injection Hs as <-. by apply Feed_handleUserOverride.
  - destruct (listening a); [|done]. injection Hs as <-.
    by apply Feed_handleSnapshotChanged.
  - destruct (canTick _ _ _); [|done]. by injection Hs as <-.
  - destruct (findTimer id (timers a)) as [tm|] eqn:Hf; [|done].
    destruct (bool_decide _); [|done]. injection Hs as <-.
    by apply (Feed_fire (cb tm) (set_timers _ a)).
  - destruct (tasks a !! i) as [[call k|]|] eqn:Hi; try done.
    destruct (accepts call r && _); [|done]. injection Hs as <-.
    by apply (Feed_resume_k k r o (set_tasks _ a)).
Qed.

Lemma Feed_init cfg prior url continued t0 :
  FeedInSync (init cfg prior url continued t0).
Proof. by destruct prior. Qed.

Lemma Feed_run evs : ∀ a a', FeedInSync a → run evs a = Some a' → FeedInSync a'.
Proof.
  induction evs as [|e evs IH]; intros a a' H Hr; simpl in Hr.
  - by injection Hr as <-.
  - destruct (step e a) as [a1|] eqn:Hs; [|done].
    eapply IH; [|done]. by eapply Feed_step.
Qed.

(** X10.  In every reachable state the UI has been told the current phase
    and the current log: the last [status_update] sent carries the phase of
    the agent, and the last [chat_update] sent carries its whole log (none
    was sent exactly while the log is empty). *)
Theorem ui_feed_in_sync (a : Agent) :
  reachable a →
  lastStatus (ui a) = Some (state a) ∧ lastChat (ui a) = conversation a.
Proof.
  intros (cfg & prior & url & c & t0 & evs & Hr).
  apply (Feed_run evs (init cfg prior url c t0)); [apply Feed_init|done].
Qed.

Lemma ui_feed_in_sync_witness :
  lastStatus (ui s_approval) = Some awaiting_approval
  ∧ lastChat (ui s_approval) = conversation s_approval.
Proof.
  apply (ui_feed_in_sync s_approval). by apply (reachable_after toApproval).
Defined.

(** ** The log only grows *)

Lemma Extends_refl c : Extends c c.
Proof. exists []. by rewrite app_nil_r. Qed.

Lemma Extends_snoc c0 c1 m : Extends c0 c1 → Extends c0 (c1 ++ [m]).
Proof. apply prefix_app_r. Qed.

Lemma addFrom_extends baseTs msgs : ∀ j a,
  ∃ conv sink,
    addFrom baseTs j msgs a = set_ui sink (set_conversation conv a)
    ∧ Extends (conversation a) conv.
Proof.
  intros j a. destruct (addFrom_shape baseTs msgs j a) as (conv & sink & E).
  exists conv, sink. split; [done|].
  pose proof (addFrom_conversation baseTs msgs j a) as Hc. rewrite E in Hc.
  cbn in Hc. rewrite Hc. by eexists.
Qed.

Arguments Extends : simpl never.

Ltac grow_append :=
  unfold appendDeduped in *;
  repeat match goal with
  | |- context [addFrom ?b ?j ?l ?a] =>
      let V := fresh "conv" in
      let U := fresh "sink" in
      let E := fresh "E" in
      let Ex := fresh "Ex" in
      destruct (addFrom_extends b l j a) as (V & U & E & Ex); rewrite !E; clear E;
      cbn in Ex
  end.

Ltac grow_leaf :=
  cbn;
  try match goal with
      | H : conversation ?a = ?v |- Extends ?v _ => rewrite <- H
      end;
  repeat first [assumption | apply Extends_refl | apply Extends_snoc].

Ltac grow_all := repeat (progress unfold_ops);
  repeat (cbn -[addFrom takeRendezvous]; first [split_one | progress ti_list]);
  cbn -[addFrom takeRendezvous]; grow_append; cbn; grow_leaf.

Lemma Extends_pause a : Extends (conversation a) (conversation (pause a)).
Proof. unfold pause. grow_all. Qed.

Lemma Extends_resume a : Extends (conversation a) (conversation (resume a)).
Proof. unfold resume. grow_all. Qed.

Lemma Extends_stop a : Extends (conversation a) (conversation (stop a)).
Proof. grow_all. Qed.

Lemma Extends_handleApproval requestId a :
  Extends (conversation a) (conversation (handleApproval requestId a)).
Proof. grow_all. Qed.

Lemma Extends_handleRejection requestId directive a :
  Extends (conversation a) (conversation (handleRejection requestId directive a)).
Proof. grow_all. Qed.

Lemma Extends_handleUserDirective txt a :
  Extends (conversation a) (conversation (handleUserDirective txt a)).
Proof. grow_all. Qed.

Lemma Extends_handleUserTyping a :
  Extends (conversation a) (conversation (handleUserTyping a)).
Proof. grow_all. Qed.

Lemma Extends_handleUserOverride txt a :
  Extends (conversation a) (conversation (handleUserOverride txt a)).
Proof. grow_all. Qed.

Lemma Extends_handleSnapshotChanged snapshot a :
  Extends (conversation a) (conversation (handleSnapshotChanged snapshot a)).
Proof. grow_all. Qed.

Lemma Extends_fire c a : Extends (conversation a) (conversation (fire c a)).
Proof. destruct c; grow_all. Qed.

Lemma Extends_resume_k k r o a :
  Extends (conversation a) (conversation (resume_k k r o a)).
Proof.
  destruct k; try (destruct ctx); try (destruct approved); destruct r;
    cbn [resume_k]; grow_all.
Qed.

Lemma Extends_step e a a' :
  step e a = Some a' → Extends (conversation a) (conversation a').
Proof.
  intros Hs. destruct e; simpl in Hs.
  - injection Hs as <-. by apply Extends_pause.
  - injection Hs as <-. by apply Extends_resume.
  - injection Hs as <-. by apply Extends_stop.
  - injection Hs as <-. by apply Extends_handleApproval.
  - injection Hs as <-. by apply Extends_handleRejection.
  - injection Hs as <-. by apply Extends_handleUserDirective.
  - injection Hs as <-. by apply Extends_handleUserTyping.
  - injection Hs as <-. by apply Extends_handleUserOverride.
  - destruct (listening a); [|done]. injection Hs as <-.
    by apply Extends_handleSnapshotChanged.
  - destruct (canTick _ _ _); [|done]. injection Hs as <-. apply Extends_refl.
  - destruct (findTimer id (timers a)) as [tm|] eqn:Hf; [|done].
    destruct (bool_decide _); [|done]. injection Hs as <-.
    apply (Extends_fire (cb tm) (set_timers _ a)).
  - destruct (tasks a !! i) as [[call k|]|] eqn:Hi; try done.
    destruct (accepts call r && _); [|done]. injection Hs as <-.
    apply (Extends_resume_k k r o (set_tasks _ a)).
Qed.

(** X11.  No event removes, changes or reorders an entry of the
    conversation log: after any sequence of events the log is the earlier
    log followed by the entries added since. *)
Theorem log_append_only evs : ∀ a a',
  run evs a = Some a' → ∃ added, conversation a' = conversation a ++ added.
Proof.
  induction evs as [|e evs IH]; intros a a' Hr; simpl in Hr.
  - injection Hr as <-. exists []. by rewrite app_nil_r.
  - destruct (step e a) as [a1|] eqn:Hs; [|done].
    destruct (Extends_step _ _ _ Hs) as [k1 E1].
    destruct (IH _ _ Hr) as [k2 E2]. exists (k1 ++ k2).
    by rewrite E2, E1, app_assoc.
Qed.

Lemma log_append_only_witness :
  ∃ added, conversation s_approval = conversation s_negotiating ++ added.
Proof.
  apply (log_append_only [E_changed "snap2"; E_tick 2000; E_fire 5;
                          E_done 0 (R_neg offer) o0]).
  vm_compute. reflexivity.
Defined.

(** ** Decisions that arrive late *)

(** X12.  The decision of a reach-human or negotiation turn that arrives
    while the phase is [paused] or the user is typing is discarded: no
    message it reports enters the log, nothing is sent to the UI, no action
    or approval follows and the phase stays; the turn ends, releases the
    single-flight flag and arms the inactivity watchdog 15 s ahead, also
    while paused. *)
Theorem decision_discarded_while_suppressed k r o (a : Agent) :
  isDecision k r = true → state a = paused ∨ userTyping a = true →
  let a' := resume_k k r o a in
  conversation a' = conversation a ∧ ui a' = ui a ∧ tasks a' = tasks a
  ∧ state a' = state a ∧ pendingApproval a' = pendingApproval a
  ∧ waitingForLLM a' = false
  ∧ inactivityTimer a' = Some (nextId (timers a))
  ∧ (nextId (timers a), {| due := clock a + INACTIVITY_MS; cb := CbInactivity |})
    ∈ armed (timers a').
Proof.
  intros Hk Hs.
  assert (bool_decide (state a = paused) || userTyping a = true) as Hc.
  { destruct Hs as [->| ->]; [done|apply orb_true_r]. }
  destruct k, r; try discriminate Hk; cbn [resume_k];
    unfold reachDecided, negotiationDecided; rewrite Hc;
    unfold finally, resetInactivityTimer, seq; cbn;
    rewrite ?handle_setTimeout, ?nextId_clearField;
    (repeat split; try done); apply elem_setTimeout; right;
    by rewrite nextId_clearField.
Qed.

Lemma decision_discarded_while_suppressed_witness :
  conversation (resume_k (K_neg_llm "snap2") (R_neg offer) o0 s_turnPaused)
  = conversation s_turnPaused
  ∧ waitingForLLM (resume_k (K_neg_llm "snap2") (R_neg offer) o0 s_turnPaused) = false.
Proof.
  destruct (decision_discarded_while_suppressed (K_neg_llm "snap2") (R_neg offer) o0
              s_turnPaused) as (H1 & _ & _ & _ & _ & H2 & _);
    [reflexivity|left; reflexivity|].
  split; [exact H1|exact H2].
Defined.

Lemma no_rendezvous_outside_approval (a : Agent) :
  Inv a → state a ≠ awaiting_approval → state a ≠ paused →
  takeRendezvous (tasks a) = None.
Proof.
  intros [_ _ Hr _ _ Hres _ _] N1 N2. cbn in Hr. apply takeRendezvous_none_iff.
  destruct (approvalResolve a); [|done]. by destruct Hres as [?|[? _]].
Qed.

(** X13.  [stop()] does not cancel a reach-human turn whose decision is
    still awaited.  When that decision arrives after [stop()] and reports a
    human, the stopped agent leaves [done]: the phase becomes [negotiating],
    the UI is told so, and an opening message is requested from the
    decision-making capability. *)
Theorem stop_keeps_reach_turn (a : Agent) i snapshot turn o :
  reachable a → state a = reaching_human →
  tasks a !! i = Some (Await (LlmTools REACH_HUMAN_TURN_TOOL) (K_reach_llm snapshot)) →
  humanDetected turn = true →
  0 ≤ rnd o < StallManager.MAX_STALL_JITTER_MS →
  ∃ a' instruction,
    run [E_stop; E_done i (R_reach turn) o] a = Some a'
    ∧ state a' = negotiating
    ∧ lastStatus (ui a') = Some negotiating
    ∧ last (tasks a')
      = Some (Await (LlmChat (Generate snapshot instruction)) (K_generated InReach)).
Proof.
  intros H Hs Hi Hh Ho.
  pose proof (stop_Stopped a (reachable_Inv a H) (reachable_TimersInv a H)) as S.
  destruct S as [[Sp _] _ St _ _ Stk _ _ _ _ _].
  rewrite (no_rendezvous_outside_approval a (reachable_Inv a H)) in Stk
    by (rewrite Hs; done).
  cbn [default] in Stk.
  assert (tasks (stop a) !! i
          = Some (Await (LlmTools REACH_HUMAN_TURN_TOOL) (K_reach_llm snapshot))) as Hi'.
  { rewrite Stk. by apply lookup_app_l_Some. }
  eexists _, _. split.
  { cbn [run step]. rewrite Hi'. cbn [accepts andb].
    rewrite bool_decide_eq_true_2 by done. reflexivity. }
  cbn [resume_k]. unfold reachDecided. cbn [state userTyping set_tasks].
  rewrite Sp, St, Hh. rewrite bool_decide_eq_false_2 by done. cbn [orb].
  unfold spawn, setState, sendToUI, seq. cbn.
  rewrite lastStatus_snoc, last_snoc. cbn. done.
Qed.

Lemma stop_keeps_reach_turn_witness :
  ∃ a' instruction,
    run [E_stop; E_done 0 (R_reach bobIsHuman) o0] s_reachTurn = Some a'
    ∧ state a' = negotiating
    ∧ lastStatus (ui a') = Some negotiating
    ∧ last (tasks a')
      = Some (Await (LlmChat (Generate "snap1" instruction)) (K_generated InReach)).
Proof.
  apply (stop_keeps_reach_turn s_reachTurn 0 "snap1" bobIsHuman o0);
    [by apply (reachable_after toReachTurn)|reflexivity..|by vm_compute].
Defined.

(** ** Deduplication looks at the log only *)

Lemma pairOf_stamped baseTs j m : pairOf (stamped baseTs j m) = (nm_sender m, nm_text m).
Proof. done. Qed.

Lemma filter_none {A} (P : A → Prop) `{∀ x, Decision (P x)} (l : list A) :
  (∀ x, x ∈ l → ¬ P x) → filter P l = [].
Proof.
  induction l as [|y l IH]; intros Hl; [done|]. rewrite filter_cons_False.
  - apply IH. intros x Hx. apply Hl, elem_of_cons. by right.
  - apply Hl, elem_of_cons. by left.
Qed.

(** X14.  Appending a batch is idempotent on the log: a batch that is
    reported a second time, right after it was appended, adds no entry,
    whatever it holds. *)
Theorem appendDeduped_idempotent (newMsgs : list NewMessage) (a : Agent) :
  deduplicateMessages newMsgs (appendDeduped newMsgs a) = []
  ∧ conversation (appendDeduped newMsgs (appendDeduped newMsgs a))
    = conversation (appendDeduped newMsgs a).
Proof.
  assert (deduplicateMessages newMsgs (appendDeduped newMsgs a) = []) as E.
  { rewrite deduplicateMessages_pairs. apply filter_none.
    intros m Hm Hno. apply Hno. unfold appendDeduped.
    rewrite addFrom_conversation, deduplicateMessages_pairs, fmap_app.
    apply elem_of_app.
    destruct (decide ((nm_sender m, nm_text m) ∈ pairOf <$> conversation a))
      as [Hin|Hout]; [by left|right].
    assert (m ∈ filter (λ m, (nm_sender m, nm_text m) ∉ pairOf <$> conversation a)
                  newMsgs) as Hf by by apply list_elem_of_filter.
    apply list_elem_of_lookup in Hf as [i Hi].
    apply list_elem_of_fmap. exists (stamped (clock a) (0 + i) m). split; [done|].
    apply list_elem_of_lookup. exists i. rewrite list_lookup_imap, Hi. done. }
  split; [done|]. unfold appendDeduped at 1. rewrite addFrom_conversation.
  cbv zeta in E. rewrite E. simpl. by rewrite app_nil_r.
Qed.

(** X15.  The filter compares a reported message with the log as it was
    before the batch, never with the other messages of the batch: a batch
    none of whose (sender, text) pairs occurs in the log is appended whole,
    also when it holds the same message several times. *)
Theorem batch_duplicates_survive (newMsgs : list NewMessage) (a : Agent) :
  (∀ m, m ∈ newMsgs → (nm_sender m, nm_text m) ∉ pairOf <$> conversation a) →
  deduplicateMessages newMsgs a = newMsgs
  ∧ conversation (appendDeduped newMsgs a)
    = conversation a ++ imap (stamped (clock a)) newMsgs.
Proof.
  intros H.
  assert (deduplicateMessages newMsgs a = newMsgs) as E.
  { rewrite deduplicateMessages_pairs. clear -H.
    induction newMsgs as [|m l IH]; [done|]. rewrite filter_cons_True.
    - f_equal. apply IH. intros x Hx. apply H, elem_of_cons. by right.
    - apply H, elem_of_cons. by left. }
  split; [done|]. unfold appendDeduped. by rewrite addFrom_conversation, E.
Qed.

Lemma batch_duplicates_survive_witness :
  conversation
    (appendDeduped [{| nm_sender := rep; nm_text := "Hello?" |};
                    {| nm_sender := rep; nm_text := "Hello?" |}] s_negotiating)
  = conversation s_negotiating
    ++ [{| sender := rep; text := "Hello?"; timestamp := 5000 |};
        {| sender := rep; text := "Hello?"; timestamp := 5001 |}].
Proof.
  apply (batch_duplicates_survive
           [{| nm_sender := rep; nm_text := "Hello?" |};
            {| nm_sender := rep; nm_text := "Hello?" |}] s_negotiating).
  intros m Hm Hin.
  repeat (apply elem_of_cons in Hm as [->|Hm]; [vm_compute in Hin|]);
    [| |by apply elem_of_nil in Hm];
    repeat (apply elem_of_cons in Hin as [Hin|Hin]; [discriminate Hin|]);
    by apply elem_of_nil in Hin.
Defined.

(** ** The page observer *)

Lemma toInt32_mod x : ChatObserver.toInt32 x mod 2 ^ 32 = x mod 2 ^ 32.
Proof.
  unfold ChatObserver.toInt32. cbv zeta.
  pose proof (Z.mod_pos_bound x (2 ^ 32) ltac:(lia)) as Hb.
  destruct (x mod 2 ^ 32 <? 2 ^ 31) eqn:E.
  - by rewrite Z.mod_mod.
  - replace (x mod 2 ^ 32 - 2 ^ 32) with (x mod 2 ^ 32 + (-1) * 2 ^ 32) by lia.
    rewrite Z.mod_add by lia. by rewrite Z.mod_mod.
Qed.

Lemma toInt32_congr x y : x mod 2 ^ 32 = y mod 2 ^ 32 →
  ChatObserver.toInt32 x = ChatObserver.toInt32 y.
Proof. unfold ChatObserver.toInt32. by intros ->. Qed.

Lemma toInt32_range x : - 2 ^ 31 ≤ ChatObserver.toInt32 x < 2 ^ 31.
Proof.
  unfold ChatObserver.toInt32. cbv zeta.
  pose proof (Z.mod_pos_bound x (2 ^ 32) ltac:(lia)) as Hb.
  destruct (x mod 2 ^ 32 <? 2 ^ 31) eqn:E; [apply Z.ltb_lt in E|apply Z.ltb_ge in E]; lia.
Qed.

Lemma hashStep_poly h h' c :
  h mod 2 ^ 32 = h' mod 2 ^ 32 →
  ChatObserver.hashStep h c = ChatObserver.toInt32 (31 * h' + c).
Proof.
  intros E. unfold ChatObserver.hashStep. apply toInt32_congr.
  rewrite Z.shiftl_mul_pow2 by lia.
  rewrite <- Z.add_mod_idemp_l, <- Zminus_mod_idemp_l, toInt32_mod by lia.
  rewrite <- Z.mul_mod_idemp_l, toInt32_mod, Z.mul_mod_idemp_l by lia.
  rewrite Zminus_mod_idemp_l, Z.add_mod_idemp_l by lia.
  replace (h * 2 ^ 5 - h + c) with (31 * h + c) by lia.
  rewrite <- Z.add_mod_idemp_l, <- Z.mul_mod_idemp_r, E, Z.mul_mod_idemp_r,
    Z.add_mod_idemp_l by lia.
  done.
Qed.

Lemma simpleHash_fold str : ∀ h h',
  h = ChatObserver.toInt32 h' →
  fold_left ChatObserver.hashStep str h
  = ChatObserver.toInt32 (fold_left (λ h c, 31 * h + c) str h').
Proof.
  induction str as [|c str IH]; intros h h' E; [done|]. simpl. apply IH.
  apply hashStep_poly. by rewrite E, toInt32_mod.
Qed.

Lemma simpleHash_poly str :
  ChatObserver.simpleHash str = ChatObserver.toInt32 (poly31 str).
Proof. by apply simpleHash_fold. Qed.

(** X18.  [simpleHash] is the polynomial hash with base 31 of the UTF-16
    code units of its argument, reduced to a 32-bit two's-complement integer;
    the result lies between -2^31 and 2^31 - 1, and the empty string hashes
    to 0. *)
Theorem simpleHash_is_poly31 (str : list Z) :
  ChatObserver.simpleHash str = ChatObserver.toInt32 (poly31 str)
  ∧ - 2 ^ 31 ≤ ChatObserver.simpleHash str < 2 ^ 31
  ∧ ChatObserver.simpleHash [] = 0.
Proof.
  pose proof (simpleHash_poly str) as E.
  split; [done|]. split; [|done]. rewrite E. apply toInt32_range.
Qed.

Lemma poly31_app p q : poly31 (p ++ q) = fold_left (λ h c, 31 * h + c) q (poly31 p).
Proof. unfold poly31. by rewrite fold_left_app. Qed.

Lemma simpleHash_neighbours (p q : list Z) (a b : Z) :
  ChatObserver.simpleHash (p ++ [a; b] ++ q)
  = ChatObserver.simpleHash (p ++ [a + 1; b - 31] ++ q).
Proof.
  rewrite !simpleHash_poly, !poly31_app. cbn [app fold_left].
  f_equal. f_equal. lia.
Qed.

(** X19.  The observer misses a change between two snapshots that differ
    in two neighbouring code units [a b] and [a+1 b-31] (as "Aa" and "BB"):
    the two have the same hash, so after the first was reported a poll that
    returns the second emits nothing. *)
Theorem poll_misses_colliding_change (w : ChatObserver.World) (p q : list Z) (a b : Z) :
  ChatObserver.lastSnapshotHash (ChatObserver.obs w)
  = Some (ChatObserver.simpleHash (p ++ [a; b] ++ q)) →
  ChatObserver.simpleHash (p ++ [a; b] ++ q)
  = ChatObserver.simpleHash (p ++ [a + 1; b - 31] ++ q)
  ∧ ChatObserver.emitted (ChatObserver.polled (Some (p ++ [a + 1; b - 31] ++ q)) w)
    = ChatObserver.emitted w.
Proof.
  intros Hl. split; [apply simpleHash_neighbours|].
  unfold ChatObserver.polled. cbv zeta.
  rewrite <- simpleHash_neighbours, Hl. by rewrite bool_decide_eq_true_2.
Qed.

Lemma poll_misses_colliding_change_witness :
  ChatObserver.simpleHash [65; 97] = ChatObserver.simpleHash [66; 66]
  ∧ ChatObserver.emitted (ChatObserver.polled (Some [66; 66]) w_Aa)
    = ChatObserver.emitted w_Aa.
Proof.
  apply (poll_misses_colliding_change w_Aa [] [] 65 97). reflexivity.
Defined.

Lemma observer_step_requests e w w' :
  (ChatObserver.requests w ≤ 1)%nat
  ∧ (ChatObserver.polling (ChatObserver.obs w) = true
     ↔ ChatObserver.requests w = 1%nat) →
  ChatObserver.step e w = Some w' →
  (ChatObserver.requests w' ≤ 1)%nat
  ∧ (ChatObserver.polling (ChatObserver.obs w') = true
     ↔ ChatObserver.requests w' = 1%nat).
Proof.
  intros [Hle Hp] Hs. destruct w as [[tm lh pl] n em]. cbn in *.
  destruct e as [| | |r]; cbn in Hs.
  - injection Hs as <-. unfold ChatObserver.start, ChatObserver.poll. cbn.
    destruct tm, pl; cbn; try done; split; try lia; split; try done; lia.
  - injection Hs as <-. unfold ChatObserver.stop. cbn. by destruct tm.
  - destruct tm; [|done]. injection Hs as <-. unfold ChatObserver.poll. cbn.
    destruct pl; cbn; try done. split; [lia|]. split; [lia|done].
  - destruct n as [|n]; [done|]. injection Hs as <-.
    unfold ChatObserver.polled. cbn.
    destruct r as [s|]; [case_bool_decide|]; cbn; (split; [lia|]);
      (split; [done|lia]).
Qed.

(** X20.  The observer never has two calls of [mcp.snapshot()]
    outstanding: whatever the order of [start()], [stop()], interval ticks
    and returning calls, at most one call is in flight, and the flag
    [polling] is set exactly while one is. *)
Theorem observer_single_poll (evs : list ChatObserver.Ev) : ∀ w,
  ChatObserver.run evs ChatObserver.fresh = Some w →
  (ChatObserver.requests w ≤ 1)%nat
  ∧ (ChatObserver.polling (ChatObserver.obs w) = true
     ↔ ChatObserver.requests w = 1%nat).
Proof.
  assert (∀ w0 w,
    (ChatObserver.requests w0 ≤ 1)%nat
    ∧ (ChatObserver.polling (ChatObserver.obs w0) = true
       ↔ ChatObserver.requests w0 = 1%nat) →
    ChatObserver.run evs w0 = Some w →
    (ChatObserver.requests w ≤ 1)%nat
    ∧ (ChatObserver.polling (ChatObserver.obs w) = true
       ↔ ChatObserver.requests w = 1%nat)) as Hgen.
  { induction evs as [|e evs IH]; intros w0 w H0 Hr; simpl in Hr.
    - by injection Hr as <-.
    - destruct (ChatObserver.step e w0) as [w1|] eqn:Hs; [|done].
      apply (IH w1 w); [|done]. by apply (observer_step_requests e w0). }
  intros w. apply Hgen. cbn. split; [lia|]. split; [done|lia].
Qed.

Lemma observer_single_poll_witness :
  (ChatObserver.requests w_Aa ≤ 1)%nat
  ∧ (ChatObserver.polling (ChatObserver.obs w_Aa) = true
     ↔ ChatObserver.requests w_Aa = 1%nat).
Proof.
  apply (observer_single_poll
           [ChatObserver.Ev_start; ChatObserver.Ev_snapshot (Some [65; 97])]).
  reflexivity.
Defined.

Lemma last_reported_snoc l e :
  last (reported (l ++ [e]))
  = match e with
    | ChatObserver.snapshot_changed s => Some s
    | ChatObserver.error => last (reported l)
    end.
Proof.
  unfold reported. rewrite omap_app. destruct e; simpl.
  - by rewrite last_snoc.
  - by rewrite app_nil_r.
Qed.

Lemma hashesAlternate_snoc l s :
  hashesAlternate (l ++ [s])
  ↔ hashesAlternate l
    ∧ match last l with
      | Some s' => ChatObserver.simpleHash s' ≠ ChatObserver.simpleHash s
      | None => True
      end.
Proof.
  induction l as [|x l IH]; [done|]. destruct l as [|y l].
  - simpl. tauto.
  - change ((x :: y :: l) ++ [s]) with (x :: ((y :: l) ++ [s])).
    change (hashesAlternate (x :: (y :: l) ++ [s]))
      with (ChatObserver.simpleHash x ≠ ChatObserver.simpleHash y
            ∧ hashesAlternate ((y :: l) ++ [s])).
    rewrite IH. rewrite (last_cons_cons x y l).
    change (hashesAlternate (x :: y :: l))
      with (ChatObserver.simpleHash x ≠ ChatObserver.simpleHash y
            ∧ hashesAlternate (y :: l)).
    tauto.
Qed.

Lemma reported_snoc l e :
  reported (l ++ [e])
  = reported l ++ match e with
                  | ChatObserver.snapshot_changed s => [s]
                  | ChatObserver.error => []
                  end.
Proof. unfold reported. rewrite omap_app. by destruct e. Qed.

Lemma Reported_step e w w' :
  Reported w → ChatObserver.step e w = Some w' → Reported w'.
Proof.
  intros [Ha Hl] Hs. destruct w as [[tm lh pl] n em]. unfold Reported in *.
  cbn [ChatObserver.emitted ChatObserver.obs ChatObserver.lastSnapshotHash] in *.
  destruct e as [| | |r]; cbn in Hs.
  - injection Hs as <-. unfold ChatObserver.start, ChatObserver.poll. cbn.
    by destruct tm, pl.
  - injection Hs as <-. unfold ChatObserver.stop. cbn. by destruct tm.
  - destruct tm; [|done]. injection Hs as <-. unfold ChatObserver.poll. cbn.
    by destruct pl.
  - destruct n as [|n]; [done|]. injection Hs as <-.
    unfold ChatObserver.polled.
    cbn [ChatObserver.emitted ChatObserver.obs ChatObserver.lastSnapshotHash
         ChatObserver.timer ChatObserver.polling ChatObserver.requests].
    destruct r as [s|]; [case_bool_decide as E|];
      cbn [ChatObserver.emitted ChatObserver.obs ChatObserver.lastSnapshotHash
           ChatObserver.timer ChatObserver.polling ChatObserver.requests].
    + done.
    + rewrite reported_snoc, last_snoc. split; [|done].
      apply hashesAlternate_snoc. split; [done|].
      destruct (last (reported em)) as [s'|]; [|done]. cbn [fmap option_fmap option_map] in Hl.
      intros E'. apply E. rewrite Hl, E'. done.
    + rewrite reported_snoc, app_nil_r. done.
Qed.

(** X21.  The observer reports a snapshot exactly when its hash differs
    from the hash of the snapshot reported last: in the sequence of
    [snapshot_changed] events it has emitted, two neighbours never have the
    same hash, and [lastSnapshotHash] is the hash of the last one (the
    initial [""] when none was emitted, so the first snapshot polled is
    always reported). *)
Theorem observer_reports_changes (evs : list ChatObserver.Ev) : ∀ w,
  ChatObserver.run evs ChatObserver.fresh = Some w →
  hashesAlternate (reported (ChatObserver.emitted w))
  ∧ ChatObserver.lastSnapshotHash (ChatObserver.obs w)
    = ChatObserver.simpleHash <$> last (reported (ChatObserver.emitted w)).
Proof.
  assert (∀ w0 w, Reported w0 → ChatObserver.run evs w0 = Some w → Reported w) as Hgen.
  { induction evs as [|e evs IH]; intros w0 w H0 Hr; simpl in Hr.
    - by injection Hr as <-.
    - destruct (ChatObserver.step e w0) as [w1|] eqn:Hs; [|done].
      apply (IH w1 w); [|done]. by apply (Reported_step e w0). }
  intros w. apply Hgen. done.
Qed.

Lemma observer_reports_changes_witness :
  hashesAlternate (reported (ChatObserver.emitted w_Aa))
  ∧ ChatObserver.lastSnapshotHash (ChatObserver.obs w_Aa)
    = ChatObserver.simpleHash <$> last (reported (ChatObserver.emitted w_Aa)).
Proof.
  apply (observer_reports_changes
           [ChatObserver.Ev_start; ChatObserver.Ev_snapshot (Some [65; 97])]).
  reflexivity.
Defined.

(** ** What the decision-making capability is shown *)

Lemma sliceLast_app {A} (n : nat) (older recent : list A) :
  length recent = n → sliceLast n (older ++ recent) = recent.
Proof.
  intros <-. unfold sliceLast. rewrite length_app.
  replace (length older + length recent - length recent)%nat with (length older) by lia.
  by rewrite drop_app_length.
Qed.

Lemma sliceLast_short {A} (n : nat) (l : list A) :
  (length l ≤ n)%nat → sliceLast n l = l.
Proof.
  intros H. unfold sliceLast. by replace (length l - n)%nat with 0%nat by lia.
Qed.

Lemma concat_nonempty sep (x : string) (l : list string) :
  x ≠ "" → String.concat sep (x :: l) ≠ "".
Proof.
  intros Hx. destruct x as [|c x]; [done|]. destruct l; simpl; [done|].
  by destruct sep.
Qed.

Lemma sliceLast_nil {A} (n : nat) (l : list A) :
  (0 < n)%nat → sliceLast n l = [] → l = [].
Proof.
  unfold sliceLast. intros Hn H. destruct l as [|x l]; [done|]. exfalso.
  assert (length (drop (length (x :: l) - n) (x :: l)) = 0%nat) as Hl by by rewrite H.
  rewrite length_drop in Hl. simpl in Hl. lia.
Qed.

(** X16.  The conversation text shown to the decision-making capability
    holds the 20 most recent log entries and no older one, one entry per
    [sender: text] line: it is the same for a log and for its last 20
    entries, and takes in the whole log when that has at most 20 entries.
    The text is empty exactly when the log is empty, and then the turn
    shows the placeholder [(none yet)] in its place. *)
Theorem formatConversation_last_twenty (a : Agent) (older recent : list ChatMessage) :
  conversation a = older ++ recent →
  (length recent = 20%nat →
     formatConversation a = formatConversation (set_conversation recent a))
  ∧ ((length (conversation a) ≤ 20)%nat →
     formatConversation a
     = String.concat nl
         ((λ m, senderStr (sender m) +:+ ": " +:+ text m) <$> conversation a))
  ∧ (formatConversation a = "" ↔ conversation a = [])
  ∧ (conversation a = [] →
     ∀ snapshot, turnContent snapshot a
                 = "CONVERSATION SO FAR:" +:+ nl +:+ "(none yet)" +:+ nl +:+ nl
                   +:+ "CURRENT PAGE SNAPSHOT:" +:+ nl +:+ snapshot).
Proof.
  intros Hc. unfold formatConversation. cbn [conversation set_conversation].
  split; [|split; [|split]].
  - intros Hl. rewrite Hc, (sliceLast_app 20 older recent Hl).
    by rewrite (sliceLast_short 20 recent) by lia.
  - intros Hl. by rewrite sliceLast_short.
  - split.
    + intros He. apply (sliceLast_nil 20); [lia|].
      destruct (sliceLast 20 (conversation a)) as [|m l]; [done|]. exfalso.
      revert He. rewrite fmap_cons. apply concat_nonempty.
      by destruct (sender m).
    + intros ->. done.
  - intros E snapshot. unfold turnContent, formatConversation. by rewrite E.
Qed.

Lemma formatConversation_last_twenty_witness :
  formatConversation (set_conversation longLog s_negotiating)
  = formatConversation (set_conversation (drop 1 longLog) s_negotiating).
Proof.
  destruct (formatConversation_last_twenty (set_conversation longLog s_negotiating)
              (take 1 longLog) (drop 1 longLog)) as [H _]; [reflexivity|].
  apply H. reflexivity.
Defined.

(** ** Continuing a saved session *)

Lemma isSummary_mark summary ts :
  isSummary {| sender := system; text := "__SUMMARY__" +:+ nl +:+ summary;
               timestamp := ts |} = true.
Proof.
  unfold isSummary. cbn [sender text]. rewrite bool_decide_eq_true_2 by done.
  cbn [andb]. cbv -[String.prefix]. 
  repeat (cbn [String.prefix]; destruct (ascii_dec _ _); [|done]). by destruct summary.
Qed.

(** X17.  The closing summary never comes back as conversation: the entry
    that [stop()] appends for the summary is removed by the filter of
    [continue_session], so the messages handed to the continued agent are
    those of the log before the summary; the filter keeps every entry of the
    representative and of the agent, and applying it twice changes nothing. *)
Theorem summary_not_continued (a : Agent) (summary : string) (o : Oracle)
    (messages : list ChatMessage) :
  priorMessages (conversation (resume_k K_summary (R_chat summary) o a))
  = priorMessages (conversation a)
  ∧ (∀ m, m ∈ messages → sender m ≠ system → m ∈ priorMessages messages)
  ∧ priorMessages (priorMessages messages) = priorMessages messages.
Proof.
  split; [|split].
  - cbn [resume_k]. unfold addMessage, sendToUI, seq. cbn.
    unfold priorMessages. rewrite filter_app, filter_cons_False, filter_nil.
    + by rewrite app_nil_r.
    + by rewrite isSummary_mark.
  - intros m Hm Hs. apply list_elem_of_filter. split; [|done].
    unfold isSummary. by rewrite bool_decide_eq_false_2.
  - unfold priorMessages. induction messages as [|m l IH]; [done|].
    rewrite filter_cons. destruct (decide (isSummary m = false)) as [E|E]; [|done].
    rewrite filter_cons_True by done. by rewrite IH.
Qed.

(** ** The resolution of an approval *)

Lemma delete_length_snoc {A} (l : list A) (x : A) : delete (length l) (l ++ [x]) = l.
Proof. induction l as [|y l IH]; [done|]. simpl. by rewrite IH. Qed.

Lemma lookup_length_snoc {A} (l : list A) (x : A) : (l ++ [x]) !! length l = Some x.
Proof. induction l as [|y l IH]; [done|]. simpl. by rewrite IH. Qed.

(** X22.  The user's answer to a pending approval request, given in phase
    [awaiting_approval] or while paused, resumes the suspended turn: the
    stall scheduler is stopped, the request is dropped, the phase becomes
    [negotiating] (a pause is lifted without [resume()]), a fresh snapshot is
    fetched, and the reply is requested with the accept instruction after an
    approval and with the reject instruction built from the directive after
    a rejection; the directive is cleared once used, and the single-flight
    flag stays held while the reply is made. *)
Theorem approval_resolution (a : Agent) req (approved : bool) directive s o :
  reachable a → pendingApproval a = Some req →
  0 ≤ rnd o < StallManager.MAX_STALL_JITTER_MS →
  ∃ r a',
    takeRendezvous (tasks a) = Some r
    ∧ run [if approved then E_approve (req_id req)
           else E_reject (req_id req) directive;
           E_done (length r) (R_snapshot s) o] a = Some a'
    ∧ state a' = negotiating
    ∧ pendingApproval a' = None ∧ approvalResolve a' = false
    ∧ approvalDirective a' = None
    ∧ stallManager a' = StallManager.create
    ∧ waitingForLLM a' = true
    ∧ tasks a'
      = r ++ [Await (LlmChat (Generate s (if approved then ACCEPT_INSTRUCTION
                                          else rejectInstruction directive)))
                    (K_generated InNeg)].
Proof.
  intros H Hp Ho. destruct (reachable_Inv a H) as [_ Hm Hr Hpe _ Hres _ _].
  cbn in Hm, Hr. unfold hasPending in Hpe. rewrite Hp in Hpe. symmetry in Hpe.
  rewrite Hpe in Hr. cbn in Hr. rewrite Hr in Hm.
  destruct (takeRendezvous_one _ Hr) as (r & Er & _).
  assert (waitingForLLM a = true) as Hw.
  { destruct (waitingForLLM a); [done|]. cbn in Hm. lia. }
  assert (state a ≠ done) as Hd by (destruct (Hres Hpe) as [->|[-> _]]; done).
  assert (pendingIs (req_id req) a && approvalResolve a = true) as Hc.
  { unfold pendingIs. rewrite Hp, Hpe. by rewrite bool_decide_eq_true_2. }
  exists r. destruct approved; eexists; (split; [done|]); (split;
    [ cbn [run step]; unfold handleApproval, handleRejection; rewrite Hc;
      unfold resolveApproval, seq; cbn [tasks set_approvalDirective]; rewrite Er;
      unfold commitmentResumed, stallStop, setState, sendToUI, spawn, seq;
      cbn -[StallManager.stop];
      rewrite (bool_decide_eq_false_2 (state a = done)) by done;
      cbn -[StallManager.stop];
      rewrite lookup_length_snoc; cbn [accepts andb];
      rewrite bool_decide_eq_true_2 by done; reflexivity
    | cbn; rewrite delete_length_snoc; done ]).
Qed.

Lemma approval_resolution_witness :
  ∃ r a',
    takeRendezvous (tasks s_pausedApproval) = Some r
    ∧ run [E_reject "req-1" (Some "ask for 30");
           E_done (length r) (R_snapshot "pg") o0] s_pausedApproval = Some a'
    ∧ state a' = negotiating
    ∧ tasks a'
      = r ++ [Await (LlmChat (Generate "pg" (rejectInstruction (Some "ask for 30"))))
                    (K_generated InNeg)].
Proof.
  destruct (approval_resolution s_pausedApproval
              {| req_id := "req-1"; description := "40 a month";
                 repOffer := "We can offer 40 a month";
                 agentRecommendation := "counter";
                 req_reasoning := "Unable to evaluate — asking user to decide.";
                 req_counterSuggestion := Some "35 a month" |}
              false (Some "ask for 30") "pg" o0)
    as (r & a' & H1 & H2 & H3 & _ & _ & _ & _ & _ & H4);
    [by apply (reachable_after (toApproval ++ [E_pause]))|reflexivity|by vm_compute|].
  exists r, a'. by repeat split.
Defined.

(** ** Typing into the chat *)

Lemma app_String c (s t : string) : String c s +:+ t = String c (s +:+ t).
Proof. done. Qed.

Lemma app_Empty (t : string) : "" +:+ t = t.
Proof. done. Qed.

Lemma string_app_assoc (s t u : string) : (s +:+ t) +:+ u = s +:+ (t +:+ u).
Proof. induction s as [|c s IH]; [done|]. by rewrite !app_String, IH. Qed.

Lemma prefix_app (t post : string) : String.prefix t (t +:+ post) = true.
Proof.
  induction t as [|c t IH]; [by destruct post|]. rewrite app_String. simpl.
  by destruct (ascii_dec c c).
Qed.

Lemma includes_here (s t : string) : String.prefix t s = true → includes s t = true.
Proof. intros H. destruct s; cbn [includes]; by rewrite H. Qed.

Lemma includes_later c (s t : string) : includes s t = true → includes (String c s) t = true.
Proof. intros H. cbn [includes]. rewrite H. apply orb_true_r. Qed.

Lemma includes_app (pre t post : string) : includes (pre +:+ (t +:+ post)) t = true.
Proof.
  induction pre as [|c pre IH].
  - rewrite app_Empty. apply includes_here, prefix_app.
  - rewrite app_String. by apply includes_later.
Qed.

Lemma stripPrefix_app (p s rest : string) : stripPrefix p s = Some rest → s = p +:+ rest.
Proof.
  revert s. induction p as [|a p IH]; intros s H; simpl in H.
  - by injection H as ->.
  - destruct s as [|b s]; [done|]. destruct (Ascii.eqb a b) eqn:E; [|done].
    apply Ascii.eqb_eq in E as ->. rewrite app_String. f_equal. by apply IH.
Qed.

Lemma spanWord_app (s : string) :
  s = (spanWord s).1 +:+ (spanWord s).2 ∧ allWordOrDash (spanWord s).1 = true.
Proof.
  induction s as [|c s [IH1 IH2]]; [done|]. simpl.
  destruct (isWordOrDash c) eqn:E; simpl; [|done].
  rewrite app_String, <- IH1, E. done.
Qed.

Lemma matchRefHere_app (line r : string) :
  matchRefHere line = Some r →
  r ≠ "" ∧ allWordOrDash r = true
  ∧ ∃ post, line = "[ref=" +:+ (r +:+ ("]" +:+ post)).
Proof.
  unfold matchRefHere. intros H.
  destruct (stripPrefix "[ref=" line) as [rest|] eqn:Es; [|done].
  apply stripPrefix_app in Es as ->.
  destruct (spanWord_app rest) as [E1 E2].
  destruct (spanWord rest) as [[|c w] [|d post]]; try done.
  destruct (ascii_dec d "]") as [->|Hd].
  - injection H as <-. split; [done|]. split; [done|]. exists post.
    cbn [fst snd] in E1. by rewrite E1.
  - exfalso. destruct d as [[] [] [] [] [] [] [] []]; first [done | by apply Hd].
Qed.

Lemma matchRef_app (line r : string) :
  matchRef line = Some r →
  r ≠ "" ∧ allWordOrDash r = true
  ∧ ∃ pre post, line = pre +:+ (("[ref=" +:+ r +:+ "]") +:+ post).
Proof.
  induction line as [|c line IH]; simpl.
  - destruct (matchRefHere "") eqn:E; [|done]. by unfold matchRefHere in E.
  - destruct (matchRefHere (String c line)) as [r'|] eqn:E.
    + intros [= ->]. apply matchRefHere_app in E as (H1 & H2 & post & E').
      split; [done|]. split; [done|]. exists "", post. rewrite E'.
      by rewrite app_Empty, !string_app_assoc.
    + intros H. destruct (IH H) as (H1 & H2 & pre & post & E').
      split; [done|]. split; [done|]. exists (String c pre), post.
      by rewrite app_String, <- E'.
Qed.

Lemma splitLines_head (s : string) :
  ∃ l ls post, splitLines s = l :: ls ∧ s = l +:+ post.
Proof.
  induction s as [|c s (l & ls & post & El & Es)]; [by exists "", [], ""|].
  simpl. destruct (Ascii.eqb c "010").
  - by exists "", (splitLines s), (String c s).
  - rewrite El. exists (String c l), ls, post. split; [done|].
    by rewrite app_String, <- Es.
Qed.

Lemma splitLines_app (s line : string) :
  line ∈ splitLines s → ∃ pre post, s = pre +:+ (line +:+ post).
Proof.
  revert line. induction s as [|c s IH]; intros line H; simpl in H.
  - apply list_elem_of_singleton in H as ->. by exists "", "".
  - destruct (Ascii.eqb c "010").
    + apply elem_of_cons in H as [->|H]; [by exists "", (String c s)|].
      destruct (IH _ H) as (pre & post & ->). by exists (String c pre), post.
    + destruct (splitLines_head s) as (l & ls & post & El & Es).
      rewrite El in H, IH. apply elem_of_cons in H as [->|H].
      * exists "", post. by rewrite app_Empty, app_String, <- Es.
      * destruct (IH line) as (pre & post' & ->); [apply elem_of_cons; by right|].
        by exists (String c pre), post'.
Qed.

Lemma firstRef_line test lines r :
  firstRef test lines = Some r →
  ∃ line, line ∈ lines ∧ test line = true ∧ matchRef line = Some r.
Proof.
  induction lines as [|line rest IH]; [done|]. simpl.
  destruct (test line) eqn:Et.
  - destruct (matchRef line) as [r'|] eqn:Em.
    + intros [= ->]. exists line. split; [apply elem_of_cons; by left|done].
    + intros H. destruct (IH H) as (l & Hl & ? & ?). exists l.
      split; [apply elem_of_cons; by right|done].
  - intros H. destruct (IH H) as (l & Hl & ? & ?). exists l.
    split; [apply elem_of_cons; by right|done].
Qed.

(** X23.  A ref that [findChatInput] returns is a non-empty run of letters,
    digits, [_] and [-], and the snapshot holds it in the form [[ref=…]], on
    a line that names a chat input (and not a search box) or, failing any
    such line with a ref, on a line that names a content-editable element
    or a text area. *)
Theorem findChatInput_ref (snapshot r : string) :
  findChatInput snapshot = Some r →
  r ≠ "" ∧ allWordOrDash r = true
  ∧ includes snapshot ("[ref=" +:+ r +:+ "]") = true
  ∧ ∃ line, line ∈ splitLines snapshot ∧ matchRef line = Some r
      ∧ (isChatInputLine line = true
         ∨ (firstRef isChatInputLine (splitLines snapshot) = None
            ∧ isFallbackLine line = true)).
Proof.
  unfold findChatInput. cbv zeta. intros H.
  assert (∃ line, line ∈ splitLines snapshot ∧ matchRef line = Some r
            ∧ (isChatInputLine line = true
               ∨ (firstRef isChatInputLine (splitLines snapshot) = None
                  ∧ isFallbackLine line = true))) as (line & Hl & Hm & Hk).
  { destruct (firstRef isChatInputLine (splitLines snapshot)) as [r'|] eqn:E1.
    - injection H as ->. apply firstRef_line in E1 as (line & ? & ? & ?).
      exists line. split; [done|]. split; [done|]. by left.
    - apply firstRef_line in H as (line & ? & ? & ?).
      exists line. split; [done|]. split; [done|]. by right. }
  destruct (matchRef_app _ _ Hm) as (H1 & H2 & pre & post & El).
  destruct (splitLines_app _ _ Hl) as (pre' & post' & Es).
  split; [done|]. split; [done|]. split; [|by exists line].
  rewrite Es, El.
  replace (pre' +:+ (pre +:+ ("[ref=" +:+ r +:+ "]") +:+ post) +:+ post')
    with ((pre' +:+ pre) +:+ (("[ref=" +:+ r +:+ "]") +:+ (post +:+ post')))
    by by rewrite !string_app_assoc.
  apply includes_app.
Qed.

Lemma findChatInput_ref_witness :
  "e17" ≠ "" ∧ allWordOrDash "e17" = true
  ∧ includes chatPage ("[ref=" +:+ "e17" +:+ "]") = true.
Proof.
  destruct (findChatInput_ref chatPage "e17") as (H1 & H2 & H3 & _);
    [reflexivity|].
  split; [exact H1|]. split; [exact H2|exact H3].
Defined.

(** X24.  When the snapshot shows no chat input, [sendChatMessage] types
    nothing: it makes no browser call after the snapshot and still returns
    normally, so its callers go on as after a send, and the message is
    entered in the log as sent by the agent. *)
Theorem unsent_message_is_logged (txt snapshot : string)
    (fails : McpCall → option string) :
  findChatInput snapshot = None →
  sendChatMessage txt (inl snapshot) fails = ([C_snapshot], R_ok)
  ∧ ∀ ctx o (a : Agent),
      conversation (resume_k (K_then_add ctx agent txt) R_ok o a)
      = conversation a ++ [{| sender := agent; text := txt; timestamp := clock a |}]
      ∧ conversation (resume_k (K_override_sent txt) R_ok o a)
        = conversation a ++ [{| sender := agent; text := txt; timestamp := clock a |}].
Proof.
  intros H. split; [unfold sendChatMessage; by rewrite H|].
  intros ctx o a. cbn [resume_k]. split.
  - unfold completed, finally, startResolved, startPaused, resetInactivityTimer,
      setState, addMessage, sendToUI, seq.
    destruct ctx as [[]| |]; reflexivity.
  - unfold resetInactivityTimer, armAnon, addMessage, sendToUI, seq. cbn.
    by destruct (bool_decide (state a = reaching_human) || bool_decide (state a = negotiating)).
Qed.

Lemma unsent_message_is_logged_witness :
  sendChatMessage "I can pay 30" (inl "Please sign in to continue") (λ _, None)
  = ([C_snapshot], R_ok).
Proof.
  apply (unsent_message_is_logged "I can pay 30" "Please sign in to continue" (λ _, None)).
  reflexivity.
Defined.

(** ** A continued session *)

Lemma truthy_Some (s : string) : s ≠ "" → truthy (Some s) = true.
Proof.
  intros H. unfold truthy. destruct (String.eqb s "") eqn:E; [|done].
  by apply String.eqb_eq in E.
Qed.

Lemma step_done i r o call k (a : Agent) :
  tasks a !! i = Some (Await call k) →
  accepts call r = true →
  0 ≤ rnd o < StallManager.MAX_STALL_JITTER_MS →
  step (E_done i r o) a = Some (resume_k k r o (set_tasks (delete i (tasks a)) a)).
Proof.
  intros Ht Ha Ho. cbn [step]. rewrite Ht, Ha.
  by rewrite bool_decide_eq_true_2.
Qed.

Lemma run_done i r o call k rest (a b : Agent) :
  tasks a !! i = Some (Await call k) →
  accepts call r = true →
  0 ≤ rnd o < StallManager.MAX_STALL_JITTER_MS →
  run rest (resume_k k r o (set_tasks (delete i (tasks a)) a)) = Some b →
  run (E_done i r o :: rest) a = Some b.
Proof.
  intros Ht Ha Ho Hr. cbn [run]. by rewrite (step_done i r o call k).
Qed.

Lemma run_tick d rest (a b : Agent) :
  canTick (clock a) d (timers a) = true →
  run rest (set_clock (clock a + d) a) = Some b →
  run (E_tick d :: rest) a = Some b.
Proof. intros Hc Hr. cbn [run step]. by rewrite Hc. Qed.

Lemma run_fire id tm rest (a b : Agent) :
  findTimer id (timers a) = Some tm →
  due tm ≤ clock a →
  run rest (fire (cb tm) (set_timers (clearTimeout id (timers a)) a)) = Some b →
  run (E_fire id :: rest) a = Some b.
Proof.
  intros Hf Hd Hr. cbn [run step]. rewrite Hf.
  by rewrite bool_decide_eq_true_2.
Qed.

(** X25.  In a session continued from a saved one the agent is paused only
    when [start()] has resolved, that is after [kickoff] has run: the page
    action that [kickoff] decides on is carried out in phase
    [reaching_human], and only when it has completed is the agent paused,
    with [negotiating] as the phase to resume to and the typed text in the
    log. *)
Theorem continued_session_acts_before_pause cfg prior url t0 snapshot o r txt :
  r ≠ "" → txt ≠ "" → 0 ≤ rnd o < StallManager.MAX_STALL_JITTER_MS →
  ∃ a1 a2,
    run (toKickoffDecision snapshot (typeInto r txt) o) (init cfg prior url true t0)
    = Some a1
    ∧ state a1 = reaching_human
    ∧ tasks a1 = [Await (McpType r txt) (K_then_add (InKickoff true) agent txt)]
    ∧ step (E_done 0 R_ok o) a1 = Some a2
    ∧ state a2 = paused ∧ pausedFromState a2 = Some negotiating
    ∧ conversation a2
      = prior ++ [{| sender := agent; text := txt; timestamp := t0 + PAGE_LOAD_MS |}].
Proof.
  intros Hr Ht Ho.
  assert (∀ b, executeAction (InKickoff true) (typeInto r txt) b
               = spawn (Await (McpType r txt) (K_then_add (InKickoff true) agent txt)) b)
    as Ex.
  { intros b. unfold executeAction, typeInto. cbn [action response ref typed].
    rewrite (truthy_Some r Hr), (truthy_Some txt Ht). reflexivity. }
  unfold toKickoffDecision.
  destruct prior as [|m prior]; eexists _, _.
  all: split;
    [ eapply run_done; [vm_compute; reflexivity|reflexivity|exact Ho|];
      eapply run_tick;
        [unfold canTick; cbn; unfold setTimeout, PAGE_LOAD_MS; cbn;
         rewrite !bool_decide_eq_true_2 by lia; reflexivity|];
      eapply (run_fire 0 {| due := t0 + PAGE_LOAD_MS; cb := CbStartWait true |});
        [vm_compute; reflexivity|cbn; unfold PAGE_LOAD_MS; lia|];
      eapply run_done; [vm_compute; reflexivity|reflexivity|exact Ho|];
      eapply run_done; [vm_compute; reflexivity|reflexivity|exact Ho|];
      cbn [run resume_k]; rewrite Ex; reflexivity |].
  all: split; [vm_compute; reflexivity|].
  all: split; [vm_compute; reflexivity|].
  all: split; [eapply step_done; [vm_compute; reflexivity|reflexivity|exact Ho]|].
  all: split; [vm_compute; reflexivity|].
  all: split; vm_compute; reflexivity.
Qed.

Lemma continued_session_acts_before_pause_witness :
  ∃ a1 a2,
    run (toKickoffDecision "pg" (typeInto "e12" "Hello") o0)
        (init cfg0 [{| sender := rep; text := "Hi there"; timestamp := 5 |}]
              "https://example.com/chat" true 100)
    = Some a1
    ∧ state a1 = reaching_human
    ∧ step (E_done 0 R_ok o0) a1 = Some a2
    ∧ state a2 = paused
    ∧ conversation a2
      = [{| sender := rep; text := "Hi there"; timestamp := 5 |};
         {| sender := agent; text := "Hello"; timestamp := 3100 |}].
Proof.
  destruct (continued_session_acts_before_pause cfg0
              [{| sender := rep; text := "Hi there"; timestamp := 5 |}]
              "https://example.com/chat" 100 "pg" o0 "e12" "Hello")
    as (a1 & a2 & H1 & H2 & _ & H3 & H4 & _ & H5); [done|done|by vm_compute|].
  exists a1, a2. by repeat split.
Defined.

(** ** The request shown to the UI *)

Lemma lastApproval_snoc l m :
  lastApproval (l ++ [m])
  = match approvalOf m with Some r => Some r | None => lastApproval l end.
Proof.
  unfold lastApproval. rewrite omap_app. simpl.
  destruct (approvalOf m); [by rewrite last_snoc|by rewrite app_nil_r].
Qed.

Lemma addFrom_announced baseTs msgs : ∀ j a,
  ∃ conv sink,
    addFrom baseTs j msgs a = set_ui sink (set_conversation conv a)
    ∧ lastApproval sink = lastApproval (ui a).
Proof.
  induction msgs as [|m rest IH]; intros j a.
  - exists (conversation a), (ui a). by destruct a.
  - cbn [addFrom]. unfold seq.
    destruct (IH (S j) (addMessage (stamped baseTs j m) a))
      as (conv & sink & E & Es).
    unfold stamped in E. rewrite E. exists conv, sink. split; [done|].
    revert Es. unfold addMessage, sendToUI. cbn.
    by rewrite lastApproval_snoc.
Qed.

Arguments AnnouncedTo : simpl never.

Ltac ann_append :=
  unfold appendDeduped in *;
  repeat match goal with
  | |- context [addFrom ?b ?j ?l ?a] =>
      let V := fresh "conv" in
      let U := fresh "sink" in
      let E := fresh "E" in
      let Es := fresh "Es" in
      destruct (addFrom_announced b l j a) as (V & U & E & Es); rewrite !E; clear E;
      cbn in Es
  end.

Ltac ann_leaf :=
  unfold AnnouncedTo in *; cbn;
  rewrite ?lastApproval_snoc; cbn;
  rewrite ?lastApproval_snoc; cbn;
  repeat match goal with
  | E : lastApproval ?s = _ |- context [lastApproval ?s] => is_var s; rewrite E
  end;
  first [ done
        | congruence
        | intros ? ?; simplify_eq; first [done | congruence | eauto] ].

Ltac ann_all := repeat (progress unfold_ops); unfold Announced in *;
  repeat (cbn -[addFrom takeRendezvous]; first [split_one | progress ti_list]);
  cbn -[addFrom takeRendezvous]; ann_append; cbn; ann_leaf.

Lemma Ann_pause a : Announced a → Announced (pause a).
Proof. intros H. unfold pause. ann_all. Qed.

Lemma Ann_resume a : Announced a → Announced (resume a).
Proof. intros H. unfold resume. ann_all. Qed.

Lemma Ann_stop a : Announced a → Announced (stop a).
Proof. intros H. ann_all. Qed.

Lemma Ann_handleApproval requestId a : Announced a → Announced (handleApproval requestId a).
Proof. intros H. ann_all. Qed.

Lemma Ann_handleRejection requestId directive a :
  Announced a → Announced (handleRejection requestId directive a).
Proof. intros H. ann_all. Qed.

Lemma Ann_handleUserDirective txt a : Announced a → Announced (handleUserDirective txt a).
Proof. intros H. ann_all. Qed.

Lemma Ann_handleUserTyping a : Announced a → Announced (handleUserTyping a).
Proof. intros H. ann_all. Qed.

Lemma Ann_handleUserOverride txt a : Announced a → Announced (handleUserOverride txt a).
Proof. intros H. ann_all. Qed.

Lemma Ann_handleSnapshotChanged snapshot a :
  Announced a → Announced (handleSnapshotChanged snapshot a).
Proof. intros H. ann_all. Qed.

Lemma Ann_fire c a : Announced a → Announced (fire c a).
Proof. intros H. destruct c; ann_all. Qed.

Lemma Ann_resume_k k r o a : Announced a → Announced (resume_k k r o a).
Proof.
  intros H. destruct k; try (destruct ctx); try (destruct approved); destruct r;
    cbn [resume_k]; ann_all.
Qed.

Lemma Ann_step e a a' : Announced a → step e a = Some a' → Announced a'.
Proof.
  intros H Hs. destruct e; simpl in Hs.
  - injection Hs as <-. by apply Ann_pause.
  - injection Hs as <-. by apply Ann_resume.
  - injection Hs as <-. by apply Ann_stop.
  - injection Hs as <-. by apply Ann_handleApproval.
  - injection Hs as <-. by apply Ann_handleRejection.
  - injection Hs as <-. by apply Ann_handleUserDirective.
  - injection Hs as <-. by apply Ann_handleUserTyping.
  - injection Hs as <-. by apply Ann_handleUserOverride.
  - destruct (listening a); [|done]. injection Hs as <-.
    by apply Ann_handleSnapshotChanged.
  - destruct (canTick _ _ _); [|done]. by injection Hs as <-.
  - destruct (findTimer id (timers a)) as [tm|] eqn:Hf; [|done].
    destruct (bool_decide _); [|done]. injection Hs as <-.
    by apply (Ann_fire (cb tm) (set_timers _ a)).
  - destruct (tasks a !! i) as [[call k|]|] eqn:Hi; try done.
    destruct (accepts call r && _); [|done]. injection Hs as <-.
    by apply (Ann_resume_k k r o (set_tasks _ a)).
Qed.

Lemma Ann_init cfg prior url continued t0 :
  Announced (init cfg prior url continued t0).
Proof. by destruct prior. Qed.

Lemma Ann_run evs : ∀ a a', Announced a → run evs a = Some a' → Announced a'.
Proof.
  induction evs as [|e evs IH]; intros a a' H Hr; simpl in Hr.
  - by injection Hr as <-.
  - destruct (step e a) as [a1|] eqn:Hs; [|done].
    eapply IH; [|done]. by eapply Ann_step.
Qed.

(** X26.  In every reachable state a request that is pending is the one the
    UI was last asked to decide: the last [approval_required] message sent
    carries exactly the pending request, so the identifier the UI answers
    with is the one [handleApproval] and [handleRejection] compare with. *)
Theorem pending_request_is_last_announced (a : Agent) (req : ApprovalRequest) :
  reachable a → pendingApproval a = Some req → lastApproval (ui a) = Some req.
Proof.
  intros (cfg & prior & url & c & t0 & evs & Hr).
  apply (Ann_run evs (init cfg prior url c t0)); [apply Ann_init|done].
Qed.

Lemma pending_request_is_last_announced_witness :
  lastApproval (ui s_approval)
  = Some {| req_id := "req-1"; description := "40 a month";
            repOffer := "We can offer 40 a month";
            agentRecommendation := "counter";
            req_reasoning := "Unable to evaluate — asking user to decide.";
            req_counterSuggestion := Some "35 a month" |}.
Proof.
  apply (pending_request_is_last_announced s_approval);
    [by apply (reachable_after toApproval)|reflexivity].
Defined.

(** ** Pausing while the watchdog's handler is under way *)

Lemma pause_runs a :
  state a ≠ paused → state a ≠ idle → state a ≠ done →
  pause a = (set_pausedFromState (Some (state a)) >>> setState paused
             >>> clearDebounce >>> clearInactivity) a.
Proof. intros. unfold pause. by rewrite !bool_decide_eq_false_2 by done. Qed.

(** X27.  [pause()] does not stop a watchdog handler that is already
    waiting for its snapshot ([handleInactivity] checks the phase only before
    its first [await]).  In [reaching_human] the handler goes on into
    [reachHumanTurn], which takes the single-flight flag and calls the
    decision-making capability while the phase is [paused].  In
    [negotiating] the follow-up is generated, typed into the chat and logged
    while the phase is [paused], and the watchdog is armed again. *)
Theorem pause_keeps_inactivity_handler (a : Agent) i snapshot o :
  reachable a →
  0 ≤ rnd o < StallManager.MAX_STALL_JITTER_MS →
  (state a = reaching_human → waitingForLLM a = false →
   tasks a !! i = Some (Await Snapshot K_inact_reach) →
   ∃ a1, run [E_pause; E_done i (R_snapshot snapshot) o] a = Some a1
         ∧ state a1 = paused
         ∧ waitingForLLM a1 = true
         ∧ tasks a1 = delete i (tasks a)
                      ++ [Await (LlmTools REACH_HUMAN_TURN_TOOL) (K_reach_llm snapshot)])
  ∧ (state a = negotiating →
     tasks a !! i = Some (Await Snapshot K_inact_snapshot) →
     ∀ msg, ∃ a1 a2 a3,
       run [E_pause; E_done i (R_snapshot snapshot) o] a = Some a1
       ∧ state a1 = paused
       ∧ tasks a1 = delete i (tasks a)
                    ++ [Await (LlmChat (Generate snapshot FOLLOW_UP)) K_inact_generated]
       ∧ step (E_done (length (delete i (tasks a))) (R_chat msg) o) a1 = Some a2
       ∧ tasks a2 = delete i (tasks a) ++ [Await (Send msg) (K_inact_sent msg)]
       ∧ step (E_done (length (delete i (tasks a))) R_ok o) a2 = Some a3
       ∧ state a3 = paused
       ∧ conversation a3
         = conversation a ++ [{| sender := agent; text := msg; timestamp := clock a |}]
       ∧ ∃ id, inactivityTimer a3 = Some id
               ∧ (id, {| due := clock a + INACTIVITY_MS; cb := CbInactivity |})
                   ∈ armed (timers a3)).
Proof.
  intros H Ho. split.
  - intros Hs Hw Hi. eexists. split.
    { cbn [run step]. rewrite pause_runs by (rewrite Hs; done).
      unfold clearInactivity, clearDebounce, setState, sendToUI, seq.
      cbn [tasks set_tasks set_inactivityTimer set_debounceTimer set_timers
           set_state set_ui set_pausedFromState].
      rewrite Hi. cbn [accepts andb]. rewrite bool_decide_eq_true_2 by done.
      reflexivity. }
    cbn [resume_k]. unfold reachHumanTurn, sendToUI, spawn, seq. cbn.
    by rewrite Hw.
  - intros Hs Hi msg. eexists _, _, _. split.
    { cbn [run step]. rewrite pause_runs by (rewrite Hs; done).
      unfold clearInactivity, clearDebounce, setState, sendToUI, seq.
      cbn [tasks set_tasks set_inactivityTimer set_debounceTimer set_timers
           set_state set_ui set_pausedFromState].
      rewrite Hi. cbn [accepts andb]. rewrite bool_decide_eq_true_2 by done.
      reflexivity. }
    cbn [resume_k]. unfold spawn. cbn.
    split; [done|]. split; [done|]. split.
    { rewrite lookup_length_snoc. cbn [accepts andb].
      rewrite bool_decide_eq_true_2 by done. reflexivity. }
    cbn [resume_k]. unfold spawn. cbn. rewrite delete_length_snoc.
    split; [done|]. split.
    { rewrite lookup_length_snoc. cbn [accepts andb].
      rewrite bool_decide_eq_true_2 by done. reflexivity. }
    cbn [resume_k]. unfold resetInactivityTimer, addMessage, sendToUI, seq. cbn.
    split; [done|]. split; [done|]. eexists. split; [reflexivity|].
    apply elem_setTimeout. by right.
Qed.

Lemma pause_keeps_inactivity_handler_witness :
  (∃ a1, run [E_pause; E_done 0 (R_snapshot "late") o0] s_inactiveReach = Some a1
         ∧ state a1 = paused
         ∧ tasks a1 = [Await (LlmTools REACH_HUMAN_TURN_TOOL) (K_reach_llm "late")])
  ∧ ∃ a1 a2 a3,
      run [E_pause; E_done 0 (R_snapshot "late") o0] s_inactive = Some a1
      ∧ step (E_done 0 (R_chat "Still there?") o0) a1 = Some a2
      ∧ step (E_done 0 R_ok o0) a2 = Some a3
      ∧ state a3 = paused
      ∧ last (conversation a3)
        = Some {| sender := agent; text := "Still there?"; timestamp := 20000 |}.
Proof.
  split.
  - destruct (pause_keeps_inactivity_handler s_inactiveReach 0 "late" o0)
      as [H _]; [by apply (reachable_after toInactiveReach)|by vm_compute|].
    destruct H as (a1 & H1 & H2 & _ & H3); [reflexivity..|].
    exists a1. by repeat split.
  - destruct (pause_keeps_inactivity_handler s_inactive 0 "late" o0)
      as [_ H]; [by apply (reachable_after toInactive)|by vm_compute|].
    destruct (H eq_refl eq_refl "Still there?")
      as (a1 & a2 & a3 & H1 & _ & _ & H2 & _ & H3 & H4 & H5 & _).
    exists a1, a2, a3. repeat (split; [done|]).
    rewrite H5, last_snoc. reflexivity.
Defined.
